(** * Conversation-history synchronisation of the WhatsApp controller

    A shallow embedding of [syncConversationHistory] and
    [syncAllConversationsHistory] from [backend/controllers/whatsapp.js],
    together with the JavaScript built-ins they rely on
    ([String.prototype.replace], [Array.prototype.find],
    [Array.prototype.reduce], [Set], [Date.prototype.toISOString]).

    The messaging session (whatsapp-web.js) and the persistence store
    (the Supabase client and [models/message.saveMessage]) are external
    collaborators.  Their answers are collected in a [World]: for every
    call it says whether the call answers, answers with an error object,
    or rejects.  The store's rows and the log of external calls are the
    mutable [Machine] state threaded through a state-and-exception monad. *)

From Stdlib Require Import ZArith Ascii String.
From stdpp Require Import base tactics option list gmap strings sorting.

Local Open Scope string_scope.
Local Open Scope list_scope.
Local Open Scope Z_scope.

(** ** JavaScript built-ins *)

Module Js.

(** Exceptions that the modelled code can meet. *)
Inductive Exn :=
| TypeError      (* property access on null, e.g. [null.replace] *)
| RangeError     (* [toISOString] on an invalid date *)
| Rejected.      (* a promise of an external client rejected *)

(** [s.replace(pat, rep)] with a string pattern: only the first
    occurrence of [pat] is replaced.  The replacement strings used by
    the controller contain no [$] pattern. *)
Fixpoint replace (pat rep s : string) : string :=
  if String.prefix pat s
  then rep +:+ String.substring (String.length pat)
                               (String.length s - String.length pat) s
  else match s with
       | EmptyString => EmptyString
       | String c s' => String c (replace pat rep s')
       end.

(** [xs.find(p)] *)
Fixpoint find {A} (p : A → bool) (xs : list A) : option A :=
  match xs with
  | [] => None
  | x :: xs' => if p x then Some x else find p xs'
  end.

(** [xs.reduce(f)] without an initial value, on a non-empty array
    given as head and tail. *)
Definition reduce {A} (f : A → A → A) (x : A) (xs : list A) : A :=
  fold_left f xs x.

(** *** [new Date(ms).toISOString()] *)

Definition msPerDay : Z := 86400000.
Definition maxTimeValue : Z := 8640000000000000.

Definition digit (d : Z) : ascii := ascii_of_nat (48 + Z.to_nat d).

(** The [n] low decimal digits of [v], most significant first. *)
Fixpoint digits (n : nat) (v : Z) : string :=
  match n with
  | O => EmptyString
  | S n' => digits n' (v / 10) +:+ String (digit (v mod 10)) EmptyString
  end.

(** Civil date of a day number counted from 1970-01-01 (proleptic
    Gregorian calendar): year, month (1..12), day of month. *)
Definition civil_from_days (day : Z) : Z * Z * Z :=
  let z := day + 719468 in
  let era := z / 146097 in
  let doe := z mod 146097 in
  let yoe := (doe - doe / 1460 + doe / 36524 - doe / 146096) / 365 in
  let doy := doe - (365 * yoe + yoe / 4 - yoe / 100) in
  let mp := (5 * doy + 2) / 153 in
  let d := doy - (153 * mp + 2) / 5 + 1 in
  let m := if mp <? 10 then mp + 3 else mp - 9 in
  let y := yoe + era * 400 + (if m <=? 2 then 1 else 0) in
  (y, m, d).

Definition year_string (y : Z) : string :=
  if (0 <=? y) && (y <=? 9999) then digits 4 y
  else (if y <? 0 then "-" else "+") +:+ digits 6 (Z.abs y).

(** [None] stands for the [RangeError] raised on an invalid date. *)
Definition toISOString (ms : Z) : option string :=
  if Z.abs ms <=? maxTimeValue then
    let '(y, m, d) := civil_from_days (ms / msPerDay) in
    let t := ms mod msPerDay in
    Some (year_string y +:+ "-" +:+ digits 2 m +:+ "-" +:+ digits 2 d +:+ "T"
          +:+ digits 2 (t / 3600000) +:+ ":" +:+ digits 2 (t / 60000 mod 60)
          +:+ ":" +:+ digits 2 (t / 1000 mod 60) +:+ "." +:+ digits 3 (t mod 1000)
          +:+ "Z")
  else None.

End Js.

(** ** Data model *)

(** A row of the [conversations] table.  Nullable columns are options;
    [phone_number] is read with [.replace], which raises on [null]. *)
Module Conversation.
Record t := mk {
  id : string;
  phone_number : option string;
  chat_id : option string;
  vehicle_id : option string;
  user_id : option string;
  last_message_at : option string
}.
End Conversation.

(** A row of the [messages] table (the store-generated key is left out). *)
Module MessageRow.
Record t := mk {
  conversation_id : string;
  body : string;
  is_from_me : bool;
  message_id : string;
  timestamp : string;
  user_id : option string
}.
End MessageRow.

(** A message as the messaging session hands it over:
    [msg.id._serialized], [msg.body], [msg.fromMe] and [msg.timestamp]
    (seconds since the epoch). *)
Module Msg.
Record t := mk {
  id_serialized : string;
  body : string;
  fromMe : bool;
  timestamp : Z
}.
End Msg.

(** A live chat of the messaging session, known by [chat.id._serialized]. *)
Module Chat.
Record t := mk { id_serialized : string }.
End Chat.

Record Store := mkStore {
  conversations : list Conversation.t;
  messages : list MessageRow.t
}.

(** What a Supabase query resolves to: [{ data, error }]. *)
Record QueryResult (A : Type) := mkQuery {
  data : option A;
  error : bool
}.
Arguments mkQuery {A} _ _.
Arguments data {A} _.
Arguments error {A} _.

(** ** External calls and their answers *)

(** Every external call is logged when it is issued. *)
Inductive Event :=
| SelectConversation (conversationId : string)
| SelectConversationsPage
| SelectMessageIds (conversationId : string)
| GetChats
| FetchMessages (chat : string) (limit : Z)
| SaveMessage (row : MessageRow.t)
| UpdateLastMessageAt (conversationId : string) (last_message_at : string).

Definition is_session_read (e : Event) : bool :=
  match e with
  | GetChats | FetchMessages _ _ => true
  | _ => false
  end.

Definition is_store_write (e : Event) : bool :=
  match e with
  | SaveMessage _ | UpdateLastMessageAt _ _ => true
  | _ => false
  end.

Inductive Outcome (A : Type) :=
| Returned (a : A)
| Thrown (e : Js.Exn).
Arguments Returned {A} _.
Arguments Thrown {A} _.

(** How a store query behaves: it answers with data, answers with an
    error object and no data, or its promise rejects. *)
Inductive Fault := NoFault | ReturnsError | Throws.

#[global] Instance Fault_eq_dec : EqDecision Fault.
Proof. solve_decision. Defined.

(** How [saveMessage] behaves: it resolves to the saved row, resolves to
    [null], or rejects. *)
Inductive SaveAnswer := SaveReturnsRow | SaveReturnsNull | SaveThrows.

#[global] Instance SaveAnswer_eq_dec : EqDecision SaveAnswer.
Proof. solve_decision. Defined.

Record World := mkWorld {
  (* messaging session *)
  client_connected : bool;       (* [whatsappClient && whatsappClient.info] *)
  chats_answer : Outcome (list Chat.t);
  messages_answer : string → Z → Outcome (list Msg.t);
  (* persistence store *)
  conversation_fault : string → Fault;
  page_fault : Fault;
  message_ids_fault : string → Fault;
  update_fault : string → Fault;
  save_answer : string → string → SaveAnswer
}.

(** ** State and exceptions *)

Record Machine := mkMachine {
  store : Store;
  trace : list Event
}.

Definition M (S A : Type) : Type := S → Outcome A * S.

Definition ret {S A} (a : A) : M S A := λ s, (Returned a, s).

Definition throw {S A} (e : Js.Exn) : M S A := λ s, (Thrown e, s).

Definition bind {S A B} (m : M S A) (k : A → M S B) : M S B :=
  λ s, match m s with
       | (Returned a, s') => k a s'
       | (Thrown e, s') => (Thrown e, s')
       end.

(** [try { m } catch (e) { h e }] *)
Definition try_catch {S A} (m : M S A) (h : Js.Exn → M S A) : M S A :=
  λ s, match m s with
       | (Returned a, s') => (Returned a, s')
       | (Thrown e, s') => h e s'
       end.

Definition gets {S A} (f : S → A) : M S A := λ s, (Returned (f s), s).

Definition modify {S} (f : S → S) : M S unit := λ s, (Returned tt, f s).

Notation "x <- m ;; k" := (bind m (λ x, k))
  (at level 100, m at next level, right associativity).
Notation "m ;; k" := (bind m (λ _, k))
  (at level 100, right associativity).

Definition emit (e : Event) : M Machine unit :=
  modify (λ s, mkMachine (store s) (trace s ++ [e])).

Definition await {S A} (o : Outcome A) : M S A := λ s, (o, s).

(** [new Date(seconds * 1000).toISOString()] *)
Definition date_toISOString {S} (seconds : Z) : M S string :=
  match Js.toISOString (seconds * 1000) with
  | Some iso => ret iso
  | None => throw Js.RangeError
  end.

(** ** The messaging session *)

Definition getChats (w : World) : M Machine (list Chat.t) :=
  emit GetChats ;; await (chats_answer w).

Definition fetchMessages (w : World) (chat : Chat.t) (limit : Z)
  : M Machine (list Msg.t) :=
  emit (FetchMessages (Chat.id_serialized chat) limit) ;;
  await (messages_answer w (Chat.id_serialized chat) limit).

(** ** The persistence store *)

(** [.single()]: exactly one row, or an error. *)
Definition single {A} (rows : list A) : QueryResult A :=
  match rows with
  | [r] => mkQuery (Some r) false
  | _ => mkQuery None true
  end.

Definition rows_of_conversation (st : Store) (conversationId : string)
  : list MessageRow.t :=
  filter (λ r, MessageRow.conversation_id r = conversationId) (messages st).

(** The identifiers stored under a conversation. *)
Definition stored_ids (st : Store) (conversationId : string) : list string :=
  MessageRow.message_id <$> rows_of_conversation st conversationId.

(** [from('conversations').select('*').eq('id', conversationId).single()] *)
Definition select_conversation (w : World) (conversationId : string)
  : M Machine (QueryResult Conversation.t) :=
  emit (SelectConversation conversationId) ;;
  match conversation_fault w conversationId with
  | Throws => throw Js.Rejected
  | ReturnsError => ret (mkQuery None true)
  | NoFault =>
      gets (λ s, single (filter (λ c, Conversation.id c = conversationId)
                                (conversations (store s))))
  end.

(** [ORDER BY last_message_at DESC]: rows without a date come first, as
    PostgreSQL orders them; rows with equal dates keep their order. *)
Definition later_or_equal (a b : Conversation.t) : bool :=
  match Conversation.last_message_at a, Conversation.last_message_at b with
  | None, _ => true
  | Some _, None => false
  | Some x, Some y => String.leb y x
  end.

Fixpoint insert_desc (c : Conversation.t) (sorted : list Conversation.t)
  : list Conversation.t :=
  match sorted with
  | [] => [c]
  | d :: rest =>
      if later_or_equal d c then d :: insert_desc c rest else c :: d :: rest
  end.

Definition order_desc (cs : list Conversation.t) : list Conversation.t :=
  fold_left (λ sorted c, insert_desc c sorted) cs [].

(** [from('conversations').select('*')
      .order('last_message_at', { ascending: false }).limit(200)] *)
Definition select_conversations_page (w : World)
  : M Machine (QueryResult (list Conversation.t)) :=
  emit SelectConversationsPage ;;
  match page_fault w with
  | Throws => throw Js.Rejected
  | ReturnsError => ret (mkQuery None true)
  | NoFault =>
      gets (λ s, mkQuery (Some (take 200 (order_desc (conversations (store s)))))
                         false)
  end.

(** [from('messages').select('message_id').eq('conversation_id', id)] *)
Definition select_message_ids (w : World) (conversationId : string)
  : M Machine (QueryResult (list string)) :=
  emit (SelectMessageIds conversationId) ;;
  match message_ids_fault w conversationId with
  | Throws => throw Js.Rejected
  | ReturnsError => ret (mkQuery None true)
  | NoFault => gets (λ s, mkQuery (Some (stored_ids (store s) conversationId)) false)
  end.

Definition with_last_message_at (iso : string) (c : Conversation.t)
  : Conversation.t :=
  Conversation.mk (Conversation.id c) (Conversation.phone_number c)
                  (Conversation.chat_id c) (Conversation.vehicle_id c)
                  (Conversation.user_id c) (Some iso).

Definition set_last_message_at (conversationId iso : string) (st : Store)
  : Store :=
  mkStore
    ((λ c, if decide (Conversation.id c = conversationId)
           then with_last_message_at iso c else c) <$> conversations st)
    (messages st).

(** [from('conversations').update({ last_message_at }).eq('id', id)];
    the controller does not look at what the call resolves to. *)
Definition update_last_message_at (w : World) (conversationId iso : string)
  : M Machine unit :=
  emit (UpdateLastMessageAt conversationId iso) ;;
  match update_fault w conversationId with
  | Throws => throw Js.Rejected
  | ReturnsError => ret tt
  | NoFault =>
      modify (λ s, mkMachine (set_last_message_at conversationId iso (store s))
                             (trace s))
  end.

Definition insert_message (row : MessageRow.t) (st : Store) : Store :=
  mkStore (conversations st) (messages st ++ [row]).

(** Modelled from the spec: [models/message.saveMessage], which the
    controller imports and whose body is missing.  The controller passes
    it the conversation
    identifier, body, direction flag, external identifier, timestamp and
    user; it tests the result for truthiness and guards the call with
    [try]/[catch].  The spec describes it as persisting one message row.
    It is modelled as a plain insert of one row when it succeeds (no
    uniqueness check of its own), and as leaving the store alone when it
    resolves to [null] or rejects. *)
Definition saveMessage (w : World) (conversationId body : string)
    (isFromMe : bool) (messageId timestamp : string) (userId : option string)
  : M Machine (option MessageRow.t) :=
  let row := MessageRow.mk conversationId body isFromMe messageId timestamp userId in
  emit (SaveMessage row) ;;
  match save_answer w conversationId messageId with
  | SaveThrows => throw Js.Rejected
  | SaveReturnsNull => ret None
  | SaveReturnsRow =>
      modify (λ s, mkMachine (insert_message row (store s)) (trace s)) ;;
      ret (Some row)
  end.

(** ** The controller *)

(** One entry of [syncResults]. *)
Record SyncEntry := mkEntry {
  entry_conversationId : string;
  entry_phoneNumber : option string;
  entry_newMessages : nat
}.

(** What the handlers answer. *)
Inductive Response :=
| SessionUnavailable                     (* 503, client not connected *)
| NotFound                               (* 404, conversation not found *)
| ChatNotFound                           (* 404, no chat for the conversation *)
| DatabaseError                          (* 500, page of conversations *)
| ServerError (details : Js.Exn)         (* 500, from the outer [catch] *)
| SyncResult (conversationId : string)
    (totalMessages newMessagesSaved skippedMessages : nat)
| BulkSyncResult (totalNewMessages conversationsSynced
                  totalConversationsChecked : nat)
    (syncResults : list SyncEntry).

Definition status (r : Response) : Z :=
  match r with
  | SessionUnavailable => 503
  | NotFound | ChatNotFound => 404
  | DatabaseError | ServerError _ => 500
  | SyncResult _ _ _ _ | BulkSyncResult _ _ _ _ => 200
  end.

(** [chatNumber === conversationNumber], both sides after
    [.replace('@c.us', '')]. *)
Definition same_number (phone_number : string) (chat : Chat.t) : bool :=
  String.eqb (Js.replace "@c.us" "" (Chat.id_serialized chat))
             (Js.replace "@c.us" "" phone_number).

(** [chats.find(chat => ...)].  The callback reads
    [conversation.phone_number.replace], so it raises on the first chat
    when the phone number is [null]; on an empty chat list it never runs. *)
Definition target_chat (chats : list Chat.t) (conversation : Conversation.t)
  : Outcome (option Chat.t) :=
  match chats with
  | [] => Returned None
  | _ :: _ =>
      match Conversation.phone_number conversation with
      | None => Thrown Js.TypeError
      | Some phone_number => Returned (Js.find (same_number phone_number) chats)
      end
  end.

Definition find_target_chat {S} (chats : list Chat.t)
    (conversation : Conversation.t) : M S (option Chat.t) :=
  await (target_chat chats conversation).

(** [new Set(existingMessages?.map(m => m.message_id) || [])] *)
Definition existing_ids (existingMessages : QueryResult (list string))
  : gset string :=
  list_to_set (default [] (data existingMessages)).

(** [(latest, msg) => msg.timestamp > latest.timestamp ? msg : latest] *)
Definition later (latest msg : Msg.t) : Msg.t :=
  if Msg.timestamp latest <? Msg.timestamp msg then msg else latest.

(** The row that the controller asks [saveMessage] to persist. *)
Definition row_of (conversationId : string) (userId : option string)
    (msg : Msg.t) (iso : string) : MessageRow.t :=
  MessageRow.mk conversationId (Msg.body msg) (Msg.fromMe msg)
                (Msg.id_serialized msg) iso userId.

(** *** Single-conversation sync *)

(** The [for (const msg of messages)] loop of [syncConversationHistory],
    with its two counters. *)
Fixpoint save_new_messages (w : World) (conversationId : string)
    (userId : option string) (existingMessageIds : gset string)
    (messages : list Msg.t) (newMessagesSaved skippedMessages : nat)
  : M Machine (nat * nat) :=
  match messages with
  | [] => ret (newMessagesSaved, skippedMessages)
  | msg :: rest =>
      let messageId := Msg.id_serialized msg in
      if decide (messageId ∈ existingMessageIds) then
        save_new_messages w conversationId userId existingMessageIds rest
                          newMessagesSaved (S skippedMessages)
      else
        saved <- try_catch
                   (iso <- date_toISOString (Msg.timestamp msg) ;;
                    savedMessage <- saveMessage w conversationId (Msg.body msg)
                                      (Msg.fromMe msg) messageId iso userId ;;
                    ret (bool_decide (is_Some savedMessage)))
                   (λ _, ret false) ;;
        save_new_messages w conversationId userId existingMessageIds rest
                          (if saved : bool then S newMessagesSaved
                           else newMessagesSaved)
                          skippedMessages
  end.

(** [if (messages.length > 0) { ... update last_message_at ... }] *)
Definition touch_conversation (w : World) (conversationId : string)
    (messages : list Msg.t) : M Machine unit :=
  match messages with
  | [] => ret tt
  | first :: others =>
      let latestMessage := Js.reduce later first others in
      iso <- date_toISOString (Msg.timestamp latestMessage) ;;
      update_last_message_at w conversationId iso
  end.

Definition syncConversationHistory_try (w : World) (conversationId : string)
  : M Machine Response :=
  if negb (client_connected w) then ret SessionUnavailable else
  found <- select_conversation w conversationId ;;
  match data found, error found with
  | Some conversation, false =>
      chats <- getChats w ;;
      targetChat <- find_target_chat chats conversation ;;
      match targetChat with
      | None => ret ChatNotFound
      | Some targetChat =>
          messages <- fetchMessages w targetChat 999999 ;;
          existingMessages <- select_message_ids w conversationId ;;
          let existingMessageIds := existing_ids existingMessages in
          counts <- save_new_messages w conversationId
                      (Conversation.user_id conversation) existingMessageIds
                      messages 0 0 ;;
          touch_conversation w conversationId messages ;;
          ret (SyncResult conversationId (length messages) (fst counts) (snd counts))
      end
  | _, _ => ret NotFound
  end.

Definition syncConversationHistory (w : World) (conversationId : string)
  : M Machine Response :=
  try_catch (syncConversationHistory_try w conversationId)
            (λ error, ret (ServerError error)).

(** *** Bulk sync *)

(** The handler's mutable locals live next to the machine, so that what
    was counted before an exception stays counted. *)
Record BulkState := mkBulk {
  machine : Machine;
  totalNewMessages : nat;
  conversationsSynced : nat;
  syncResults : list SyncEntry
}.

(** Run a store or session call inside the bulk handler. *)
Definition zoom {A} (m : M Machine A) : M BulkState A :=
  λ b, let '(o, s) := m (machine b) in
       (o, mkBulk s (totalNewMessages b) (conversationsSynced b) (syncResults b)).

(** [totalNewMessages++] *)
Definition count_new_message : M BulkState unit :=
  modify (λ b, mkBulk (machine b) (S (totalNewMessages b))
                      (conversationsSynced b) (syncResults b)).

(** [conversationsSynced++; syncResults.push({ ... })] *)
Definition push_result (entry : SyncEntry) : M BulkState unit :=
  modify (λ b, mkBulk (machine b) (totalNewMessages b)
                      (S (conversationsSynced b)) (syncResults b ++ [entry])).

(** The inner [for (const msg of messages)] loop of
    [syncAllConversationsHistory]. *)
Fixpoint save_new_messages_bulk (w : World) (conversationId : string)
    (userId : option string) (existingMessageIds : gset string)
    (messages : list Msg.t) (newMessagesForThisConv : nat)
  : M BulkState nat :=
  match messages with
  | [] => ret newMessagesForThisConv
  | msg :: rest =>
      let messageId := Msg.id_serialized msg in
      if decide (messageId ∈ existingMessageIds) then
        save_new_messages_bulk w conversationId userId existingMessageIds rest
                               newMessagesForThisConv
      else
        saved <- try_catch
                   (iso <- date_toISOString (Msg.timestamp msg) ;;
                    savedMessage <- zoom (saveMessage w conversationId
                                            (Msg.body msg) (Msg.fromMe msg)
                                            messageId iso userId) ;;
                    if bool_decide (is_Some savedMessage)
                    then count_new_message ;; ret true
                    else ret false)
                   (λ _, ret false) ;;
        save_new_messages_bulk w conversationId userId existingMessageIds rest
                               (if saved : bool then S newMessagesForThisConv
                                else newMessagesForThisConv)
  end.

(** The body of the [try] inside the loop over the conversations. *)
Definition sync_one_of_all_try (w : World) (chats : list Chat.t)
    (conversation : Conversation.t) : M BulkState unit :=
  targetChat <- find_target_chat chats conversation ;;
  match targetChat with
  | None => ret tt                                          (* [continue] *)
  | Some targetChat =>
      messages <- zoom (fetchMessages w targetChat 100) ;;
      existingMessages <-
        zoom (select_message_ids w (Conversation.id conversation)) ;;
      let existingMessageIds := existing_ids existingMessages in
      newMessagesForThisConv <-
        save_new_messages_bulk w (Conversation.id conversation)
          (Conversation.user_id conversation) existingMessageIds messages 0 ;;
      zoom (touch_conversation w (Conversation.id conversation) messages) ;;
      if decide (0 < newMessagesForThisConv)%nat
      then push_result (mkEntry (Conversation.id conversation)
                                (Conversation.phone_number conversation)
                                newMessagesForThisConv)
      else ret tt
  end.

(** One turn of the loop: the [try] with its [catch], which only logs. *)
Definition sync_one_of_all (w : World) (chats : list Chat.t)
    (conversation : Conversation.t) : M BulkState unit :=
  try_catch (sync_one_of_all_try w chats conversation) (λ _, ret tt).

(** [for (const conversation of conversations) { try { ... } catch { } }] *)
Fixpoint sync_each (w : World) (chats : list Chat.t)
    (conversations : list Conversation.t) : M BulkState unit :=
  match conversations with
  | [] => ret tt
  | conversation :: rest =>
      sync_one_of_all w chats conversation ;; sync_each w chats rest
  end.

Definition syncAllConversationsHistory_try (w : World) : M BulkState Response :=
  if negb (client_connected w) then ret SessionUnavailable else
  page <- zoom (select_conversations_page w) ;;
  if error page then ret DatabaseError else
  match data page with
  | None => throw Js.TypeError             (* [conversations.length] on null *)
  | Some conversations =>
      chats <- zoom (getChats w) ;;
      sync_each w chats conversations ;;
      b <- gets (λ b, b) ;;
      ret (BulkSyncResult (totalNewMessages b) (conversationsSynced b)
                          (length conversations) (syncResults b))
  end.

Definition syncAllConversationsHistory (w : World) : M BulkState Response :=
  try_catch (syncAllConversationsHistory_try w)
            (λ error, ret (ServerError error)).

(** *** Running a handler *)

Definition sync_one (w : World) (conversationId : string) (s : Machine)
  : Response * Machine :=
  match syncConversationHistory w conversationId s with
  | (Returned r, s') => (r, s')
  | (Thrown e, s') => (ServerError e, s')
  end.

Definition sync_all (w : World) (s : Machine) : Response * Machine :=
  match syncAllConversationsHistory w (mkBulk s 0 0 []) with
  | (Returned r, b) => (r, machine b)
  | (Thrown e, b) => (ServerError e, machine b)
  end.

(** The external calls issued between two machine states. *)
Definition calls_since (before after : Machine) : list Event :=
  drop (length (trace before)) (trace after).

(** ** What a pass reads and what it is about to write *)

(** The conversation row, live chat and batch that a single-conversation
    pass gets hold of, when it gets that far. *)
Definition fetched_batch (w : World) (s : Machine) (conversationId : string)
  : option (Conversation.t * Chat.t * list Msg.t) :=
  if client_connected w then
    match conversation_fault w conversationId,
          filter (λ c, Conversation.id c = conversationId)
                 (conversations (store s)),
          chats_answer w with
    | NoFault, [conversation], Returned chats =>
        match target_chat chats conversation with
        | Returned (Some chat) =>
            match messages_answer w (Chat.id_serialized chat) 999999 with
            | Returned messages => Some (conversation, chat, messages)
            | Thrown _ => None
            end
        | _ => None
        end
    | _, _, _ => None
    end
  else None.

(** The live chat and batch that one turn of the bulk loop gets hold of. *)
Definition fetched_batch_bulk (w : World) (chats : list Chat.t)
    (conversation : Conversation.t) : option (Chat.t * list Msg.t) :=
  match target_chat chats conversation with
  | Returned (Some chat) =>
      match messages_answer w (Chat.id_serialized chat) 100 with
      | Returned messages => Some (chat, messages)
      | Thrown _ => None
      end
  | _ => None
  end.

(** The page of conversations and the chat list of a bulk pass. *)
Definition bulk_inputs (w : World) (s : Machine)
  : option (list Conversation.t * list Chat.t) :=
  if client_connected w then
    match page_fault w, chats_answer w with
    | NoFault, Returned chats =>
        Some (take 200 (order_desc (conversations (store s))), chats)
    | _, _ => None
    end
  else None.

(** The set [existingMessageIds] that a pass works with. *)
Definition seen_ids (w : World) (st : Store) (conversationId : string)
  : gset string :=
  match message_ids_fault w conversationId with
  | NoFault => list_to_set (stored_ids st conversationId)
  | _ => ∅
  end.

(** The deduplication filter: the fetched messages whose identifier is
    not in the set, and those whose identifier is. *)
Definition unseen (existing : gset string) (messages : list Msg.t)
  : list Msg.t :=
  filter (λ m, Msg.id_serialized m ∉ existing) messages.

Definition duplicates (existing : gset string) (messages : list Msg.t)
  : list Msg.t :=
  filter (λ m, Msg.id_serialized m ∈ existing) messages.

(** The rows handed to [saveMessage]: one per unseen message whose
    timestamp converts. *)
Definition row_to_save (conversationId : string) (userId : option string)
    (msg : Msg.t) : option MessageRow.t :=
  row_of conversationId userId msg <$> Js.toISOString (Msg.timestamp msg * 1000).

Definition rows_to_save (conversationId : string) (userId : option string)
    (existing : gset string) (messages : list Msg.t) : list MessageRow.t :=
  omap (row_to_save conversationId userId) (unseen existing messages).

(** The rows among them that [saveMessage] reports as saved. *)
Definition rows_saved (w : World) (rows : list MessageRow.t)
  : list MessageRow.t :=
  filter (λ r, save_answer w (MessageRow.conversation_id r)
                             (MessageRow.message_id r) = SaveReturnsRow) rows.

(** The message picked by the [reduce] of a pass. *)
Definition latest_message (messages : list Msg.t) : option Msg.t :=
  match messages with
  | [] => None
  | first :: others => Some (Js.reduce later first others)
  end.

(** The calls issued for the timestamp update of a batch. *)
Definition touch_calls (conversationId : string) (messages : list Msg.t)
  : list Event :=
  match latest_message messages with
  | None => []
  | Some latest =>
      match Js.toISOString (Msg.timestamp latest * 1000) with
      | Some iso => [UpdateLastMessageAt conversationId iso]
      | None => []
      end
  end.

(** At most one row per (conversation, external identifier). *)
Definition row_key (r : MessageRow.t) : string * string :=
  (MessageRow.conversation_id r, MessageRow.message_id r).


(** The messaging session hands out each identifier once per batch. *)
Definition distinct_ids (w : World) : Prop :=
  ∀ chat limit messages,
    messages_answer w chat limit = Returned messages →
    NoDup (Msg.id_serialized <$> messages).

Definition is_save (e : Event) : bool :=
  match e with SaveMessage _ => true | _ => false end.

Definition is_update (e : Event) : bool :=
  match e with UpdateLastMessageAt _ _ => true | _ => false end.

(** Decimal digits, for phone numbers. *)
Definition is_digit (c : ascii) : bool :=
  (48 <=? nat_of_ascii c)%nat && (nat_of_ascii c <=? 57)%nat.

Fixpoint numeric (s : string) : bool :=
  match s with
  | EmptyString => true
  | String c s' => is_digit c && numeric s'
  end.

(** ** States and outcomes used in the statements *)

(** A machine after some rows were inserted and some calls logged. *)
Definition advance (s : Machine) (rows : list MessageRow.t)
    (calls : list Event) : Machine :=
  mkMachine (mkStore (conversations (store s)) (messages (store s) ++ rows))
            (trace s ++ calls).

(** What the timestamp update of a pass does to the store, and how it ends. *)
Definition touch_store (w : World) (conversationId : string)
    (messages : list Msg.t) (st : Store) : Store :=
  match touch_calls conversationId messages, update_fault w conversationId with
  | [UpdateLastMessageAt _ iso], NoFault =>
      set_last_message_at conversationId iso st
  | _, _ => st
  end.

Definition touch_outcome (w : World) (conversationId : string)
    (messages : list Msg.t) : Outcome unit :=
  match latest_message messages with
  | None => Returned tt
  | Some latest =>
      match Js.toISOString (Msg.timestamp latest * 1000) with
      | None => Thrown Js.RangeError
      | Some _ =>
          match update_fault w conversationId with
          | Throws => Thrown Js.Rejected
          | _ => Returned tt
          end
      end
  end.

Definition touch (w : World) (conversationId : string)
    (messages : list Msg.t) (s : Machine) : Machine :=
  mkMachine (touch_store w conversationId messages (store s))
            (trace s ++ touch_calls conversationId messages).

(** The calls of a single-conversation pass up to the identifier lookup. *)
Definition opening_calls (conversationId : string) (chat : Chat.t)
  : list Event :=
  [SelectConversation conversationId; GetChats;
   FetchMessages (Chat.id_serialized chat) 999999;
   SelectMessageIds conversationId].

(** The calls of one turn of the bulk loop up to the identifier lookup. *)
Definition opening_calls_bulk (conversationId : string) (chat : Chat.t)
  : list Event :=
  [FetchMessages (Chat.id_serialized chat) 100;
   SelectMessageIds conversationId].

(** The bulk state after one turn of the loop, and after a run of turns. *)
Definition turn (w : World) (chats : list Chat.t) (conversation : Conversation.t)
    (b : BulkState) : BulkState :=
  snd (sync_one_of_all w chats conversation b).

Definition turns (w : World) (chats : list Chat.t)
    (conversations : list Conversation.t) (b : BulkState) : BulkState :=
  fold_left (λ b c, turn w chats c b) conversations b.

(** A bulk state with another machine and total, same other counters. *)
Definition with_machine (b : BulkState) (s : Machine) (saved : nat) : BulkState :=
  mkBulk s (totalNewMessages b + saved) (conversationsSynced b) (syncResults b).

(** The state after a turn that got hold of its batch. *)
Definition after_turn (w : World) (conv : Conversation.t) (chat : Chat.t)
    (msgs : list Msg.t) (b : BulkState) : BulkState :=
  let cid := Conversation.id conv in
  let m1 := advance (machine b) [] (opening_calls_bulk cid chat) in
  match message_ids_fault w cid with
  | Throws => with_machine b m1 0
  | _ =>
      let ex := seen_ids w (store (machine b)) cid in
      let rows := rows_to_save cid (Conversation.user_id conv) ex msgs in
      let saved := rows_saved w rows in
      let m3 := touch w cid msgs (advance m1 saved (SaveMessage <$> rows)) in
      match touch_outcome w cid msgs with
      | Returned _ =>
          if decide (0 < length saved)%nat
          then mkBulk m3 (totalNewMessages b + length saved)
                      (S (conversationsSynced b))
                      (syncResults b
                       ++ [mkEntry cid (Conversation.phone_number conv)
                                   (length saved)])
          else with_machine b m3 (length saved)
      | Thrown _ => with_machine b m3 (length saved)
      end
  end.

(** How the [try] of such a turn ends. *)
Definition turn_outcome (w : World) (conv : Conversation.t)
    (msgs : list Msg.t) : Outcome unit :=
  match message_ids_fault w (Conversation.id conv) with
  | Throws => Thrown Js.Rejected
  | _ => touch_outcome w (Conversation.id conv) msgs
  end.

(** How the [try] of a turn ends when it does not get hold of a batch. *)
Definition early_outcome (w : World) (chats : list Chat.t)
    (conv : Conversation.t) : Outcome unit :=
  match target_chat chats conv with
  | Returned (Some chat) =>
      match messages_answer w (Chat.id_serialized chat) 100 with
      | Returned _ => Returned tt
      | Thrown e => Thrown e
      end
  | Returned None => Returned tt
  | Thrown e => Thrown e
  end.

(** The state after such a turn. *)
Definition after_early_turn (chats : list Chat.t) (conv : Conversation.t)
    (b : BulkState) : BulkState :=
  match target_chat chats conv with
  | Returned (Some chat) =>
      with_machine b
        (advance (machine b) [] [FetchMessages (Chat.id_serialized chat) 100]) 0
  | _ => b
  end.

(** ** A small session and store used in the examples *)

Module Demo.

Definition alice : Conversation.t :=
  Conversation.mk "c1" (Some "33612345678") None None (Some "u1") None.

Definition alice_chat : Chat.t := Chat.mk "33612345678@c.us".

Definition msg (id : string) (seconds : Z) : Msg.t :=
  Msg.mk id ("text " +:+ id) false seconds.

(** Three messages with timestamps 100, 200 and 150. *)
Definition batch : list Msg.t := [msg "a" 100; msg "b" 200; msg "c" 150].

Definition row (id iso : string) : MessageRow.t :=
  MessageRow.mk "c1" ("text " +:+ id) false id iso (Some "u1").

(** A connected session with two chats; every store call answers. *)
Definition world : World :=
  mkWorld true
    (Returned [Chat.mk "4915112345678@c.us"; alice_chat])
    (λ chat _, if String.eqb chat "33612345678@c.us"
               then Returned batch else Returned [])
    (λ _, NoFault) NoFault (λ _, NoFault) (λ _, NoFault)
    (λ _ _, SaveReturnsRow).


Definition with_update (f : Fault) (w : World) : World :=
  mkWorld (client_connected w) (chats_answer w) (messages_answer w)
          (conversation_fault w) (page_fault w) (message_ids_fault w)
          (λ _, f) (save_answer w).

Definition with_batch (messages : list Msg.t) (w : World) : World :=
  mkWorld (client_connected w) (chats_answer w)
          (λ chat _, if String.eqb chat "33612345678@c.us"
                     then Returned messages else Returned [])
          (conversation_fault w) (page_fault w) (message_ids_fault w)
          (update_fault w) (save_answer w).

Definition disconnected (w : World) : World :=
  mkWorld false (chats_answer w) (messages_answer w)
          (conversation_fault w) (page_fault w) (message_ids_fault w)
          (update_fault w) (save_answer w).

(** The store knows the conversation and none of its messages. *)
Definition fresh : Machine := mkMachine (mkStore [alice] []) [].

(** The store already holds message "a". *)
Definition with_a : Machine :=
  mkMachine (mkStore [alice] [row "a" "1970-01-01T00:01:40.000Z"]) [].

(** The store already holds messages "a" and "b". *)
Definition with_a_b : Machine :=
  mkMachine (mkStore [alice] [row "a" "1970-01-01T00:01:40.000Z";
                              row "b" "1970-01-01T00:03:20.000Z"]) [].

(** Five conversations.  The third has no phone number, so matching it
    against the chats raises; the second and the fourth match a chat
    without messages; the fifth has no live chat. *)
Definition five : list Conversation.t :=
  [alice;
   Conversation.mk "c2" (Some "4915112345678@c.us") None None None None;
   Conversation.mk "c3" None None None None None;
   Conversation.mk "c4" (Some "4915112345678") None None None None;
   Conversation.mk "c5" (Some "12025550100") None None None None].

Definition five_tracked : Machine := mkMachine (mkStore five []) [].

(** A batch whose second message carries a timestamp beyond the range
    of [Date]. *)
Definition batch_out_of_range : list Msg.t :=
  [msg "a" 100; msg "z" 8640000000001].

End Demo.

(** ** Further observations on the two sync handlers *)

(** The answer and the calls of a single-conversation pass that stops
    before the identifier lookup, that is, when [fetched_batch] is
    [None].  (When the messages are fetched the pass goes on, and the
    last branch below is not taken.) *)
Definition early_response (w : World) (s : Machine) (conversationId : string)
  : Response :=
  if client_connected w then
    match conversation_fault w conversationId with
    | Throws => ServerError Js.Rejected
    | ReturnsError => NotFound
    | NoFault =>
        match filter (λ c, Conversation.id c = conversationId)
                     (conversations (store s)) with
        | [conversation] =>
            match chats_answer w with
            | Thrown e => ServerError e
            | Returned chats =>
                match target_chat chats conversation with
                | Thrown e => ServerError e
                | Returned None => ChatNotFound
                | Returned (Some chat) =>
                    match messages_answer w (Chat.id_serialized chat) 999999 with
                    | Thrown e => ServerError e
                    | Returned _ => ServerError Js.Rejected
                    end
                end
            end
        | _ => NotFound
        end
    end
  else SessionUnavailable.

Definition early_calls (w : World) (s : Machine) (conversationId : string)
  : list Event :=
  if client_connected w then
    match conversation_fault w conversationId with
    | Throws | ReturnsError => [SelectConversation conversationId]
    | NoFault =>
        match filter (λ c, Conversation.id c = conversationId)
                     (conversations (store s)) with
        | [conversation] =>
            match chats_answer w with
            | Thrown e => [SelectConversation conversationId; GetChats]
            | Returned chats =>
                match target_chat chats conversation with
                | Returned (Some chat) =>
                    [SelectConversation conversationId; GetChats;
                     FetchMessages (Chat.id_serialized chat) 999999]
                | _ => [SelectConversation conversationId; GetChats]
                end
            end
        | _ => [SelectConversation conversationId]
        end
    end
  else [].

(** The same world with another behaviour of [saveMessage]. *)
Definition with_save_answer (f : string → string → SaveAnswer) (w : World)
  : World :=
  mkWorld (client_connected w) (chats_answer w) (messages_answer w)
          (conversation_fault w) (page_fault w) (message_ids_fault w)
          (update_fault w) f.

(** Two conversation rows that differ at most in [last_message_at]. *)
Definition same_but_date (c c' : Conversation.t) : Prop :=
  Conversation.id c' = Conversation.id c
  ∧ Conversation.phone_number c' = Conversation.phone_number c
  ∧ Conversation.chat_id c' = Conversation.chat_id c
  ∧ Conversation.vehicle_id c' = Conversation.vehicle_id c
  ∧ Conversation.user_id c' = Conversation.user_id c.

(** The conversation rows after a pass: the same rows in the same order,
    those of other conversations untouched. *)
Definition kept_but_dates (cid : string) (before after : list Conversation.t)
  : Prop :=
  Forall2 (λ c c', same_but_date c c' ∧ (Conversation.id c ≠ cid → c' = c))
          before after.

Definition is_fetch (e : Event) : bool :=
  match e with FetchMessages _ _ => true | _ => false end.

(** The calls that a turn of the bulk loop may issue. *)
Definition is_turn_call (e : Event) : bool :=
  match e with
  | FetchMessages _ limit => limit =? 100
  | SelectMessageIds _ | SaveMessage _ | UpdateLastMessageAt _ _ => true
  | _ => false
  end.

(** The answer and the calls of a bulk pass that stops before its loop,
    that is, when [bulk_inputs] is [None].  (When the chats are listed
    the pass goes on, and the last branch below is not taken.) *)
Definition bulk_early_response (w : World) : Response :=
  if client_connected w then
    match page_fault w with
    | Throws => ServerError Js.Rejected
    | ReturnsError => DatabaseError
    | NoFault =>
        match chats_answer w with
        | Thrown e => ServerError e
        | Returned _ => ServerError Js.Rejected
        end
    end
  else SessionUnavailable.

Definition bulk_early_calls (w : World) : list Event :=
  if client_connected w then
    match page_fault w with
    | NoFault => [SelectConversationsPage; GetChats]
    | _ => [SelectConversationsPage]
    end
  else [].

(** ** Contacted vehicles ([updateContactedVehicles]) *)

Module Contacted.

(** The longest run of decimal digits at the start of a string, and what
    follows it. *)
Fixpoint span_digits (s : string) : string * string :=
  match s with
  | EmptyString => (EmptyString, EmptyString)
  | String c s' =>
      if is_digit c
      then let '(ds, rest) := span_digits s' in (String c ds, rest)
      else (EmptyString, s)
  end.

(** [/(\d+)@c\.us/] tried at the start of the string: the digits are
    taken greedily; giving some back cannot help, since the character
    after a shorter run is a digit and not ["@"]. *)
Definition match_here (s : string) : option string :=
  let '(ds, rest) := span_digits s in
  match ds with
  | EmptyString => None
  | String _ _ => if String.prefix "@c.us" rest then Some ds else None
  end.

(** [chatId.match(/(\d+)@c\.us/)], reduced to what the handler reads:
    the first capture group of the leftmost match. *)
Fixpoint match_number (chatId : string) : option string :=
  match match_here chatId with
  | Some ds => Some ds
  | None =>
      match chatId with
      | EmptyString => None
      | String _ rest => match_number rest
      end
  end.

(** [contactedNumbers.add(phoneNumber)] on a [Set] that is later read
    with [Array.from]: insertion order, first occurrence kept. *)
Definition add (number : string) (numbers : list string) : list string :=
  if decide (number ∈ numbers) then numbers else numbers ++ [number].

(** The loop over the chats. *)
Definition contacted_numbers (chats : list Chat.t) : list string :=
  fold_left (λ numbers chat,
               match match_number (Chat.id_serialized chat) with
               | Some phoneNumber => add phoneNumber numbers
               | None => numbers
               end)
            chats [].

(** [phone.replace(/^33/, '0')] *)
Definition french_format (phone : string) : string :=
  if String.prefix "33" phone
  then "0" +:+ String.substring 2 (String.length phone - 2) phone
  else phone.

(** [[phone, `+${phone}`, phone.replace(/^33/, '0')]] *)
Definition formatted_numbers (phone : string) : list string :=
  [phone; "+" +:+ phone; french_format phone].

(** A row of the [vehicles] table, with the columns the controller
    names. *)
Record Vehicle := mkVehicle {
  vehicle_id : string;
  brand : string;
  model : string;
  phone : option string;
  contact_status : option string
}.

(** [needle] occurs in [hay]. *)
Fixpoint occurs (needle hay : string) : bool :=
  String.prefix needle hay
  || match hay with
     | EmptyString => false
     | String _ rest => occurs needle rest
     end.

(** [phone ILIKE '%number%'] for a pattern made of digits and ["+"]:
    the column is not null and the number occurs in it. *)
Definition ilike_contains (number : string) (v : Vehicle) : bool :=
  match phone v with
  | Some p => occurs number p
  | None => false
  end.

(** The row after [update({ contact_status: 'contacted' })]. *)
Definition marked (v : Vehicle) : Vehicle :=
  mkVehicle (vehicle_id v) (brand v) (model v) (phone v) (Some "contacted").

(** [update({ contact_status: 'contacted' })
      .filter('phone', 'ilike', `%${number}%`)] on the rows. *)
Definition mark_contacted (number : string) (vehicles : list Vehicle)
  : list Vehicle :=
  (λ v, if ilike_contains number v then marked v else v) <$> vehicles.

Inductive Call :=
| ListChats
| UpdateVehicles (number : string).

Record State := mkState {
  vehicles : list Vehicle;
  calls : list Call
}.

Inductive Answer :=
| Disconnected                                   (* 503 *)
| Failed (details : Js.Exn)                      (* 500 *)
| Updated (found : nat) (contactedNumbers : list string).

(** One of the update requests that [Promise.all] waits for.  The
    requests are issued in the order of the array; each one that the
    store carries out marks its rows. *)
Definition update_request (fault : string → Fault) (number : string)
    (st : State) : State :=
  mkState (match fault number with
           | NoFault => mark_contacted number (vehicles st)
           | _ => vehicles st
           end)
          (calls st ++ [UpdateVehicles number]).

(** The requests of the handler, carried out in the order [requests]. *)
Definition run_requests (fault : string → Fault) (requests : list string)
    (st : State) : State :=
  fold_left (λ st n, update_request fault n st) requests st.

(** [updateContactedVehicles]: the session is the one of the sync
    handlers; [fault] tells how the store treats the update for a given
    number.  [Promise.all] rejects as soon as one request rejects, which
    sends the handler to its [catch]; the other requests are carried out
    all the same. *)
Definition updateContactedVehicles (w : World) (fault : string → Fault)
    (st : State) : Answer * State :=
  if negb (client_connected w) then (Disconnected, st) else
  let st1 := mkState (vehicles st) (calls st ++ [ListChats]) in
  match chats_answer w with
  | Thrown e => (Failed e, st1)
  | Returned chats =>
      let contactedNumbers := contacted_numbers chats in
      let requests := contactedNumbers ≫= formatted_numbers in
      let st2 := run_requests fault requests st1 in
      if decide (Exists (λ n, fault n = Throws) requests)
      then (Failed Js.Rejected, st2)
      else (Updated (length contactedNumbers) contactedNumbers, st2)
  end.

(** The store carries the update for [number] out. *)
Definition carried_out (fault : string → Fault) (number : string) : bool :=
  match fault number with
  | NoFault => true
  | _ => false
  end.

(** One of the requests that are carried out names a number found in the
    phone column of [v]. *)
Definition reached_by (fault : string → Fault) (requests : list string)
    (v : Vehicle) : bool :=
  existsb (λ n, carried_out fault n && ilike_contains n v) requests.

(** The phone column of [v] holds one of the numbers, as extracted or in
    the French format. *)
Definition holds_number (numbers : list string) (v : Vehicle) : bool :=
  existsb (λ n, ilike_contains n v || ilike_contains (french_format n) v)
          numbers.

(** The requests sent to the store, in order. *)
Definition update_calls (cs : list Call) : list string :=
  omap (λ c, match c with
             | UpdateVehicles n => Some n
             | ListChats => None
             end) cs.

(** A chat list and a vehicle table for the examples. *)
Definition demo_chats : list Chat.t :=
  [Chat.mk "33612345678@c.us"; Chat.mk "1203630212@g.us";
   Chat.mk "4915112345@c.us"; Chat.mk "33612345678@c.us"].

Definition demo_vehicles : list Vehicle :=
  [mkVehicle "v1" "Renault" "Clio" (Some "06 12 34 56 78") None;
   mkVehicle "v2" "Peugeot" "208" (Some "0612345678") (Some "new");
   mkVehicle "v3" "Audi" "A3" (Some "+4915112345") None;
   mkVehicle "v4" "Fiat" "500" None (Some "new");
   mkVehicle "v5" "Seat" "Ibiza" (Some "0033612345678") (Some "contacted")].

Definition demo_world : World :=
  mkWorld true (Returned demo_chats) (λ _ _, Returned [])
          (λ _, NoFault) NoFault (λ _, NoFault) (λ _, NoFault)
          (λ _ _, SaveReturnsRow).

End Contacted.

(** ** Sending a message *)

Module Send.

(** The fields that the handler reads from [req.body]; a field that is
    missing or [null] is [None]. *)
Record Request := mkRequest {
  number : option string;
  message : option string;
  vehicleId : option string;
  userId : option string
}.

(** Truthiness of a value that is a string, [null] or [undefined]. *)
Definition truthy (v : option string) : bool :=
  match v with
  | Some s => negb (String.eqb s "")
  | None => false
  end.

(** [a || b] *)
Definition or_else (a b : option string) : option string :=
  if truthy a then a else b.

(** What the handler reads of a row of the [vehicles] table. *)
Record VehicleInfo := mkVehicleInfo {
  info_brand : string;
  info_model : string
}.

(** The object emitted as [new_message], without the two fields that are
    computed from the stored row ([id] and [timestamp]). *)
Record Payload := mkPayload {
  payload_message_id : string;
  payload_to : string;
  payload_body : string;
  payload_isFromMe : bool;
  payload_chatName : string;
  payload_chatId : string;
  payload_conversation_id : string;
  payload_vehicle : option VehicleInfo
}.

(** The collaborators of the handler besides the message store.

    Modelled from the spec: [models/conversation.findOrCreateConversation],
    whose body is missing.  The spec describes it as returning the
    conversation of a phone number or creating one, with the side effect
    that it may insert one conversation row.  It is left open here:
    [resolve] is any function of the conversation table that returns a
    conversation, [null] or an exception.

    [services/whatsapp.sendWhatsAppMessage] resolves to the sent message
    (known by [id._serialized]), to nothing, or rejects;
    [models/vehicle.updateVehicleContactStatus] resolves or rejects; the
    vehicle query resolves to a row, to no data, or rejects.  The two
    readings of the clock are [saved_at] and [touched_at], already in ISO
    form. *)
Record Services := mkServices {
  resolve : string → option string → option string → list Conversation.t
            → Outcome (option Conversation.t) * list Conversation.t;
  send_answer : string → string → Outcome (option string);
  status_rejects : string → bool;
  vehicle_answer : string → Outcome (option VehicleInfo);
  saved_at : string;
  touched_at : string
}.

(** Every call that leaves the handler, in order. *)
Inductive Step :=
| FindOrCreateConversation (number : string) (vehicleId userId : option string)
| SendWhatsAppMessage (number message : string)
    (vehicleId userId : option string)
| StoreCall (e : Event)
| UpdateVehicleContactStatus (vehicleId : string) (userId : option string)
| SelectVehicle (vehicleId : string)
| EmitNewMessage (payload : Payload).

Record Desk := mkDesk {
  desk_store : Store;
  steps : list Step
}.

Inductive Answer :=
| BadRequest                                     (* 400 *)
| CouldNotCreate                                 (* 500 *)
| Failed (details : Js.Exn)                      (* 500, from [catch] *)
| Sent (messageId conversationId : string).      (* 200 *)

Definition log (st : Step) : M Desk unit :=
  modify (λ d, mkDesk (desk_store d) (steps d ++ [st])).

(** A call of the message store, with the calls it logs. *)
Definition store_call {A} (m : M Machine A) : M Desk A :=
  λ d, let '(r, s') := m (mkMachine (desk_store d) []) in
       (r, mkDesk (store s') (steps d ++ (StoreCall <$> trace s'))).

Definition findOrCreateConversation (sv : Services) (number : string)
    (vehicleId userId : option string) : M Desk (option Conversation.t) :=
  log (FindOrCreateConversation number vehicleId userId) ;;
  λ d, let '(r, conversations') :=
         resolve sv number vehicleId userId (conversations (desk_store d)) in
       (r, mkDesk (mkStore conversations' (messages (desk_store d)))
                  (steps d)).

Definition sendWhatsAppMessage (sv : Services) (number message : string)
    (vehicleId userId : option string) : M Desk (option string) :=
  log (SendWhatsAppMessage number message vehicleId userId) ;;
  await (send_answer sv number message).

Definition updateVehicleContactStatus (sv : Services) (vehicleId : string)
    (userId : option string) : M Desk unit :=
  log (UpdateVehicleContactStatus vehicleId userId) ;;
  if status_rejects sv vehicleId then throw Js.Rejected else ret tt.

(** [from('vehicles').select(...).eq('id', id).single()], of which the
    handler reads [data]. *)
Definition select_vehicle (sv : Services) (vehicleId : string)
  : M Desk (option VehicleInfo) :=
  log (SelectVehicle vehicleId) ;;
  await (vehicle_answer sv vehicleId).

(** [vehicle ? `${vehicle.brand} ${vehicle.model}` : 'Unnamed Chat'] *)
Definition chat_name (vehicle : option VehicleInfo) : string :=
  match vehicle with
  | Some v => info_brand v +:+ " " +:+ info_model v
  | None => "Unnamed Chat"
  end.

Definition formatted_message (conversation : Conversation.t)
    (number message messageId : string) (vehicle : option VehicleInfo)
  : Payload :=
  mkPayload messageId number message true (chat_name vehicle)
            (default (Conversation.id conversation)
                     (or_else (Conversation.chat_id conversation) None))
            (Conversation.id conversation) vehicle.

(** The [else] branch taken when the message was stored. *)
Definition after_save (sv : Services) (w : World)
    (conversation : Conversation.t) (number message messageId : string)
    (user : option string) : M Desk unit :=
  store_call (update_last_message_at w (Conversation.id conversation)
                                     (touched_at sv)) ;;
  (match Conversation.vehicle_id conversation with
   | Some vehicle_id =>
       if truthy (Some vehicle_id)
       then updateVehicleContactStatus sv vehicle_id user
       else ret tt
   | None => ret tt
   end) ;;
  vehicle <- (match Conversation.vehicle_id conversation with
              | Some vehicle_id =>
                  if truthy (Some vehicle_id)
                  then select_vehicle sv vehicle_id
                  else ret None
              | None => ret None
              end) ;;
  log (EmitNewMessage
         (formatted_message conversation number message messageId vehicle)).

(** The body of the [try] block of [sendMessage]. *)
Definition sendMessage_try (sv : Services) (w : World) (req : Request)
  : M Desk Answer :=
  if negb (truthy (number req)) || negb (truthy (message req))
  then ret BadRequest
  else
    let number := default "" (number req) in
    let message := default "" (message req) in
    conversation <-
      findOrCreateConversation sv number (vehicleId req) (userId req) ;;
    match conversation with
    | None => ret CouldNotCreate
    | Some conversation =>
        sentMessage <-
          sendWhatsAppMessage sv number message (vehicleId req) (userId req) ;;
        (* [sentMessage.id._serialized], read while the arguments of
           [saveMessage] are evaluated *)
        messageId <- (match sentMessage with
                      | Some id => ret id
                      | None => throw Js.TypeError
                      end) ;;
        let user := or_else (userId req) (Conversation.user_id conversation) in
        savedMessage <-
          store_call (saveMessage w (Conversation.id conversation) message
                                  true messageId (saved_at sv) user) ;;
        (match savedMessage with
         | None => ret tt
         | Some _ =>
             after_save sv w conversation number message messageId user
         end) ;;
        ret (Sent messageId (Conversation.id conversation))
    end.

Definition sendMessage (sv : Services) (w : World) (req : Request)
    (d : Desk) : Answer * Desk :=
  match sendMessage_try sv w req d with
  | (Returned a, d') => (a, d')
  | (Thrown e, d') => (Failed e, d')
  end.

(** The calls made between two states. *)
Definition steps_since (before after : Desk) : list Step :=
  drop (length (steps before)) (steps after).

Definition is_send (st : Step) : bool :=
  match st with
  | SendWhatsAppMessage _ _ _ _ => true
  | _ => false
  end.

Definition is_emit (st : Step) : bool :=
  match st with
  | EmitNewMessage _ => true
  | _ => false
  end.

Definition is_store_call (st : Step) : bool :=
  match st with
  | StoreCall _ => true
  | _ => false
  end.

(** The row that the handler asks the store to save. *)
Definition outgoing_row (req : Request) (conversation : Conversation.t)
    (messageId saved_at : string) : MessageRow.t :=
  MessageRow.mk (Conversation.id conversation) (default "" (message req))
                true messageId saved_at
                (or_else (userId req) (Conversation.user_id conversation)).

(** What [findOrCreateConversation] answers in a given state. *)
Definition resolved (sv : Services) (req : Request) (d : Desk)
  : Outcome (option Conversation.t) :=
  fst (resolve sv (default "" (number req)) (vehicleId req) (userId req)
               (conversations (desk_store d))).

(** The state in which [findOrCreateConversation] leaves the handler. *)
Definition found (sv : Services) (req : Request) (d : Desk) : Desk :=
  mkDesk
    (mkStore (snd (resolve sv (default "" (number req)) (vehicleId req)
                           (userId req) (conversations (desk_store d))))
             (messages (desk_store d)))
    (steps d ++ [FindOrCreateConversation (default "" (number req))
                                          (vehicleId req) (userId req)]).

(** The call that hands the message to the session. *)
Definition send_step (req : Request) : Step :=
  SendWhatsAppMessage (default "" (number req)) (default "" (message req))
                      (vehicleId req) (userId req).

(** The state after further calls, with rows added to the messages. *)
Definition proceed (d : Desk) (rows : list MessageRow.t) (calls : list Step)
  : Desk :=
  mkDesk (mkStore (conversations (desk_store d))
                  (messages (desk_store d) ++ rows))
         (steps d ++ calls).

(** The outcome of a request that passes validation, case by case. *)
Inductive Course (sv : Services) (w : World) (req : Request) (d : Desk)
  : Answer → Desk → Prop :=
| NoConversation answer :
    match resolved sv req d with
    | Thrown e => answer = Failed e
    | Returned None => answer = CouldNotCreate
    | Returned (Some _) => False
    end →
    Course sv w req d answer (found sv req d)
| NotSent conversation answer :
    resolved sv req d = Returned (Some conversation) →
    match send_answer sv (default "" (number req))
                      (default "" (message req)) with
    | Thrown e => answer = Failed e
    | Returned None => answer = Failed Js.TypeError
    | Returned (Some _) => False
    end →
    Course sv w req d answer (proceed (found sv req d) [] [send_step req])
| NotStored conversation messageId answer :
    resolved sv req d = Returned (Some conversation) →
    send_answer sv (default "" (number req)) (default "" (message req))
    = Returned (Some messageId) →
    match save_answer w (Conversation.id conversation) messageId with
    | SaveThrows => answer = Failed Js.Rejected
    | SaveReturnsNull => answer = Sent messageId (Conversation.id conversation)
    | SaveReturnsRow => False
    end →
    Course sv w req d answer
      (proceed (found sv req d) []
         [send_step req;
          StoreCall (SaveMessage (outgoing_row req conversation messageId
                                               (saved_at sv)))])
| Stored conversation messageId o d' :
    resolved sv req d = Returned (Some conversation) →
    send_answer sv (default "" (number req)) (default "" (message req))
    = Returned (Some messageId) →
    save_answer w (Conversation.id conversation) messageId = SaveReturnsRow →
    after_save sv w conversation (default "" (number req))
      (default "" (message req)) messageId
      (or_else (userId req) (Conversation.user_id conversation))
      (proceed (found sv req d)
         [outgoing_row req conversation messageId (saved_at sv)]
         [send_step req;
          StoreCall (SaveMessage (outgoing_row req conversation messageId
                                               (saved_at sv)))])
    = (o, d') →
    Course sv w req d
      (match o with
       | Returned _ => Sent messageId (Conversation.id conversation)
       | Thrown e => Failed e
       end) d'.

(** The session as a machine of the sync handlers sees it. *)
Definition machine_of (d : Desk) : Machine := mkMachine (desk_store d) [].

(** Services for the examples: the conversation of a number is looked up
    by its phone number and never created. *)
Definition demo_services : Services :=
  mkServices
    (λ number _ _ conversations,
       (Returned (Js.find (λ c, bool_decide
                                  (Conversation.phone_number c = Some number))
                          conversations),
        conversations))
    (λ _ _, Returned (Some "out1"))
    (λ _, false)
    (λ _, Returned (Some (mkVehicleInfo "Renault" "Clio")))
    "2024-05-01T10:00:00.000Z" "2024-05-01T10:00:01.000Z".

Definition demo_request : Request :=
  mkRequest (Some "33612345678") (Some "hello") None None.

Definition demo_desk : Desk := mkDesk (mkStore [Demo.alice] []) [].

End Send.

(** ** Sorting an array *)

Module Arr.

(** [xs.sort(compare)] is stable, so with a comparator that orders the
    elements consistently its result is the one that inserting the
    elements from left to right gives, each after the elements it does
    not have to come before.  [before a b] stands for [compare(a, b) < 0]. *)
Fixpoint insert {A} (before : A → A → bool) (x : A) (sorted : list A)
  : list A :=
  match sorted with
  | [] => [x]
  | y :: rest =>
      if before x y then x :: y :: rest else y :: insert before x rest
  end.

Definition sort {A} (before : A → A → bool) (xs : list A) : list A :=
  fold_left (λ sorted x, insert before x sorted) xs [].

(** No element has to come before an earlier one. *)
Definition ordered {A} (before : A → A → bool) (xs : list A) : Prop :=
  StronglySorted (λ a b, before b a = false) xs.

(** A comparator that orders consistently: a strict weak order. *)
Record consistent {A} (before : A → A → bool) : Prop := mkConsistent {
  before_asym : ∀ a b, before a b = true → before b a = false;
  before_trans : ∀ a b c,
    before a b = true → before b c = true → before a c = true;
  before_apart : ∀ a b c,
    before a b = true → before a c = true ∨ before c b = true
}.

End Arr.

(** ** The message list of the selected conversation (front end) *)

Module Hook.

(** An [AppMessage], with the fields that [addIncomingMessage] reads.
    The timestamp is a number; [Number] is any type of numbers that
    [later_than] orders, which leaves [NaN] out. *)
Record AppMessage (Number : Type) := mkAppMessage {
  id : string;
  message_id : option string;
  conversation_id : option string;
  timestamp : Number;
  body : string
}.
Arguments mkAppMessage {Number} _ _ _ _ _.
Arguments id {Number} _.
Arguments message_id {Number} _.
Arguments conversation_id {Number} _.
Arguments timestamp {Number} _.
Arguments body {Number} _.

(** Truthiness of an optional string. *)
Definition truthy (v : option string) : bool :=
  match v with
  | Some s => negb (String.eqb s "")
  | None => false
  end.

(** [a === b] on optional strings ([undefined] is [None]). *)
Definition same (a b : option string) : bool :=
  bool_decide (a = b).

(** [m.id === message.id
     || (m.message_id && m.message_id === message.message_id)] *)
Definition duplicate_of {Number} (message m : AppMessage Number) : bool :=
  String.eqb (id m) (id message)
  || (truthy (message_id m) && same (message_id m) (message_id message)).

(** [(a, b) => a.timestamp - b.timestamp], negative when [a] is earlier. *)
Definition earlier {Number} (less : Number → Number → bool)
    (a b : AppMessage Number) : bool :=
  less (timestamp a) (timestamp b).

(** The function that [addIncomingMessage] passes to
    [setMessagesForSelectedChat]. *)
Definition add_message {Number} (less : Number → Number → bool)
    (message : AppMessage Number) (prev : list (AppMessage Number))
  : list (AppMessage Number) :=
  if existsb (duplicate_of message) prev
  then prev
  else Arr.sort (earlier less) (prev ++ [message]).

(** [addIncomingMessage]: [selected] is [selectedConversation?.id], the
    state is the list [messagesForSelectedChat]. *)
Definition addIncomingMessage {Number} (less : Number → Number → bool)
    (selected : option string) (message : AppMessage Number)
    (messagesForSelectedChat : list (AppMessage Number))
  : list (AppMessage Number) :=
  match selected with
  | Some selected_id =>
      if same (conversation_id message) (Some selected_id)
      then add_message less message messagesForSelectedChat
      else messagesForSelectedChat
  | None => messagesForSelectedChat
  end.

(** The [message_id]s that count in the duplicate test. *)
Definition message_ids {Number} (ms : list (AppMessage Number))
  : list string :=
  omap (λ m, if truthy (message_id m) then message_id m else None) ms.

(** No two messages of the list are duplicates of each other: their
    [id]s differ, and so do their [message_id]s where they have one. *)
Definition distinct {Number} (ms : list (AppMessage Number)) : Prop :=
  NoDup (id <$> ms) ∧ NoDup (message_ids ms).

Definition demo_messages : list (AppMessage Z) :=
  [mkAppMessage "m1" (Some "w1") (Some "c1") 100 "one";
   mkAppMessage "m2" (Some "w2") (Some "c1") 200 "two";
   mkAppMessage "m3" None (Some "c1") 200 "three";
   mkAppMessage "m4" (Some "w4") (Some "c1") 300 "four"].

End Hook.

(** ** Reading the chats of the session *)

Module Retrieval.

(** What the handlers read of [await chat.getContact()]. *)
Record Contact := mkContact {
  pushname : option string;
  number : option string;
  name : option string;
  isGroup : bool
}.

(** The collaborators besides the session of [World]: [chat.name] and
    [chat.isGroup] by chat identifier, [chat.getContact()], the update of
    the vehicle table for a number pattern, and
    [services/supabaseSync.saveConversationToSupabase], which resolves to
    a result with [messagesCreated], to nothing, or rejects. *)
Record Directory := mkDirectory {
  chat_name : string → option string;
  chat_isGroup : string → bool;
  contact_answer : string → Outcome Contact;
  vehicles_fault : string → Fault;
  saved_answer : string → Outcome (option nat)
}.

(** [a || b || ... || fallback] *)
Fixpoint first_truthy (vs : list (option string)) (fallback : string)
  : string :=
  match vs with
  | [] => fallback
  | v :: rest =>
      if Send.truthy v then default fallback v else first_truthy rest fallback
  end.

Record ContactInfo := mkContactInfo {
  info_number : option string;
  info_name : string;
  info_isGroup : bool
}.

(** A formatted message: the fields copied from the session's message
    ([id], [from], [to], [body], [timestamp], [isFromMe]) are kept as the
    message itself. *)
Record FormattedMessage := mkFormattedMessage {
  source : Msg.t;
  message_chatName : string;
  message_chatId : string;
  message_contact : ContactInfo
}.

Record FormattedConversation := mkFormattedConversation {
  chatId : string;
  chatName : string;
  contact : ContactInfo;
  messages : list FormattedMessage;
  messageCount : nat
}.

Inductive Call :=
| Session (e : Event)
| GetContact (chatId : string)
| UpdateVehicles (number : string)
| SaveConversation (conversation : FormattedConversation).

Record Board := mkBoard {
  vehicles : list Contacted.Vehicle;
  calls : list Call
}.

Inductive Response :=
| Disconnected                                          (* 503 *)
| Failed (details : Js.Exn)                             (* 500 *)
| Recent (allMessages : list FormattedMessage)          (* 200 *)
| All (conversations : list FormattedConversation)      (* 200 *)
    (totalConversations totalMessages : nat)
    (phoneNumbersUpdated : list string).

Definition log (c : Call) : M Board unit :=
  modify (λ b, mkBoard (vehicles b) (calls b ++ [c])).

(** [chat.name || contact.pushname || contact.number || 'Unnamed Chat'] *)
Definition chat_title (dir : Directory) (chat : Chat.t) (c : Contact)
  : string :=
  first_truthy [chat_name dir (Chat.id_serialized chat); pushname c; number c]
               "Unnamed Chat".

(** [contact.pushname || contact.name || ''] *)
Definition contact_title (c : Contact) : string :=
  first_truthy [pushname c; name c] "".

(** [messages.map(msg => ({ ... }))] *)
Definition format_messages (dir : Directory) (chat : Chat.t) (c : Contact)
    (msgs : list Msg.t) : list FormattedMessage :=
  (λ msg, mkFormattedMessage msg (chat_title dir chat c)
            (Chat.id_serialized chat)
            (mkContactInfo (number c) (contact_title c)
                           (chat_isGroup dir (Chat.id_serialized chat))))
    <$> msgs.

(** The conversation object of a chat; [group] is what the handler
    stores as [contact.isGroup]. *)
Definition format_conversation (dir : Directory) (chat : Chat.t) (c : Contact)
    (group : bool) (msgs : list Msg.t) : FormattedConversation :=
  mkFormattedConversation
    (Chat.id_serialized chat) (chat_title dir chat c)
    (mkContactInfo (number c) (contact_title c) group)
    (format_messages dir chat c msgs)
    (length (format_messages dir chat c msgs)).

(** [chat.getContact()] followed by [chat.fetchMessages({ limit })]. *)
Definition read_chat (w : World) (dir : Directory) (limit : Z) (chat : Chat.t)
  : M Board (Contact * list Msg.t) :=
  log (GetContact (Chat.id_serialized chat)) ;;
  c <- await (contact_answer dir (Chat.id_serialized chat)) ;;
  log (Session (FetchMessages (Chat.id_serialized chat) limit)) ;;
  msgs <- await (messages_answer w (Chat.id_serialized chat) limit) ;;
  ret (c, msgs).

(** One turn of the loop of [getRecentMessages]; the two arrays are the
    accumulator. *)
Definition recent_turn (w : World) (dir : Directory) (chat : Chat.t)
    (acc : list FormattedMessage * list FormattedConversation)
  : M Board (list FormattedMessage * list FormattedConversation) :=
  try_catch
    (r <- read_chat w dir 30 chat ;;
     let '(c, msgs) := r in
     ret (fst acc ++ format_messages dir chat c msgs,
          if negb (isGroup c)
          then snd acc ++ [format_conversation dir chat c (isGroup c) msgs]
          else snd acc))
    (λ _, ret acc).

Fixpoint recent_loop (w : World) (dir : Directory) (chats : list Chat.t)
    (acc : list FormattedMessage * list FormattedConversation)
  : M Board (list FormattedMessage * list FormattedConversation) :=
  match chats with
  | [] => ret acc
  | chat :: rest =>
      acc' <- recent_turn w dir chat acc ;; recent_loop w dir rest acc'
  end.

(** The loop that hands the conversations that are not groups to
    [saveConversationToSupabase]; its two counters are only logged. *)
Fixpoint save_loop (dir : Directory) (conversations : list FormattedConversation)
  : M Board unit :=
  match conversations with
  | [] => ret tt
  | conversation :: rest =>
      (if negb (info_isGroup (contact conversation))
       then log (SaveConversation conversation) ;;
            _ <- await (saved_answer dir (chatId conversation)) ;;
            ret tt
       else ret tt) ;;
      save_loop dir rest
  end.

(** [(a, b) => b.timestamp - a.timestamp], negative when [a] is later. *)
Definition later (a b : FormattedMessage) : bool :=
  Msg.timestamp (source b) <? Msg.timestamp (source a).

Definition getRecentMessages_try (w : World) (dir : Directory)
  : M Board Response :=
  if negb (client_connected w) then ret Disconnected else
  log (Session GetChats) ;;
  chats <- await (chats_answer w) ;;
  let chatLimit := (100 `min` length chats)%nat in
  arrays <- recent_loop w dir (take chatLimit chats) ([], []) ;;
  let '(allMessages, formattedConversations) := arrays in
  let allMessages := Arr.sort later allMessages in
  save_loop dir formattedConversations ;;
  ret (Recent allMessages).

Definition getRecentMessages (w : World) (dir : Directory) (b : Board)
  : Response * Board :=
  match getRecentMessages_try w dir b with
  | (Returned r, b') => (r, b')
  | (Thrown e, b') => (Failed e, b')
  end.

(** One turn of the loop of [getAllWhatsAppConversations]. *)
Definition all_turn (w : World) (dir : Directory) (chat : Chat.t)
    (allConversations : list FormattedConversation)
  : M Board (list FormattedConversation) :=
  try_catch
    (r <- read_chat w dir 999999 chat ;;
     let '(c, msgs) := r in
     ret (allConversations
            ++ [format_conversation dir chat c
                  (chat_isGroup dir (Chat.id_serialized chat)) msgs]))
    (λ _, ret allConversations).

Fixpoint all_loop (w : World) (dir : Directory) (chats : list Chat.t)
    (allConversations : list FormattedConversation)
  : M Board (list FormattedConversation) :=
  match chats with
  | [] => ret allConversations
  | chat :: rest =>
      acc' <- all_turn w dir chat allConversations ;; all_loop w dir rest acc'
  end.

(** [allConversations.forEach(conv => { if (...) phoneNumbers.add(...) })] *)
Definition phone_numbers (conversations : list FormattedConversation)
  : list string :=
  fold_left (λ numbers conv,
               match info_number (contact conv) with
               | Some n =>
                   if negb (info_isGroup (contact conv))
                      && Send.truthy (Some n)
                   then Contacted.add n numbers
                   else numbers
               | None => numbers
               end)
            conversations [].

(** One awaited update of the vehicle table; an error that the store
    returns is logged and the loop goes on. *)
Definition update_vehicles (dir : Directory) (formattedNumber : string)
  : M Board unit :=
  log (UpdateVehicles formattedNumber) ;;
  match vehicles_fault dir formattedNumber with
  | Throws => throw Js.Rejected
  | ReturnsError => ret tt
  | NoFault =>
      modify (λ b, mkBoard (Contacted.mark_contacted formattedNumber
                                                     (vehicles b))
                           (calls b))
  end.

Fixpoint update_formats (dir : Directory) (formattedNumbers : list string)
  : M Board unit :=
  match formattedNumbers with
  | [] => ret tt
  | n :: rest => update_vehicles dir n ;; update_formats dir rest
  end.

(** The loop over the phone numbers, with its [try]/[catch] per number. *)
Fixpoint update_loop (dir : Directory) (phoneNumbers : list string)
  : M Board unit :=
  match phoneNumbers with
  | [] => ret tt
  | phone :: rest =>
      try_catch (update_formats dir (Contacted.formatted_numbers phone))
                (λ _, ret tt) ;;
      update_loop dir rest
  end.

Definition getAllWhatsAppConversations_try (w : World) (dir : Directory)
  : M Board Response :=
  if negb (client_connected w) then ret Disconnected else
  log (Session GetChats) ;;
  chats <- await (chats_answer w) ;;
  allConversations <- all_loop w dir chats [] ;;
  let totalMessages :=
    fold_left (λ sum conv, (sum + messageCount conv)%nat) allConversations 0%nat
  in
  let phoneNumbers := phone_numbers allConversations in
  update_loop dir phoneNumbers ;;
  save_loop dir allConversations ;;
  ret (All allConversations (length allConversations) totalMessages
           phoneNumbers).

Definition getAllWhatsAppConversations (w : World) (dir : Directory)
    (b : Board) : Response * Board :=
  match getAllWhatsAppConversations_try w dir b with
  | (Returned r, b') => (r, b')
  | (Thrown e, b') => (Failed e, b')
  end.

(** *** What the handlers read *)

(** The contact and the messages of a chat, when both are answered. *)
Definition readable (w : World) (dir : Directory) (limit : Z) (chat : Chat.t)
  : option (Contact * list Msg.t) :=
  match contact_answer dir (Chat.id_serialized chat),
        messages_answer w (Chat.id_serialized chat) limit with
  | Returned c, Returned msgs => Some (c, msgs)
  | _, _ => None
  end.

(** The calls that reading a chat takes. *)
Definition read_calls (dir : Directory) (limit : Z) (chat : Chat.t)
  : list Call :=
  GetContact (Chat.id_serialized chat)
  :: match contact_answer dir (Chat.id_serialized chat) with
     | Returned _ => [Session (FetchMessages (Chat.id_serialized chat) limit)]
     | Thrown _ => []
     end.

(** The formatted messages of the chats that could be read. *)
Definition recent_messages (w : World) (dir : Directory) (chats : list Chat.t)
  : list FormattedMessage :=
  mjoin (omap (λ chat, '(c, msgs) ← readable w dir 30 chat;
                       Some (format_messages dir chat c msgs)) chats).

Definition recent_conversations (w : World) (dir : Directory)
    (chats : list Chat.t) : list FormattedConversation :=
  omap (λ chat, '(c, msgs) ← readable w dir 30 chat;
                if isGroup c then None
                else Some (format_conversation dir chat c (isGroup c) msgs))
       chats.

Definition all_conversations (w : World) (dir : Directory)
    (chats : list Chat.t) : list FormattedConversation :=
  omap (λ chat, '(c, msgs) ← readable w dir 999999 chat;
                Some (format_conversation dir chat c
                        (chat_isGroup dir (Chat.id_serialized chat)) msgs))
       chats.

(** The conversations handed to [saveConversationToSupabase], up to the
    first for which it rejects. *)
Fixpoint save_calls (dir : Directory) (conversations : list FormattedConversation)
  : list Call :=
  match conversations with
  | [] => []
  | conversation :: rest =>
      if negb (info_isGroup (contact conversation))
      then SaveConversation conversation
           :: match saved_answer dir (chatId conversation) with
              | Returned _ => save_calls dir rest
              | Thrown _ => []
              end
      else save_calls dir rest
  end.

(** The first rejection among them, if any. *)
Fixpoint save_failure (dir : Directory)
    (conversations : list FormattedConversation) : option Js.Exn :=
  match conversations with
  | [] => None
  | conversation :: rest =>
      if negb (info_isGroup (contact conversation))
      then match saved_answer dir (chatId conversation) with
           | Returned _ => save_failure dir rest
           | Thrown e => Some e
           end
      else save_failure dir rest
  end.

(** The patterns tried for a phone number: its formats up to the first
    that the store rejects. *)
Fixpoint attempted (dir : Directory) (formattedNumbers : list string)
  : list string :=
  match formattedNumbers with
  | [] => []
  | n :: rest =>
      n :: match vehicles_fault dir n with
           | Throws => []
           | _ => attempted dir rest
           end
  end.

(** The patterns tried for the phone numbers, in order. *)
Definition tried (dir : Directory) (phoneNumbers : list string)
  : list string :=
  phoneNumbers ≫= (λ phone, attempted dir (Contacted.formatted_numbers phone)).

(** The vehicle table after the requests [requests]. *)
Definition vehicles_after (dir : Directory) (requests : list string)
    (vehicles : list Contacted.Vehicle) : list Contacted.Vehicle :=
  Contacted.vehicles
    (Contacted.run_requests (vehicles_fault dir) requests
                            (Contacted.mkState vehicles [])).

Definition is_read (c : Call) : bool :=
  match c with
  | GetContact _ | Session (FetchMessages _ _) => true
  | _ => false
  end.

Definition is_fetch (c : Call) : bool :=
  match c with
  | Session (FetchMessages _ _) => true
  | _ => false
  end.

(** The patterns of the vehicle updates among the calls. *)
Definition updates (cs : list Call) : list string :=
  omap (λ c, match c with UpdateVehicles n => Some n | _ => None end) cs.

Definition calls_since (before after : Board) : list Call :=
  drop (length (calls before)) (calls after).

(** A session with three chats, the second of which is a group and the
    third of which has a contact that cannot be read. *)
Definition demo_directory : Directory :=
  mkDirectory
    (λ id, if String.eqb id "1203630212@g.us" then Some "Garage" else None)
    (λ id, String.eqb id "1203630212@g.us")
    (λ id, if String.eqb id "4915112345@c.us" then Thrown Js.Rejected
           else Returned
                  (mkContact (Some "Alice") (Some "33612345678") None
                             (String.eqb id "1203630212@g.us")))
    (λ _, NoFault)
    (λ _, Returned (Some 0%nat)).

Definition demo_world : World :=
  mkWorld true
    (Returned [Chat.mk "33612345678@c.us"; Chat.mk "1203630212@g.us";
               Chat.mk "4915112345@c.us"])
    (λ chat _, if String.eqb chat "33612345678@c.us"
               then Returned Demo.batch
               else Returned [Demo.msg "g" 150])
    (λ _, NoFault) NoFault (λ _, NoFault) (λ _, NoFault)
    (λ _ _, SaveReturnsRow).

Definition demo_board : Board := mkBoard Contacted.demo_vehicles [].

End Retrieval.

(** * Properties *)

(** ** The built-ins on known values *)

Example toISOString_epoch :
  Js.toISOString 0 = Some "1970-01-01T00:00:00.000Z".
Proof. reflexivity. Qed.

Example toISOString_200s :
  Js.toISOString (200 * 1000) = Some "1970-01-01T00:03:20.000Z".
Proof. reflexivity. Qed.

Example toISOString_2023 :
  Js.toISOString (1700000000 * 1000) = Some "2023-11-14T22:13:20.000Z".
Proof. reflexivity. Qed.

Example toISOString_leap_day :
  Js.toISOString (951782400 * 1000) = Some "2000-02-29T00:00:00.000Z".
Proof. reflexivity. Qed.

Example toISOString_before_epoch :
  Js.toISOString (-1000) = Some "1969-12-31T23:59:59.000Z".
Proof. reflexivity. Qed.

Example toISOString_last_instant :
  Js.toISOString 8640000000000000 = Some "+275760-09-13T00:00:00.000Z".
Proof. reflexivity. Qed.

Example toISOString_invalid :
  Js.toISOString 8640000000000001 = None.
Proof. reflexivity. Qed.

Example replace_suffix :
  Js.replace "@c.us" "" "33612345678@c.us" = "33612345678".
Proof. reflexivity. Qed.

Example replace_absent :
  Js.replace "@c.us" "" "+33612345678" = "+33612345678".
Proof. reflexivity. Qed.

Example replace_first_only :
  Js.replace "@c.us" "" "1@c.us2@c.us" = "12@c.us".
Proof. reflexivity. Qed.

(** ** The scenarios of the specification *)

Example scenario_three_new_messages :
  fst (sync_one Demo.world "c1" Demo.fresh) = SyncResult "c1" 3 3 0
  ∧ Conversation.last_message_at
      <$> conversations (store (snd (sync_one Demo.world "c1" Demo.fresh)))
    = [Some "1970-01-01T00:03:20.000Z"]
  ∧ stored_ids (store (snd (sync_one Demo.world "c1" Demo.fresh))) "c1"
    = ["a"; "b"; "c"].
Proof. vm_compute. done. Qed.

Example scenario_one_new_message :
  fst (sync_one Demo.world "c1" Demo.with_a_b) = SyncResult "c1" 3 1 2
  ∧ filter (λ e, is_save e = true)
           (trace (snd (sync_one Demo.world "c1" Demo.with_a_b)))
    = [SaveMessage (Demo.row "c" "1970-01-01T00:02:30.000Z")].
Proof. vm_compute. done. Qed.

Example scenario_unknown_conversation :
  sync_one Demo.world "nope" Demo.fresh
  = (NotFound, mkMachine (store Demo.fresh) [SelectConversation "nope"]).
Proof. vm_compute. done. Qed.

Example scenario_third_of_five_throws :
  fst (sync_one_of_all_try Demo.world
         [Chat.mk "4915112345678@c.us"; Demo.alice_chat]
         (Conversation.mk "c3" None None None None None)
         (mkBulk Demo.five_tracked 0 0 []))
  = Thrown Js.TypeError
  ∧ fst (sync_all Demo.world Demo.five_tracked)
    = BulkSyncResult 3 1 5 [mkEntry "c1" (Some "33612345678") 3].
Proof. vm_compute. done. Qed.

(** ** The save loops *)

Lemma machine_eta (s : Machine) : mkMachine (store s) (trace s) = s.
Proof. by destruct s. Qed.

Lemma advance_nil s : advance s [] [] = s.
Proof.
  unfold advance. rewrite !app_nil_r. destruct s as [[] ?]; reflexivity.
Qed.

Lemma advance_advance s rows calls rows' calls' :
  advance (advance s rows calls) rows' calls'
  = advance s (rows ++ rows') (calls ++ calls').
Proof. unfold advance; simpl. by rewrite !app_assoc. Qed.

Section SaveLoops.

(** The arguments that stay fixed while a batch is walked through. *)
Context (w : World) (cid : string) (uid : option string) (ex : gset string).
Implicit Types (m : Msg.t) (ms msgs : list Msg.t) (s : Machine)
  (b : BulkState).

Lemma unseen_cons_in m ms :
  Msg.id_serialized m ∈ ex → unseen ex (m :: ms) = unseen ex ms.
Proof. intros H. unfold unseen. rewrite filter_cons_False; [done | tauto]. Qed.

Lemma unseen_cons_notin m ms :
  Msg.id_serialized m ∉ ex → unseen ex (m :: ms) = m :: unseen ex ms.
Proof. intros H. unfold unseen. by rewrite filter_cons_True. Qed.

Lemma duplicates_cons_in m ms :
  Msg.id_serialized m ∈ ex → duplicates ex (m :: ms) = m :: duplicates ex ms.
Proof. intros H. unfold duplicates. by rewrite filter_cons_True. Qed.

Lemma duplicates_cons_notin m ms :
  Msg.id_serialized m ∉ ex → duplicates ex (m :: ms) = duplicates ex ms.
Proof. intros H. unfold duplicates. by rewrite filter_cons_False. Qed.

Lemma rows_to_save_cons_in m ms :
  Msg.id_serialized m ∈ ex →
  rows_to_save cid uid ex (m :: ms) = rows_to_save cid uid ex ms.
Proof. intros H. unfold rows_to_save. by rewrite unseen_cons_in. Qed.

Lemma rows_to_save_cons_valid m ms iso :
  Msg.id_serialized m ∉ ex →
  Js.toISOString (Msg.timestamp m * 1000) = Some iso →
  rows_to_save cid uid ex (m :: ms)
  = row_of cid uid m iso :: rows_to_save cid uid ex ms.
Proof.
  intros H Hiso. unfold rows_to_save. rewrite unseen_cons_notin by done.
  cbn [omap list_omap]. unfold row_to_save at 1. by rewrite Hiso.
Qed.

Lemma rows_to_save_cons_invalid m ms :
  Msg.id_serialized m ∉ ex →
  Js.toISOString (Msg.timestamp m * 1000) = None →
  rows_to_save cid uid ex (m :: ms) = rows_to_save cid uid ex ms.
Proof.
  intros H Hiso. unfold rows_to_save. rewrite unseen_cons_notin by done.
  cbn [omap list_omap]. unfold row_to_save at 1. by rewrite Hiso.
Qed.

Lemma rows_saved_cons r rows :
  rows_saved w (r :: rows)
  = if decide (save_answer w (MessageRow.conversation_id r)
                           (MessageRow.message_id r) = SaveReturnsRow)
    then r :: rows_saved w rows else rows_saved w rows.
Proof. unfold rows_saved. by rewrite filter_cons. Qed.

(** One guarded call of [saveMessage]. *)
Lemma save_attempt_run m s :
  try_catch
    (iso <- date_toISOString (Msg.timestamp m) ;;
     savedMessage <- saveMessage w cid (Msg.body m) (Msg.fromMe m)
                       (Msg.id_serialized m) iso uid ;;
     ret (bool_decide (is_Some savedMessage)))
    (λ _, ret false) s
  = match Js.toISOString (Msg.timestamp m * 1000) with
    | None => (Returned false, s)
    | Some iso =>
        let row := row_of cid uid m iso in
        match save_answer w cid (Msg.id_serialized m) with
        | SaveReturnsRow => (Returned true, advance s [row] [SaveMessage row])
        | _ => (Returned false, advance s [] [SaveMessage row])
        end
    end.
Proof.
  unfold try_catch, bind, date_toISOString, saveMessage, emit, modify, bind,
    advance, insert_message, row_of.
  destruct (Js.toISOString (Msg.timestamp m * 1000)) as [iso|]; [|done].
  simpl. destruct (save_answer w cid (Msg.id_serialized m)); simpl;
    rewrite ?app_nil_r; try done.
  all: by destruct s as [[] ?].
Qed.

Lemma save_new_messages_run msgs n k s :
  save_new_messages w cid uid ex msgs n k s
  = (Returned ((n + length (rows_saved w (rows_to_save cid uid ex msgs)))%nat,
               (k + length (duplicates ex msgs))%nat),
     advance s (rows_saved w (rows_to_save cid uid ex msgs))
               (SaveMessage <$> rows_to_save cid uid ex msgs)).
Proof.
  revert n k s. induction msgs as [|m msgs IH]; intros n k s.
  - simpl. unfold ret. rewrite advance_nil. do 3 f_equal; lia.
  - cbn [save_new_messages].
    destruct (decide (Msg.id_serialized m ∈ ex)) as [Hin|Hin].
    + rewrite IH, rows_to_save_cons_in, duplicates_cons_in by done.
      cbn [length]. do 3 f_equal; lia.
    + rewrite duplicates_cons_notin by done.
      unfold bind at 1. rewrite save_attempt_run.
      destruct (Js.toISOString (Msg.timestamp m * 1000)) as [iso|] eqn:Hiso.
      * rewrite (rows_to_save_cons_valid _ _ iso) by done.
        rewrite rows_saved_cons. cbn [row_of MessageRow.conversation_id
          MessageRow.message_id].
        cbv zeta.
        destruct (save_answer w cid (Msg.id_serialized m)) eqn:Hs.
        -- rewrite decide_True by done. rewrite IH, advance_advance.
           cbn [length fmap list_fmap app]. do 3 f_equal; lia.
        -- rewrite decide_False by done. rewrite IH, advance_advance. done.
        -- rewrite decide_False by done. rewrite IH, advance_advance. done.
      * rewrite rows_to_save_cons_invalid by done. by rewrite IH.
Qed.

Lemma save_attempt_bulk_run m b :
  try_catch
    (iso <- date_toISOString (Msg.timestamp m) ;;
     savedMessage <- zoom (saveMessage w cid (Msg.body m) (Msg.fromMe m)
                             (Msg.id_serialized m) iso uid) ;;
     if bool_decide (is_Some savedMessage)
     then count_new_message ;; ret true
     else ret false)
    (λ _, ret false) b
  = match Js.toISOString (Msg.timestamp m * 1000) with
    | None => (Returned false, b)
    | Some iso =>
        let row := row_of cid uid m iso in
        match save_answer w cid (Msg.id_serialized m) with
        | SaveReturnsRow =>
            (Returned true,
             mkBulk (advance (machine b) [row] [SaveMessage row])
                    (S (totalNewMessages b)) (conversationsSynced b)
                    (syncResults b))
        | _ =>
            (Returned false,
             mkBulk (advance (machine b) [] [SaveMessage row])
                    (totalNewMessages b) (conversationsSynced b)
                    (syncResults b))
        end
    end.
Proof.
  unfold try_catch, bind, date_toISOString, zoom, saveMessage, emit, modify,
    bind, count_new_message, modify, advance, insert_message, row_of.
  destruct (Js.toISOString (Msg.timestamp m * 1000)) as [iso|]; [|done].
  simpl. destruct (save_answer w cid (Msg.id_serialized m)); simpl;
    rewrite ?app_nil_r; try done.
  all: by destruct b as [[[] ?] ? ? ?].
Qed.

Lemma save_new_messages_bulk_run msgs n b :
  save_new_messages_bulk w cid uid ex msgs n b
  = (Returned (n + length (rows_saved w (rows_to_save cid uid ex msgs)))%nat,
     mkBulk (advance (machine b) (rows_saved w (rows_to_save cid uid ex msgs))
                     (SaveMessage <$> rows_to_save cid uid ex msgs))
            (totalNewMessages b
             + length (rows_saved w (rows_to_save cid uid ex msgs)))%nat
            (conversationsSynced b) (syncResults b)).
Proof.
  revert n b. induction msgs as [|m msgs IH]; intros n b.
  - simpl. unfold ret. rewrite advance_nil, !Nat.add_0_r. by destruct b.
  - cbn [save_new_messages_bulk].
    destruct (decide (Msg.id_serialized m ∈ ex)) as [Hin|Hin].
    + by rewrite IH, rows_to_save_cons_in.
    + unfold bind at 1. rewrite save_attempt_bulk_run.
      destruct (Js.toISOString (Msg.timestamp m * 1000)) as [iso|] eqn:Hiso.
      * rewrite (rows_to_save_cons_valid _ _ iso) by done.
        rewrite rows_saved_cons. cbn [row_of MessageRow.conversation_id
          MessageRow.message_id].
        cbv zeta.
        destruct (save_answer w cid (Msg.id_serialized m)) eqn:Hs.
        -- rewrite decide_True by done. rewrite IH.
           cbn [machine totalNewMessages conversationsSynced syncResults].
           rewrite advance_advance.
           cbn [length fmap list_fmap app]. by rewrite !Nat.add_succ_r.
        -- rewrite decide_False by done. rewrite IH.
           cbn [machine totalNewMessages conversationsSynced syncResults].
           by rewrite advance_advance.
        -- rewrite decide_False by done. rewrite IH.
           cbn [machine totalNewMessages conversationsSynced syncResults].
           by rewrite advance_advance.
      * rewrite rows_to_save_cons_invalid by done. by rewrite IH.
Qed.

End SaveLoops.

(** The timestamp update. *)
Lemma touch_conversation_run w cid msgs s :
  touch_conversation w cid msgs s
  = (touch_outcome w cid msgs, touch w cid msgs s).
Proof.
  unfold touch_conversation, touch_outcome, touch, touch_store, touch_calls,
    latest_message.
  destruct msgs as [|first others].
  - unfold ret. by rewrite app_nil_r, machine_eta.
  - unfold bind, date_toISOString.
    destruct (Js.toISOString _) as [iso|].
    + unfold ret, update_last_message_at, bind, emit, modify.
      destruct (update_fault w cid); simpl; try done.
      all: by destruct s.
    + unfold throw. by rewrite app_nil_r, machine_eta.
Qed.

(** ** A single-conversation pass, step by step *)

Lemma fetched_batch_inv w s cid conv chat msgs :
  fetched_batch w s cid = Some (conv, chat, msgs) →
  client_connected w = true
  ∧ conversation_fault w cid = NoFault
  ∧ filter (λ c, Conversation.id c = cid) (conversations (store s)) = [conv]
  ∧ ∃ chats, chats_answer w = Returned chats
      ∧ target_chat chats conv = Returned (Some chat)
      ∧ messages_answer w (Chat.id_serialized chat) 999999 = Returned msgs.
Proof.
  unfold fetched_batch. intros H.
  destruct (client_connected w); [|done].
  destruct (conversation_fault w cid); try done.
  destruct (filter _ _) as [|c [|? ?]]; try done.
  destruct (chats_answer w) as [chats|]; [|done].
  destruct (target_chat chats c) as [[t|]|] eqn:Ht; try done.
  destruct (messages_answer w _ _) as [ms|] eqn:Hm; [|done].
  injection H as -> -> ->. eauto 10.
Qed.

Lemma sync_one_run w s cid conv chat msgs :
  fetched_batch w s cid = Some (conv, chat, msgs) →
  sync_one w cid s =
    let s1 := advance s [] (opening_calls cid chat) in
    match message_ids_fault w cid with
    | Throws => (ServerError Js.Rejected, s1)
    | _ =>
        let ex := seen_ids w (store s) cid in
        let rows := rows_to_save cid (Conversation.user_id conv) ex msgs in
        (match touch_outcome w cid msgs with
         | Returned _ =>
             SyncResult cid (length msgs) (length (rows_saved w rows))
                        (length (duplicates ex msgs))
         | Thrown e => ServerError e
         end,
         touch w cid msgs (advance s1 (rows_saved w rows) (SaveMessage <$> rows)))
    end.
Proof.
  intros H. apply fetched_batch_inv in H
    as (Hc & Hf & Hrow & chats & Hchats & Ht & Hm).
  unfold sync_one, syncConversationHistory, try_catch,
    syncConversationHistory_try.
  rewrite Hc. cbn [negb].
  unfold bind at 1, select_conversation, bind at 1, emit, modify.
  rewrite Hf. unfold gets. cbn [store trace]. rewrite Hrow.
  cbn [single data error].
  unfold bind at 1, getChats, bind at 1, emit, modify, await. rewrite Hchats.
  unfold bind at 1, find_target_chat, await. rewrite Ht.
  unfold bind at 1, fetchMessages, bind at 1, emit, modify, await.
  cbn [store trace]. rewrite Hm.
  unfold bind at 1, select_message_ids, bind at 1, emit, modify, gets, seen_ids.
  cbn [store trace].
  destruct (message_ids_fault w cid) eqn:Hl.
  - unfold existing_ids. cbn [default data from_option].
    unfold bind at 1. rewrite save_new_messages_run.
    unfold bind at 1. rewrite touch_conversation_run.
    cbv zeta. cbn [fst snd]. unfold ret.
    replace (advance s [] (opening_calls cid chat)) with
      {| store := store s;
         trace := (((trace s ++ [SelectConversation cid]) ++ [GetChats]) ++
                   [FetchMessages (Chat.id_serialized chat) 999999]) ++
                  [SelectMessageIds cid] |}.
    + by destruct (touch_outcome w cid msgs) as [[]|].
    + unfold advance, opening_calls. rewrite app_nil_r, <- !app_assoc.
      by destruct s as [[] ?].
  - unfold ret at 1. unfold existing_ids. cbn [default data from_option].
    unfold bind at 1. rewrite save_new_messages_run.
    unfold bind at 1. rewrite touch_conversation_run.
    cbv zeta. cbn [fst snd]. unfold ret.
    replace (advance s [] (opening_calls cid chat)) with
      {| store := store s;
         trace := (((trace s ++ [SelectConversation cid]) ++ [GetChats]) ++
                   [FetchMessages (Chat.id_serialized chat) 999999]) ++
                  [SelectMessageIds cid] |}.
    + replace (list_to_set [] : gset string) with (∅ : gset string) by done.
      by destruct (touch_outcome w cid msgs) as [[]|].
    + unfold advance, opening_calls. rewrite app_nil_r, <- !app_assoc.
      by destruct s as [[] ?].
  - unfold throw. cbv zeta. f_equal.
    unfold advance, opening_calls. rewrite app_nil_r, <- !app_assoc.
    by destruct s as [[] ?].
Qed.

Lemma calls_since_advance s rows calls :
  calls_since s (advance s rows calls) = calls.
Proof. unfold calls_since, advance. cbn [trace]. by rewrite drop_app_length. Qed.

(** A handler that stops early has issued [calls] and written nothing:
    solves the goal left once the stopping branch is reached. *)
Ltac stops_after s calls :=
  intros _; exists calls; split;
  [ unfold advance; cbn [snd trace store machine];
    rewrite app_nil_r, <- ?app_assoc; by destruct s as [[] ?]
  | by repeat constructor ].

Lemma sync_one_early w s cid :
  fetched_batch w s cid = None →
  ∃ calls, snd (sync_one w cid s) = advance s [] calls
           ∧ Forall (λ e, is_store_write e = false) calls.
Proof.
  unfold fetched_batch, sync_one, syncConversationHistory, try_catch,
    syncConversationHistory_try.
  destruct (client_connected w); cbn [negb].
  2:{ intros _. exists []. by rewrite advance_nil. }
  unfold bind at 1, select_conversation, bind at 1, emit, modify, gets.
  cbn [store trace].
  destruct (conversation_fault w cid).
  2,3: stops_after s [SelectConversation cid].
  destruct (filter _ _) as [|c [|? ?]]; cbn [single data error].
  1,3: stops_after s [SelectConversation cid].
  unfold bind at 1, getChats, bind at 1, emit, modify, await.
  destruct (chats_answer w) as [chats|].
  2: stops_after s [SelectConversation cid; GetChats].
  unfold bind at 1, find_target_chat, await.
  destruct (target_chat chats c) as [[t|]|].
  2,3: stops_after s [SelectConversation cid; GetChats].
  unfold bind at 1, fetchMessages, bind at 1, emit, modify, await.
  cbn [store trace].
  destruct (messages_answer w _ _); [done|].
  stops_after s [SelectConversation cid; GetChats;
                 FetchMessages (Chat.id_serialized t) 999999].
Qed.

(** ** One turn of the bulk loop, step by step *)

Lemma sync_one_of_all_returns w chats conv b :
  sync_one_of_all w chats conv b = (Returned tt, turn w chats conv b).
Proof.
  unfold turn, sync_one_of_all, try_catch.
  destruct (sync_one_of_all_try w chats conv b) as [[[]|e] b']; done.
Qed.

Lemma sync_each_returns w chats page b :
  sync_each w chats page b = (Returned tt, turns w chats page b).
Proof.
  revert b. induction page as [|c page IH]; intros b; [done|].
  cbn [sync_each]. unfold bind. rewrite sync_one_of_all_returns.
  by rewrite IH.
Qed.

Lemma turns_app w chats pre post b :
  turns w chats (pre ++ post) b = turns w chats post (turns w chats pre b).
Proof. unfold turns. by rewrite fold_left_app. Qed.

Lemma turn_eq w chats conv b :
  turn w chats conv b = snd (sync_one_of_all_try w chats conv b).
Proof.
  unfold turn, sync_one_of_all, try_catch.
  destruct (sync_one_of_all_try w chats conv b) as [[[]|e] b']; done.
Qed.

Lemma try_reached w chats conv chat msgs b :
  fetched_batch_bulk w chats conv = Some (chat, msgs) →
  sync_one_of_all_try w chats conv b
  = (turn_outcome w conv msgs, after_turn w conv chat msgs b).
Proof.
  unfold fetched_batch_bulk. intros H.
  destruct (target_chat chats conv) as [[t|]|] eqn:Ht; try done.
  destruct (messages_answer w _ _) as [ms|] eqn:Hm; [|done].
  injection H as -> ->.
  unfold sync_one_of_all_try, turn_outcome, after_turn.
  unfold bind at 1, find_target_chat, await. rewrite Ht.
  unfold bind at 1, zoom at 1, fetchMessages, bind at 1, emit, modify, await.
  cbn [store trace]. rewrite Hm.
  unfold bind at 1, zoom at 1, select_message_ids, bind at 1, emit, modify,
    gets, seen_ids.
  cbn [store trace machine totalNewMessages conversationsSynced syncResults].
  assert (Hm1 : advance (machine b) []
                  (opening_calls_bulk (Conversation.id conv) chat)
                = {| store := store (machine b);
                     trace := (trace (machine b)
                               ++ [FetchMessages (Chat.id_serialized chat) 100])
                              ++ [SelectMessageIds (Conversation.id conv)] |}).
  { unfold advance, opening_calls_bulk. rewrite app_nil_r, <- !app_assoc.
    by destruct (machine b) as [[] ?]. }
  cbv zeta. rewrite Hm1.
  destruct (message_ids_fault w (Conversation.id conv)) eqn:Hl.
  - unfold existing_ids. cbn [default data from_option].
    unfold bind at 1. rewrite save_new_messages_bulk_run.
    cbn [machine totalNewMessages conversationsSynced syncResults].
    unfold bind at 1, zoom. rewrite touch_conversation_run.
    cbn [machine totalNewMessages conversationsSynced syncResults].
    destruct (touch_outcome w _ msgs) as [[]|]; [|done].
    cbn [Nat.add]. destruct (decide _); done.
  - unfold ret at 1. unfold existing_ids. cbn [default data from_option].
    replace (list_to_set [] : gset string) with (∅ : gset string) by done.
    unfold bind at 1. rewrite save_new_messages_bulk_run.
    cbn [machine totalNewMessages conversationsSynced syncResults].
    unfold bind at 1, zoom. rewrite touch_conversation_run.
    cbn [machine totalNewMessages conversationsSynced syncResults].
    destruct (touch_outcome w _ msgs) as [[]|]; [|done].
    cbn [Nat.add]. destruct (decide _); done.
  - unfold throw, ret, with_machine. by rewrite Nat.add_0_r.
Qed.

Lemma turn_reached w chats conv chat msgs b :
  fetched_batch_bulk w chats conv = Some (chat, msgs) →
  turn w chats conv b = after_turn w conv chat msgs b.
Proof. intros H. by rewrite turn_eq, (try_reached _ _ _ _ _ _ H). Qed.

Lemma try_unreached w chats conv b :
  fetched_batch_bulk w chats conv = None →
  sync_one_of_all_try w chats conv b
  = (early_outcome w chats conv, after_early_turn chats conv b).
Proof.
  unfold fetched_batch_bulk, early_outcome, after_early_turn. intros H.
  unfold sync_one_of_all_try.
  unfold bind at 1, find_target_chat, await.
  destruct (target_chat chats conv) as [[t|]|] eqn:Ht; try done.
  unfold bind at 1, zoom at 1, fetchMessages, bind at 1, emit, modify, await.
  cbn [store trace].
  destruct (messages_answer w _ _) as [ms|] eqn:Hm; [done|].
  unfold ret, with_machine, advance.
  rewrite app_nil_r, Nat.add_0_r. by destruct (machine b) as [[] ?].
Qed.

Lemma turn_unreached w chats conv b :
  fetched_batch_bulk w chats conv = None →
  turn w chats conv b = after_early_turn chats conv b.
Proof. intros H. by rewrite turn_eq, (try_unreached _ _ _ _ H). Qed.

Lemma trace_touch w cid msgs s :
  trace (touch w cid msgs s) = trace s ++ touch_calls cid msgs.
Proof. done. Qed.

Lemma calls_since_touch w cid msgs s rows calls :
  calls_since s (touch w cid msgs (advance s rows calls))
  = calls ++ touch_calls cid msgs.
Proof.
  unfold calls_since. rewrite trace_touch. unfold advance. cbn [trace].
  by rewrite <- app_assoc, drop_app_length.
Qed.

(** ** The bulk pass as a whole *)

Lemma sync_all_run w s page chats :
  bulk_inputs w s = Some (page, chats) →
  sync_all w s =
    let b := turns w chats page
               (mkBulk (advance s [] [SelectConversationsPage; GetChats]) 0 0 [])
    in (BulkSyncResult (totalNewMessages b) (conversationsSynced b)
                       (length page) (syncResults b),
        machine b).
Proof.
  unfold bulk_inputs. intros H.
  destruct (client_connected w) eqn:Hc; [|done].
  destruct (page_fault w) eqn:Hp; try done.
  destruct (chats_answer w) as [cs|] eqn:Hch; [|done].
  injection H as <- <-.
  unfold sync_all, syncAllConversationsHistory, try_catch,
    syncAllConversationsHistory_try.
  rewrite Hc. cbn [negb].
  unfold bind at 1, zoom at 1, select_conversations_page, bind at 1, emit,
    modify, gets.
  rewrite Hp. cbn [store trace machine error data totalNewMessages
    conversationsSynced syncResults].
  unfold bind at 1, zoom at 1, getChats, bind at 1, emit, modify, await.
  rewrite Hch.
  cbn [store trace machine error data totalNewMessages
    conversationsSynced syncResults].
  unfold bind at 1. rewrite sync_each_returns.
  unfold bind, gets, ret. cbv zeta.
  replace (advance s [] [SelectConversationsPage; GetChats])
    with {| store := store s;
            trace := (trace s ++ [SelectConversationsPage]) ++ [GetChats] |}.
  - done.
  - unfold advance. rewrite app_nil_r, <- app_assoc. by destruct s as [[] ?].
Qed.

(** ** Finding the live chat *)

Lemma find_Some {A} (p : A → bool) xs x :
  Js.find p xs = Some x →
  ∃ pre post, xs = pre ++ x :: post ∧ p x = true
              ∧ ∀ y, y ∈ pre → p y = false.
Proof.
  induction xs as [|a xs IH]; [done|]. cbn [Js.find].
  destruct (p a) eqn:Hpa.
  - intros [= ->]. exists [], xs. split_and!; [done..|].
    intros y Hy. by apply elem_of_nil in Hy.
  - intros H. destruct (IH H) as (pre & post & -> & Hx & Hpre).
    exists (a :: pre), post. split_and!; [done..|].
    intros y [->|Hy]%elem_of_cons; auto.
Qed.

Lemma find_None {A} (p : A → bool) xs :
  Js.find p xs = None → ∀ y, y ∈ xs → p y = false.
Proof.
  induction xs as [|a xs IH]; intros H y Hy.
  - by apply elem_of_nil in Hy.
  - cbn [Js.find] in H. destruct (p a) eqn:Hpa; [done|].
    apply elem_of_cons in Hy as [->|Hy]; auto.
Qed.

Lemma target_chat_phone chats conv p :
  Conversation.phone_number conv = Some p →
  target_chat chats conv = Returned (Js.find (same_number p) chats).
Proof. unfold target_chat. intros ->. by destruct chats. Qed.

Lemma same_number_true p chat :
  same_number p chat = true
  ↔ Js.replace "@c.us" "" (Chat.id_serialized chat) = Js.replace "@c.us" "" p.
Proof. unfold same_number. apply String.eqb_eq. Qed.

Lemma same_number_false p chat :
  same_number p chat = false
  ↔ Js.replace "@c.us" "" (Chat.id_serialized chat) ≠ Js.replace "@c.us" "" p.
Proof. unfold same_number. apply String.eqb_neq. Qed.

(** A digit is not the ["@"] that starts the suffix. *)
Lemma digit_not_at c s :
  is_digit c = true → String.prefix "@c.us" (String c s) = false.
Proof.
  unfold is_digit. intros H. cbn [String.prefix].
  destruct (ascii_dec "@" c) as [<-|]; [|done].
  by vm_compute in H.
Qed.

Lemma replace_numeric core :
  numeric core = true →
  Js.replace "@c.us" "" (core +:+ "@c.us") = core
  ∧ Js.replace "@c.us" "" core = core.
Proof.
  induction core as [|c core IH]; [done|].
  cbn [numeric]. intros [Hc Hn]%andb_prop. destruct (IH Hn) as [IH1 IH2].
  split.
  - change (String c core +:+ "@c.us") with (String c (core +:+ "@c.us")).
    cbn [Js.replace]. rewrite (digit_not_at c _ Hc). by rewrite IH1.
  - cbn [Js.replace]. rewrite (digit_not_at c _ Hc). by rewrite IH2.
Qed.

(** ** The latest message of a batch *)

Lemma reduce_later_max first others :
  Js.reduce later first others ∈ first :: others
  ∧ ∀ m, m ∈ first :: others →
      Msg.timestamp m ≤ Msg.timestamp (Js.reduce later first others).
Proof.
  unfold Js.reduce. revert first.
  induction others as [|m others IH]; intros first.
  - cbn [fold_left]. split; [by left|].
    intros m ->%list_elem_of_singleton. lia.
  - cbn [fold_left]. destruct (IH (later first m)) as [Hin Hmax]. split.
    + apply elem_of_cons in Hin as [Heq|Hin].
      * rewrite Heq. unfold later.
        destruct (Msg.timestamp first <? Msg.timestamp m);
          [right; left | left].
      * by do 2 right.
    + assert (Hl : Msg.timestamp first ≤ Msg.timestamp (later first m)
                   ∧ Msg.timestamp m ≤ Msg.timestamp (later first m)).
      { unfold later.
        destruct (Z.ltb_spec (Msg.timestamp first) (Msg.timestamp m)); lia. }
      pose proof (Hmax (later first m) ltac:(by left)) as H0.
      intros x [->|[->|Hx]%elem_of_cons]%elem_of_cons; [lia | lia |].
      apply Hmax. by right.
Qed.

Lemma latest_message_max msgs latest :
  latest_message msgs = Some latest →
  latest ∈ msgs ∧ ∀ m, m ∈ msgs → Msg.timestamp m ≤ Msg.timestamp latest.
Proof.
  destruct msgs as [|first others]; [done|]. intros [= <-].
  apply reduce_later_max.
Qed.

Lemma latest_message_None msgs : latest_message msgs = None → msgs = [].
Proof. by destruct msgs. Qed.

Lemma touch_calls_valid cid msgs latest iso :
  latest_message msgs = Some latest →
  Js.toISOString (Msg.timestamp latest * 1000) = Some iso →
  touch_calls cid msgs = [UpdateLastMessageAt cid iso].
Proof. unfold touch_calls. by intros -> ->. Qed.

Lemma touch_calls_no_save cid msgs :
  Forall (λ e, is_save e = false) (touch_calls cid msgs).
Proof.
  unfold touch_calls. destruct (latest_message msgs); [|done].
  destruct (Js.toISOString _); by repeat constructor.
Qed.

Lemma filter_set_last_message_at cid iso st :
  filter (λ c, Conversation.id c = cid)
         (conversations (set_last_message_at cid iso st))
  = with_last_message_at iso
    <$> filter (λ c, Conversation.id c = cid) (conversations st).
Proof.
  unfold set_last_message_at. cbn [conversations].
  induction (conversations st) as [|c cs IH]; [done|].
  rewrite fmap_cons, !filter_cons.
  destruct (decide (Conversation.id c = cid)) as [Hc|Hc].
  - rewrite decide_True by done. by rewrite fmap_cons, IH.
  - by rewrite decide_False.
Qed.

Lemma messages_touch_store w cid msgs st :
  messages (touch_store w cid msgs st) = messages st.
Proof.
  unfold touch_store. destruct (touch_calls cid msgs) as [|[] [|? ?]]; try done.
  by destruct (update_fault w cid).
Qed.

Lemma touch_store_valid w cid msgs latest iso st :
  latest_message msgs = Some latest →
  Js.toISOString (Msg.timestamp latest * 1000) = Some iso →
  update_fault w cid = NoFault →
  touch_store w cid msgs st = set_last_message_at cid iso st.
Proof.
  intros Hl Hiso Hu. unfold touch_store.
  by rewrite (touch_calls_valid _ _ _ _ Hl Hiso), Hu.
Qed.

(** ** The deduplication filter *)

Lemma unseen_sublist ex msgs : unseen ex msgs `sublist_of` msgs.
Proof. apply sublist_filter. Qed.

Lemma rows_saved_sublist w rows : rows_saved w rows `sublist_of` rows.
Proof. apply sublist_filter. Qed.

Create HintDb sync discriminated.
#[local] Hint Resolve unseen_sublist rows_saved_sublist touch_calls_no_save
  : sync.

Lemma row_to_save_id cid uid m r :
  row_to_save cid uid m = Some r →
  MessageRow.message_id r = Msg.id_serialized m
  ∧ MessageRow.conversation_id r = cid.
Proof.
  unfold row_to_save. destruct (Js.toISOString _); [|done].
  by intros [= <-].
Qed.

Lemma omap_ids_sublist cid uid (msgs : list Msg.t) :
  (MessageRow.message_id <$> omap (row_to_save cid uid) msgs)
    `sublist_of` (Msg.id_serialized <$> msgs).
Proof.
  induction msgs as [|m msgs IH]; [done|].
  cbn [omap list_omap]. destruct (row_to_save cid uid m) as [r|] eqn:Hr.
  - rewrite !fmap_cons. destruct (row_to_save_id _ _ _ _ Hr) as [-> _].
    by apply sublist_skip.
  - rewrite fmap_cons. by apply sublist_cons.
Qed.

Lemma omap_ids_all cid uid (msgs : list Msg.t) :
  Forall (λ m, is_Some (Js.toISOString (Msg.timestamp m * 1000))) msgs →
  MessageRow.message_id <$> omap (row_to_save cid uid) msgs
  = Msg.id_serialized <$> msgs.
Proof.
  induction 1 as [|m msgs [iso Hiso] _ IH]; [done|].
  cbn [omap list_omap]. unfold row_to_save at 1. rewrite Hiso.
  cbn [fmap option_fmap option_map]. rewrite !fmap_cons. by rewrite <- IH.
Qed.

Lemma rows_to_save_spec cid uid ex msgs r :
  r ∈ rows_to_save cid uid ex msgs →
  MessageRow.conversation_id r = cid
  ∧ (MessageRow.message_id r ∉ ex)
  ∧ MessageRow.message_id r ∈ Msg.id_serialized <$> msgs.
Proof.
  unfold rows_to_save, unseen.
  intros (m & [Hm Hin]%list_elem_of_filter & Hr)%list_elem_of_omap.
  destruct (row_to_save_id _ _ _ _ Hr) as [-> ->].
  split_and!; [done..|]. by apply list_elem_of_fmap_2.
Qed.

(** ** Conversations unknown to the store, and chats unknown to the session *)

Lemma filter_absent (cid : string) (convs : list Conversation.t) :
  cid ∉ Conversation.id <$> convs →
  filter (λ c, Conversation.id c = cid) convs = [].
Proof.
  intros H. induction convs as [|c convs IH]; [done|].
  rewrite fmap_cons, not_elem_of_cons in H. destruct H as [Hc Hcs].
  rewrite filter_cons_False by congruence. auto.
Qed.

(** C8. For a conversation identifier absent from the store,
    single-conversation sync leaves the store as it is and issues neither
    a messaging-session read nor a store write; with a connected session
    and an answered conversation query it answers NotFound. *)
Theorem C8_absent_conversation_not_found w cid s :
  cid ∉ Conversation.id <$> conversations (store s) →
  store (snd (sync_one w cid s)) = store s
  ∧ Forall (λ e, is_session_read e = false ∧ is_store_write e = false)
           (calls_since s (snd (sync_one w cid s)))
  ∧ (client_connected w = true → conversation_fault w cid ≠ Throws →
     fst (sync_one w cid s) = NotFound).
Proof.
  intros Habs%filter_absent.
  unfold sync_one, syncConversationHistory, try_catch,
    syncConversationHistory_try.
  destruct (client_connected w); cbn [negb].
  - unfold calls_since, bind, select_conversation, bind, emit, modify, gets,
      ret, throw.
    destruct (conversation_fault w cid); cbn [fst snd store trace];
      rewrite ?Habs; cbn [single data error fst snd store trace];
      rewrite drop_app_length; split_and!; try done;
      by repeat constructor.
  - unfold ret, calls_since. cbn [fst snd]. rewrite drop_all.
    split_and!; done.
Qed.

Lemma sync_one_chat_not_found w cid s conv chats :
  client_connected w = true →
  conversation_fault w cid = NoFault →
  filter (λ c, Conversation.id c = cid) (conversations (store s)) = [conv] →
  chats_answer w = Returned chats →
  target_chat chats conv = Returned None →
  sync_one w cid s
  = (ChatNotFound, advance s [] [SelectConversation cid; GetChats]).
Proof.
  intros Hc Hf Hrow Hchats Ht.
  unfold sync_one, syncConversationHistory, try_catch,
    syncConversationHistory_try.
  rewrite Hc. cbn [negb].
  unfold bind at 1, select_conversation, bind at 1, emit, modify.
  rewrite Hf. unfold gets. cbn [store trace]. rewrite Hrow.
  cbn [single data error].
  unfold bind at 1, getChats, bind at 1, emit, modify, await. rewrite Hchats.
  unfold bind at 1, find_target_chat, await. rewrite Ht.
  unfold ret, advance. cbn [store trace].
  rewrite app_nil_r, <- app_assoc. by destruct s as [[] ?].
Qed.

Lemma sync_one_reads_target w cid s conv chats chat :
  client_connected w = true →
  conversation_fault w cid = NoFault →
  filter (λ c, Conversation.id c = cid) (conversations (store s)) = [conv] →
  chats_answer w = Returned chats →
  target_chat chats conv = Returned (Some chat) →
  ∃ rest, calls_since s (snd (sync_one w cid s))
          = [SelectConversation cid; GetChats;
             FetchMessages (Chat.id_serialized chat) 999999] ++ rest.
Proof.
  intros Hc Hf Hrow Hchats Ht.
  destruct (messages_answer w (Chat.id_serialized chat) 999999)
    as [msgs|e] eqn:Hm.
  - assert (Hb : fetched_batch w s cid = Some (conv, chat, msgs)).
    { unfold fetched_batch. by rewrite Hc, Hf, Hrow, Hchats, Ht, Hm. }
    rewrite (sync_one_run _ _ _ _ _ _ Hb). cbv zeta.
    destruct (message_ids_fault w cid); cbn [snd];
      rewrite ?advance_advance, ?calls_since_touch, ?calls_since_advance;
      unfold opening_calls; cbn [app]; eauto.
  - exists [].
    unfold sync_one, syncConversationHistory, try_catch,
      syncConversationHistory_try.
    rewrite Hc. cbn [negb].
    unfold bind at 1, select_conversation, bind at 1, emit, modify.
    rewrite Hf. unfold gets. cbn [store trace]. rewrite Hrow.
    cbn [single data error].
    unfold bind at 1, getChats, bind at 1, emit, modify, await. rewrite Hchats.
    unfold bind at 1, find_target_chat, await. rewrite Ht.
    unfold bind at 1, fetchMessages, bind at 1, emit, modify, await.
    cbn [store trace]. rewrite Hm. unfold ret, calls_since. cbn [snd trace].
    by rewrite <- !app_assoc, drop_app_length.
Qed.

(** C9. Single-conversation sync picks the first live chat whose
    identifier equals the conversation's phone number once [@c.us] is
    removed from both (for digit strings this removal leaves exactly the
    digits), reads that chat, and answers ChatNotFound when no chat of
    the session's list matches. *)
Theorem C9_chat_matched_by_number w cid s conv chats phone :
  client_connected w = true →
  conversation_fault w cid = NoFault →
  filter (λ c, Conversation.id c = cid) (conversations (store s)) = [conv] →
  chats_answer w = Returned chats →
  Conversation.phone_number conv = Some phone →
  (∀ core, numeric core = true →
     Js.replace "@c.us" "" (core +:+ "@c.us") = core
     ∧ Js.replace "@c.us" "" core = core)
  ∧ match Js.find (same_number phone) chats with
    | Some chat =>
        Js.replace "@c.us" "" (Chat.id_serialized chat)
          = Js.replace "@c.us" "" phone
        ∧ (∃ pre post, chats = pre ++ chat :: post
             ∧ ∀ other, other ∈ pre →
                 Js.replace "@c.us" "" (Chat.id_serialized other)
                   ≠ Js.replace "@c.us" "" phone)
        ∧ (∃ rest, calls_since s (snd (sync_one w cid s))
                   = [SelectConversation cid; GetChats;
                      FetchMessages (Chat.id_serialized chat) 999999] ++ rest)
    | None =>
        (∀ chat, chat ∈ chats →
           Js.replace "@c.us" "" (Chat.id_serialized chat)
             ≠ Js.replace "@c.us" "" phone)
        ∧ sync_one w cid s
          = (ChatNotFound, advance s [] [SelectConversation cid; GetChats])
    end.
Proof.
  intros Hc Hf Hrow Hchats Hp. split; [apply replace_numeric|].
  pose proof (target_chat_phone chats conv phone Hp) as Ht.
  destruct (Js.find (same_number phone) chats) as [chat|] eqn:Hfind.
  - destruct (find_Some _ _ _ Hfind) as (pre & post & Hsplit & Hx & Hpre).
    split_and!.
    + by apply same_number_true.
    + exists pre, post. split; [done|].
      intros other Ho. by apply same_number_false, Hpre.
    + by eapply sync_one_reads_target.
  - split.
    + intros chat Hin. by apply same_number_false, (find_None _ _ Hfind).
    + by eapply sync_one_chat_not_found.
Qed.

(** C10. In bulk sync a tracked conversation without a matching live chat
    is passed over: its turn returns normally and changes nothing (no
    call, no timestamp update, no entry in the results), the loop goes on
    as if the conversation were not in the page, and the conversation is
    still counted in [totalConversationsChecked]; single-conversation
    sync answers ChatNotFound for it. *)
Theorem C10_bulk_skips_unmatched_conversation w s page chats conv :
  bulk_inputs w s = Some (page, chats) →
  conv ∈ page →
  target_chat chats conv = Returned None →
  (∀ b, sync_one_of_all w chats conv b = (Returned tt, b))
  ∧ (∀ pre post b, sync_each w chats (pre ++ conv :: post) b
                   = sync_each w chats (pre ++ post) b)
  ∧ (∃ total synced results,
       fst (sync_all w s) = BulkSyncResult total synced (length page) results
       ∧ (0 < length page)%nat)
  ∧ (conversation_fault w (Conversation.id conv) = NoFault →
     filter (λ c, Conversation.id c = Conversation.id conv)
            (conversations (store s)) = [conv] →
     fst (sync_one w (Conversation.id conv) s) = ChatNotFound).
Proof.
  intros Hin Hconv Ht.
  assert (Hturn : ∀ b, turn w chats conv b = b).
  { intros b. rewrite turn_unreached.
    - unfold after_early_turn. by rewrite Ht.
    - unfold fetched_batch_bulk. by rewrite Ht. }
  split_and!.
  - intros b. by rewrite sync_one_of_all_returns, Hturn.
  - intros pre post b. rewrite !sync_each_returns, !turns_app.
    unfold turns at 1 3. cbn [fold_left]. by rewrite Hturn.
  - rewrite (sync_all_run _ _ _ _ Hin). cbv zeta. cbn [fst].
    do 3 eexists. split; [done|].
    destruct page; [by apply elem_of_nil in Hconv | simpl; lia].
  - intros Hf Hrow. unfold bulk_inputs in Hin.
    destruct (client_connected w) eqn:Hc; [|done].
    destruct (page_fault w); try done.
    destruct (chats_answer w) as [cs|] eqn:Hch; [|done].
    injection Hin as _ <-.
    by rewrite (sync_one_chat_not_found _ _ _ _ _ Hc Hf Hrow Hch Ht).
Qed.

(** ** The timestamp of the conversation *)

Lemma sync_one_calls w s cid conv chat msgs :
  fetched_batch w s cid = Some (conv, chat, msgs) →
  message_ids_fault w cid ≠ Throws →
  let rows := rows_to_save cid (Conversation.user_id conv)
                           (seen_ids w (store s) cid) msgs in
  calls_since s (snd (sync_one w cid s))
  = (opening_calls cid chat ++ (SaveMessage <$> rows)) ++ touch_calls cid msgs
  ∧ store (snd (sync_one w cid s))
    = touch_store w cid msgs
        (mkStore (conversations (store s))
                 (messages (store s) ++ rows_saved w rows)).
Proof.
  intros Hb Hl. rewrite (sync_one_run _ _ _ _ _ _ Hb). cbv zeta.
  destruct (message_ids_fault w cid); try done; cbn [snd];
    rewrite advance_advance, calls_since_touch; cbn [app];
    unfold touch, advance; cbn [store]; done.
Qed.

Lemma turn_calls w chats conv chat msgs b :
  fetched_batch_bulk w chats conv = Some (chat, msgs) →
  message_ids_fault w (Conversation.id conv) ≠ Throws →
  let cid := Conversation.id conv in
  let rows := rows_to_save cid (Conversation.user_id conv)
                           (seen_ids w (store (machine b)) cid) msgs in
  calls_since (machine b) (machine (turn w chats conv b))
  = (opening_calls_bulk cid chat ++ (SaveMessage <$> rows))
    ++ touch_calls cid msgs
  ∧ store (machine (turn w chats conv b))
    = touch_store w cid msgs
        (mkStore (conversations (store (machine b)))
                 (messages (store (machine b)) ++ rows_saved w rows))
  ∧ totalNewMessages (turn w chats conv b)
    = (totalNewMessages b + length (rows_saved w rows))%nat.
Proof.
  intros Hb Hl. rewrite (turn_reached _ _ _ _ _ _ Hb).
  unfold after_turn. cbv zeta.
  destruct (message_ids_fault w (Conversation.id conv)); try done.
  all: destruct (touch_outcome w _ msgs) as [[]|];
    [destruct (decide _)|]; unfold with_machine;
    cbn [machine totalNewMessages];
    rewrite advance_advance, calls_since_touch; cbn [app];
    unfold touch, advance; cbn [store]; done.
Qed.

Lemma last_app_singleton {A} (l : list A) x : last (l ++ [x]) = Some x.
Proof. by rewrite last_snoc. Qed.

(** C3 (amended). When the fetched batch is not empty, the [reduce] of
    the pass picks a message with the largest timestamp of the batch,
    whatever the store already holds.  If that timestamp converts to a
    date, the pass ends with one update of [last_message_at] carrying its
    ISO form; the column of the conversation holds that value afterwards
    when the store carries the update out, and is left as it was when the
    store answers the update with an error or rejects it (the handler does
    not read the answer: an error still gives a 200).  If the timestamp
    does not convert, [toISOString] raises, no update is issued and the
    conversation rows are as before.  When the batch is empty, no update is
    issued and the answer counts zero messages, zero new and zero skipped.
    Stated for a single-conversation pass and for one turn of the bulk
    loop, both with an identifier lookup that does not reject. *)
Theorem C3_last_message_at_is_batch_maximum w :
  (∀ s cid conv chat msgs,
     fetched_batch w s cid = Some (conv, chat, msgs) →
     message_ids_fault w cid ≠ Throws →
     let s' := snd (sync_one w cid s) in
     match latest_message msgs with
     | None =>
         msgs = []
         ∧ fst (sync_one w cid s) = SyncResult cid 0 0 0
         ∧ Forall (λ e, is_store_write e = false) (calls_since s s')
         ∧ store s' = store s
     | Some latest =>
         latest ∈ msgs
         ∧ (∀ m, m ∈ msgs → Msg.timestamp m ≤ Msg.timestamp latest)
         ∧ match Js.toISOString (Msg.timestamp latest * 1000) with
           | Some iso =>
               last (calls_since s s') = Some (UpdateLastMessageAt cid iso)
               ∧ match update_fault w cid with
                 | NoFault =>
                     filter (λ c, Conversation.id c = cid)
                            (conversations (store s'))
                     = [with_last_message_at iso conv]
                     ∧ Conversation.last_message_at
                         <$> filter (λ c, Conversation.id c = cid)
                                    (conversations (store s'))
                       = [Some iso]
                     ∧ status (fst (sync_one w cid s)) = 200
                 | ReturnsError =>
                     conversations (store s') = conversations (store s)
                     ∧ status (fst (sync_one w cid s)) = 200
                 | Throws =>
                     conversations (store s') = conversations (store s)
                     ∧ fst (sync_one w cid s) = ServerError Js.Rejected
                 end
           | None =>
               Forall (λ e, is_update e = false) (calls_since s s')
               ∧ conversations (store s') = conversations (store s)
               ∧ fst (sync_one w cid s) = ServerError Js.RangeError
           end
     end)
  ∧ (∀ chats conv chat msgs b,
       fetched_batch_bulk w chats conv = Some (chat, msgs) →
       message_ids_fault w (Conversation.id conv) ≠ Throws →
       let cid := Conversation.id conv in
       let b' := turn w chats conv b in
       match latest_message msgs with
       | None =>
           msgs = []
           ∧ Forall (λ e, is_store_write e = false)
                    (calls_since (machine b) (machine b'))
           ∧ store (machine b') = store (machine b)
           ∧ totalNewMessages b' = totalNewMessages b
           ∧ syncResults b' = syncResults b
       | Some latest =>
           latest ∈ msgs
           ∧ (∀ m, m ∈ msgs → Msg.timestamp m ≤ Msg.timestamp latest)
           ∧ match Js.toISOString (Msg.timestamp latest * 1000) with
             | Some iso =>
                 last (calls_since (machine b) (machine b'))
                 = Some (UpdateLastMessageAt cid iso)
                 ∧ match update_fault w cid with
                   | NoFault =>
                       filter (λ c, Conversation.id c = cid)
                              (conversations (store (machine b')))
                       = with_last_message_at iso
                         <$> filter (λ c, Conversation.id c = cid)
                                    (conversations (store (machine b)))
                       ∧ Forall (λ c, Conversation.last_message_at c = Some iso)
                                (filter (λ c, Conversation.id c = cid)
                                        (conversations (store (machine b'))))
                   | _ =>
                       conversations (store (machine b'))
                       = conversations (store (machine b))
                   end
             | None =>
                 Forall (λ e, is_update e = false)
                        (calls_since (machine b) (machine b'))
                 ∧ conversations (store (machine b'))
                   = conversations (store (machine b))
             end
       end).
Proof.
  assert (Hsaves : ∀ rows : list MessageRow.t,
            Forall (λ e, is_update e = false) (SaveMessage <$> rows)).
  { intros rows. apply Forall_forall.
    by intros e (r & -> & _)%list_elem_of_fmap. }
  assert (Hkept : ∀ cid msgs st,
            touch_calls cid msgs = [] ∨ update_fault w cid ≠ NoFault →
            touch_store w cid msgs st = st).
  { intros cid msgs st H. unfold touch_store.
    destruct H as [-> | H]; [done|].
    destruct (touch_calls cid msgs) as [|[] [|? ?]]; try done.
    by destruct (update_fault w cid). }
  split.
  - intros s cid conv chat msgs Hb Hl s'.
    destruct (sync_one_calls _ _ _ _ _ _ Hb Hl) as [Hcalls Hstore].
    cbv zeta in Hcalls, Hstore. fold s' in Hcalls, Hstore.
    pose proof (sync_one_run _ _ _ _ _ _ Hb) as Hrun. cbv zeta in Hrun.
    assert (Hresp : fst (sync_one w cid s)
              = match touch_outcome w cid msgs with
                | Returned _ =>
                    SyncResult cid (length msgs)
                      (length (rows_saved w
                         (rows_to_save cid (Conversation.user_id conv)
                            (seen_ids w (store s) cid) msgs)))
                      (length (duplicates (seen_ids w (store s) cid) msgs))
                | Thrown e => ServerError e
                end).
    { rewrite Hrun. by destruct (message_ids_fault w cid). }
    destruct (latest_message msgs) as [latest|] eqn:Hlatest.
    + destruct (latest_message_max _ _ Hlatest) as [Hin Hmax].
      split_and!; [done..|].
      destruct (Js.toISOString (Msg.timestamp latest * 1000)) as [iso|]
        eqn:Hiso.
      * split.
        { rewrite Hcalls, (touch_calls_valid _ _ _ _ Hlatest Hiso).
          apply last_app_singleton. }
        unfold touch_outcome in Hresp. rewrite Hlatest, Hiso in Hresp.
        destruct (update_fault w cid) eqn:Hu.
        -- assert (Hrow : filter (λ c, Conversation.id c = cid)
                            (conversations (store s'))
                          = [with_last_message_at iso conv]).
           { rewrite Hstore.
             rewrite (touch_store_valid _ _ _ _ _ _ Hlatest Hiso Hu).
             rewrite filter_set_last_message_at. cbn [conversations].
             apply fetched_batch_inv in Hb as (_ & _ & -> & _). done. }
           split_and!; [done | by rewrite Hrow | by rewrite Hresp].
        -- split; [|by rewrite Hresp].
           rewrite Hstore, Hkept; [done|]. right. congruence.
        -- split; [|by rewrite Hresp].
           rewrite Hstore, Hkept; [done|]. right. congruence.
      * assert (Hnone : touch_calls cid msgs = []).
        { unfold touch_calls. by rewrite Hlatest, Hiso. }
        split_and!.
        -- rewrite Hcalls, Hnone, app_nil_r. apply Forall_app.
           split; [by repeat constructor | apply Hsaves].
        -- rewrite Hstore, Hkept; [done|]. by left.
        -- rewrite Hresp. unfold touch_outcome. by rewrite Hlatest, Hiso.
    + apply latest_message_None in Hlatest as ->.
      split_and!; [done| | |].
      * rewrite (sync_one_run _ _ _ _ _ _ Hb). cbv zeta.
        by destruct (message_ids_fault w cid).
      * rewrite Hcalls. unfold rows_to_save, unseen, touch_calls.
        rewrite filter_nil. cbn [omap list_omap fmap list_fmap latest_message].
        rewrite !app_nil_r. unfold opening_calls. by repeat constructor.
      * rewrite Hstore. unfold rows_to_save, unseen, rows_saved.
        rewrite filter_nil. cbn [omap list_omap]. rewrite filter_nil.
        rewrite app_nil_r. cbn. by destruct (store s).
  - intros chats conv chat msgs b Hb Hl cid b'.
    destruct (turn_calls _ _ _ _ _ b Hb Hl) as (Hcalls & Hstore & Htotal).
    cbv zeta in Hcalls, Hstore, Htotal. fold cid b' in Hcalls, Hstore, Htotal.
    destruct (latest_message msgs) as [latest|] eqn:Hlatest.
    + destruct (latest_message_max _ _ Hlatest) as [Hin Hmax].
      split_and!; [done..|].
      destruct (Js.toISOString (Msg.timestamp latest * 1000)) as [iso|]
        eqn:Hiso.
      * split.
        { rewrite Hcalls, (touch_calls_valid _ _ _ _ Hlatest Hiso).
          apply last_app_singleton. }
        destruct (update_fault w cid) eqn:Hu.
        -- assert (Hrow : filter (λ c, Conversation.id c = cid)
                            (conversations (store (machine b')))
                          = with_last_message_at iso
                            <$> filter (λ c, Conversation.id c = cid)
                                       (conversations (store (machine b)))).
           { rewrite Hstore.
             rewrite (touch_store_valid _ _ _ _ _ _ Hlatest Hiso Hu).
             by rewrite filter_set_last_message_at. }
           split; [done|]. rewrite Hrow. apply Forall_fmap, Forall_forall.
           by intros c _.
        -- rewrite Hstore, Hkept; [done|]. right. congruence.
        -- rewrite Hstore, Hkept; [done|]. right. congruence.
      * assert (Hnone : touch_calls cid msgs = []).
        { unfold touch_calls. by rewrite Hlatest, Hiso. }
        split.
        -- rewrite Hcalls, Hnone, app_nil_r. apply Forall_app.
           split; [by repeat constructor | apply Hsaves].
        -- rewrite Hstore, Hkept; [done|]. by left.
    + apply latest_message_None in Hlatest as ->.
      assert (Hrows : rows_to_save cid (Conversation.user_id conv)
                        (seen_ids w (store (machine b)) cid) [] = []) by done.
      rewrite Hrows in Hcalls, Hstore, Htotal.
      split_and!; [done| | | |].
      * rewrite Hcalls. unfold opening_calls_bulk. by repeat constructor.
      * rewrite Hstore. cbn. rewrite app_nil_r. by destruct (store (machine b)).
      * rewrite Htotal. cbn. lia.
      * subst b'. rewrite (turn_reached _ _ _ _ _ _ Hb).
        unfold after_turn. cbv zeta. fold cid. destruct (message_ids_fault w cid); try done.
        all: rewrite Hrows; cbn [touch_outcome latest_message rows_saved];
          by rewrite filter_nil.
Qed.

(** ** Order of the calls of a pass *)

Lemma save_calls_are_not_updates (rows : list MessageRow.t) :
  Forall (λ e, is_update e = false) (SaveMessage <$> rows).
Proof. induction rows; by constructor. Qed.

(** C4. In a single-conversation pass the messages that survive the
    deduplication filter are a subsequence of the fetched batch;
    [saveMessage] is called for them in that order (for all of them when
    every timestamp converts); the saved rows are appended to the store
    in that order; and the update of [last_message_at] is issued after
    every call of [saveMessage]. *)
Theorem C4_saved_in_session_order_then_touched w s cid conv chat msgs :
  fetched_batch w s cid = Some (conv, chat, msgs) →
  message_ids_fault w cid ≠ Throws →
  let existing := seen_ids w (store s) cid in
  let rows := rows_to_save cid (Conversation.user_id conv) existing msgs in
  let s' := snd (sync_one w cid s) in
  unseen existing msgs `sublist_of` msgs
  ∧ (MessageRow.message_id <$> rows)
      `sublist_of` (Msg.id_serialized <$> unseen existing msgs)
  ∧ (Forall (λ m, is_Some (Js.toISOString (Msg.timestamp m * 1000))) msgs →
     MessageRow.message_id <$> rows
     = Msg.id_serialized <$> unseen existing msgs)
  ∧ calls_since s s'
    = (opening_calls cid chat ++ (SaveMessage <$> rows)) ++ touch_calls cid msgs
  ∧ (∃ saved, messages (store s') = messages (store s) ++ saved
              ∧ saved `sublist_of` rows)
  ∧ (∀ i j row cid' iso,
       calls_since s s' !! i = Some (SaveMessage row) →
       calls_since s s' !! j = Some (UpdateLastMessageAt cid' iso) →
       (i < j)%nat).
Proof.
  intros Hb Hl existing rows s'.
  destruct (sync_one_calls _ _ _ _ _ _ Hb Hl) as [Hcalls Hstore].
  cbv zeta in Hcalls, Hstore. fold existing rows s' in Hcalls, Hstore.
  split_and!.
  - auto with sync.
  - apply omap_ids_sublist.
  - intros Hvalid. apply omap_ids_all.
    unfold unseen. apply Forall_forall.
    intros m [_ Hm]%list_elem_of_filter.
    rewrite Forall_forall in Hvalid. auto.
  - done.
  - exists (rows_saved w rows). split; [|auto with sync].
    by rewrite Hstore, messages_touch_store.
  - intros i j row cid' iso Hi Hj. rewrite Hcalls in Hi, Hj.
    set (before := opening_calls cid chat ++ (SaveMessage <$> rows)) in *.
    assert (Hbefore : Forall (λ e, is_update e = false) before).
    { apply Forall_app. split; [by repeat constructor|].
      apply save_calls_are_not_updates. }
    assert (Hi' : (i < length before)%nat).
    { destruct (decide (i < length before)%nat) as [|Hge]; [done|].
      rewrite lookup_app_r in Hi by lia.
      apply list_elem_of_lookup_2 in Hi.
      assert (Hns : Forall (λ e, is_save e = false) (touch_calls cid msgs))
        by auto with sync.
      rewrite Forall_forall in Hns. by apply Hns in Hi. }
    destruct (decide (j < length before)%nat) as [Hlt|]; [|lia].
    rewrite lookup_app_l in Hj by done.
    apply list_elem_of_lookup_2 in Hj.
    rewrite Forall_forall in Hbefore. by apply Hbefore in Hj.
Qed.

(** ** Failure of the identifier lookup *)





(** ** What a turn of the bulk loop adds up *)

(** The entries pushed, and the rows saved, by one turn. *)
Lemma turn_effect w chats conv b :
  let b' := turn w chats conv b in
  ∃ saved calls,
    messages (store (machine b')) = messages (store (machine b)) ++ saved
    ∧ trace (machine b') = trace (machine b) ++ calls
    ∧ totalNewMessages b' = (totalNewMessages b + length saved)%nat
    ∧ (syncResults b' = syncResults b
       ∧ conversationsSynced b' = conversationsSynced b
       ∨ (0 < length saved)%nat
         ∧ syncResults b'
           = syncResults b ++ [mkEntry (Conversation.id conv)
                                       (Conversation.phone_number conv)
                                       (length saved)]
         ∧ conversationsSynced b' = S (conversationsSynced b)).
Proof.
  cbv zeta.
  destruct (fetched_batch_bulk w chats conv) as [[chat msgs]|] eqn:Hb.
  - rewrite (turn_reached _ _ _ _ _ _ Hb). unfold after_turn. cbv zeta.
    set (cid := Conversation.id conv).
    set (rows := rows_to_save cid _ _ msgs).
    destruct (message_ids_fault w cid).
    3:{ exists [], (opening_calls_bulk cid chat). unfold with_machine, advance.
        cbn [machine store messages trace totalNewMessages syncResults
             conversationsSynced length].
        rewrite Nat.add_0_r. by auto 10. }
    all: exists (rows_saved w rows),
           ((opening_calls_bulk cid chat ++ (SaveMessage <$> rows))
            ++ touch_calls cid msgs).
    all: destruct (touch_outcome w cid msgs) as [[]|];
      [destruct (decide (0 < length (rows_saved w rows))%nat)|];
      unfold with_machine;
      cbn [machine totalNewMessages syncResults conversationsSynced];
      rewrite advance_advance, trace_touch; unfold touch;
      cbn [store]; rewrite messages_touch_store; unfold advance;
      cbn [store messages trace app]; rewrite <- ?app_assoc; by auto 10.
  - rewrite (turn_unreached _ _ _ _ Hb). unfold after_early_turn.
    destruct (target_chat chats conv) as [[chat|]|].
    + exists [], [FetchMessages (Chat.id_serialized chat) 100].
      unfold with_machine, advance.
      cbn [machine store messages trace totalNewMessages syncResults
           conversationsSynced length].
      rewrite Nat.add_0_r. by auto 10.
    + exists [], []. rewrite !app_nil_r, Nat.add_0_r. by auto 10.
    + exists [], []. rewrite !app_nil_r, Nat.add_0_r. by auto 10.
Qed.

Lemma turns_cons w chats conv page b :
  turns w chats (conv :: page) b = turns w chats page (turn w chats conv b).
Proof. done. Qed.

Lemma turns_effect w chats page b :
  let b' := turns w chats page b in
  ∃ saved calls entries,
    messages (store (machine b')) = messages (store (machine b)) ++ saved
    ∧ trace (machine b') = trace (machine b) ++ calls
    ∧ totalNewMessages b' = (totalNewMessages b + length saved)%nat
    ∧ syncResults b' = syncResults b ++ entries
    ∧ conversationsSynced b' = (conversationsSynced b + length entries)%nat
    ∧ Forall (λ e, (0 < entry_newMessages e)%nat) entries
    ∧ (entry_conversationId <$> entries) `sublist_of` (Conversation.id <$> page)
    ∧ (sum_list (entry_newMessages <$> entries) ≤ length saved)%nat.
Proof.
  cbv zeta. revert b. induction page as [|conv page IH]; intros b.
  - exists [], [], []. cbn. rewrite !app_nil_r, !Nat.add_0_r.
    split_and!; done.
  - rewrite turns_cons.
    destruct (turn_effect w chats conv b)
      as (saved1 & calls1 & Hm1 & Ht1 & Hn1 & Hr1).
    destruct (IH (turn w chats conv b))
      as (saved2 & calls2 & entries2 & Hm2 & Ht2 & Hn2 & Hr2 & Hs2 & Hpos
          & Hsub & Hsum).
    destruct Hr1 as [[Hr1 Hc1]|(Hk & Hr1 & Hc1)].
    + exists (saved1 ++ saved2), (calls1 ++ calls2), entries2.
      rewrite Hm2, Hm1, Ht2, Ht1, Hn2, Hn1, Hr2, Hr1, Hs2, Hc1.
      rewrite !app_assoc, length_app. split_and!; try done; try lia.
      rewrite fmap_cons. by apply sublist_cons.
    + exists (saved1 ++ saved2), (calls1 ++ calls2),
        (mkEntry (Conversation.id conv) (Conversation.phone_number conv)
                 (length saved1) :: entries2).
      rewrite Hm2, Hm1, Ht2, Ht1, Hn2, Hn1, Hr2, Hr1, Hs2, Hc1.
      rewrite <- !app_assoc, length_app. cbn [app length].
      split_and!; try done; try lia.
      * by constructor.
      * rewrite !fmap_cons. by apply sublist_skip.
      * rewrite fmap_cons. cbn [sum_list sum_list_with entry_newMessages].
        change (sum_list_with id (entry_newMessages <$> entries2))
          with (sum_list (entry_newMessages <$> entries2)).
        change (id (length saved1)) with (length saved1). lia.
Qed.

(** C6 (amended). Bulk sync pushes at most one entry per conversation:
    one when the turn of the conversation ran to its end and saved at
    least one new message, none when nothing new was saved, although the
    conversation was processed.  An entry counts the rows its turn added
    to the store.  The entries follow the order of the page,
    [conversationsSynced] is their number, and the grand total is the
    number of rows the pass added to the store, at least the sum over the
    entries. *)
Theorem C6_bulk_results_and_total w :
  (∀ chats conv chat msgs b,
     fetched_batch_bulk w chats conv = Some (chat, msgs) →
     turn_outcome w conv msgs = Returned tt →
     let cid := Conversation.id conv in
     let saved := rows_saved w (rows_to_save cid (Conversation.user_id conv)
                     (seen_ids w (store (machine b)) cid) msgs) in
     let b' := turn w chats conv b in
     totalNewMessages b' = (totalNewMessages b + length saved)%nat
     ∧ syncResults b'
       = syncResults b
         ++ (if decide (0 < length saved)%nat
             then [mkEntry cid (Conversation.phone_number conv) (length saved)]
             else []))
  ∧ (∀ chats conv b,
       let b' := turn w chats conv b in
       ∃ saved,
         messages (store (machine b')) = messages (store (machine b)) ++ saved
         ∧ totalNewMessages b' = (totalNewMessages b + length saved)%nat
         ∧ (syncResults b' = syncResults b
            ∨ (0 < length saved)%nat
              ∧ syncResults b'
                = syncResults b ++ [mkEntry (Conversation.id conv)
                                            (Conversation.phone_number conv)
                                            (length saved)]))
  ∧ (∀ s page chats,
       bulk_inputs w s = Some (page, chats) →
       ∃ total synced results,
         fst (sync_all w s) = BulkSyncResult total synced (length page) results
         ∧ synced = length results
         ∧ Forall (λ e, (0 < entry_newMessages e)%nat) results
         ∧ (entry_conversationId <$> results)
             `sublist_of` (Conversation.id <$> page)
         ∧ (sum_list (entry_newMessages <$> results) ≤ total)%nat
         ∧ length (messages (store (snd (sync_all w s))))
           = (length (messages (store s)) + total)%nat).
Proof.
  split_and!.
  - intros chats conv chat msgs b Hb Hout cid saved b'. subst b'.
    rewrite (turn_reached _ _ _ _ _ _ Hb). unfold after_turn.
    unfold turn_outcome in Hout. cbv zeta. fold cid. fold cid in Hout.
    destruct (message_ids_fault w cid); try done.
    all: rewrite Hout; fold saved;
      destruct (decide (0 < length saved)%nat); unfold with_machine;
      cbn [totalNewMessages syncResults]; by rewrite ?app_nil_r.
  - intros chats conv b.
    destruct (turn_effect w chats conv b)
      as (saved & calls & Hm & _ & Hn & Hr).
    exists saved. split_and!; [done..|].
    destruct Hr as [[Hr _]|(Hk & Hr & _)]; auto.
  - intros s page chats Hin. rewrite (sync_all_run _ _ _ _ Hin). cbv zeta.
    cbn [fst snd].
    destruct (turns_effect w chats page
      (mkBulk (advance s [] [SelectConversationsPage; GetChats]) 0 0 []))
      as (saved & calls & entries & Hm & Ht & Hn & Hr & Hs & Hpos & Hsub
          & Hsum).
    cbv zeta in Hm, Ht, Hn, Hr, Hs.
    cbn [machine totalNewMessages conversationsSynced syncResults app
         Nat.add] in Hm, Ht, Hn, Hr, Hs.
    do 3 eexists. split; [done|].
    rewrite Hs, Hr, Hn, Hm. unfold advance. cbn [store messages].
    rewrite app_nil_r, length_app. split_and!; done.
Qed.

(** ** Failures inside the bulk loop *)

Lemma turn_fetches w chats conv chat b :
  target_chat chats conv = Returned (Some chat) →
  ∃ calls, trace (machine (turn w chats conv b))
           = trace (machine b)
             ++ FetchMessages (Chat.id_serialized chat) 100 :: calls.
Proof.
  intros Ht.
  destruct (fetched_batch_bulk w chats conv) as [[chat' msgs]|] eqn:Hb.
  - assert (chat' = chat) as ->.
    { unfold fetched_batch_bulk in Hb. rewrite Ht in Hb.
      destruct (messages_answer w _ _); [|done]. by injection Hb. }
    rewrite (turn_reached _ _ _ _ _ _ Hb). unfold after_turn. cbv zeta.
    destruct (message_ids_fault w (Conversation.id conv)).
    3:{ eexists. unfold with_machine, advance, opening_calls_bulk.
        cbn [machine trace]. done. }
    all: destruct (touch_outcome w _ msgs) as [[]|];
      [destruct (decide _)|]; unfold with_machine;
      cbn [machine]; rewrite advance_advance, trace_touch;
      unfold advance, opening_calls_bulk; cbn [trace app];
      rewrite <- app_assoc; cbn [app]; eauto.
  - rewrite (turn_unreached _ _ _ _ Hb). unfold after_early_turn.
    rewrite Ht. exists []. done.
Qed.

Lemma turns_trace w chats page b :
  ∃ calls, trace (machine (turns w chats page b)) = trace (machine b) ++ calls.
Proof.
  destruct (turns_effect w chats page b) as (? & calls & ? & _ & Ht & _).
  eauto.
Qed.

Lemma turns_fetch_every_chat w chats page b conv chat :
  conv ∈ page →
  target_chat chats conv = Returned (Some chat) →
  FetchMessages (Chat.id_serialized chat) 100
    ∈ calls_since (machine b) (machine (turns w chats page b)).
Proof.
  intros Hin Ht. unfold calls_since. revert b.
  induction page as [|c page IH]; intros b; [by apply elem_of_nil in Hin|].
  rewrite turns_cons.
  apply elem_of_cons in Hin as [<-|Hin].
  - destruct (turn_fetches w chats conv chat b Ht) as [calls1 Hc1].
    destruct (turns_trace w chats page (turn w chats conv b)) as [calls2 Hc2].
    rewrite Hc2, Hc1, <- app_assoc, drop_app_length.
    apply elem_of_app. left. by left.
  - destruct (turn_effect w chats c b) as (? & calls1 & _ & Hc1 & _).
    specialize (IH Hin (turn w chats c b)).
    destruct (turns_trace w chats page (turn w chats c b)) as [calls2 Hc2].
    rewrite Hc2, Hc1 in IH |- *.
    rewrite <- app_assoc, drop_app_length.
    rewrite drop_app_length in IH.
    apply elem_of_app. by right.
Qed.

(** C7 (amended). In bulk sync an exception raised while a conversation
    is processed is caught and the loop goes on: it always reaches the
    end of the page, and every conversation of the page with a live chat
    has its messages fetched.  The failed conversation gets no entry and
    is not counted in [conversationsSynced].  When the failure comes
    before the save loop (chat matching, message fetch, identifier
    lookup) the store and the grand total are left as they were; in every
    case the grand total grows by the number of rows the turn did add to
    the store. *)
Theorem C7_bulk_failure_is_contained w chats :
  (∀ page b,
     sync_each w chats page b = (Returned tt, turns w chats page b)
     ∧ ∀ conv chat,
         conv ∈ page →
         target_chat chats conv = Returned (Some chat) →
         FetchMessages (Chat.id_serialized chat) 100
           ∈ calls_since (machine b) (machine (turns w chats page b)))
  ∧ (∀ conv b e,
       fst (sync_one_of_all_try w chats conv b) = Thrown e →
       let b' := turn w chats conv b in
       sync_one_of_all w chats conv b = (Returned tt, b')
       ∧ syncResults b' = syncResults b
       ∧ conversationsSynced b' = conversationsSynced b
       ∧ totalNewMessages b'
         = (totalNewMessages b
            + (length (messages (store (machine b')))
               - length (messages (store (machine b)))))%nat)
  ∧ (∀ conv b,
       fetched_batch_bulk w chats conv = None
       ∨ message_ids_fault w (Conversation.id conv) = Throws →
       let b' := turn w chats conv b in
       store (machine b') = store (machine b)
       ∧ totalNewMessages b' = totalNewMessages b
       ∧ syncResults b' = syncResults b
       ∧ conversationsSynced b' = conversationsSynced b).
Proof.
  split_and!.
  - intros page b. split; [apply sync_each_returns|].
    intros conv chat. apply turns_fetch_every_chat.
  - intros conv b e Hthrown b'. subst b'.
    split; [apply sync_one_of_all_returns|].
    destruct (fetched_batch_bulk w chats conv) as [[chat msgs]|] eqn:Hb.
    + rewrite (try_reached _ _ _ _ _ _ Hb) in Hthrown. cbn [fst] in Hthrown.
      rewrite (turn_reached _ _ _ _ _ _ Hb). unfold after_turn. cbv zeta.
      unfold turn_outcome in Hthrown.
      destruct (message_ids_fault w (Conversation.id conv)).
      3:{ unfold with_machine, advance.
          cbn [machine store messages totalNewMessages syncResults
               conversationsSynced].
          rewrite app_nil_r. split_and!; try done. lia. }
      all: rewrite Hthrown; unfold with_machine, touch;
        cbn [machine store totalNewMessages syncResults conversationsSynced];
        rewrite messages_touch_store; unfold advance;
        cbn [store messages app]; rewrite app_nil_r, length_app;
        split_and!; try done; lia.
    + rewrite (turn_unreached _ _ _ _ Hb). unfold after_early_turn.
      destruct (target_chat chats conv) as [[chat|]|].
      * unfold with_machine, advance.
        cbn [machine store messages totalNewMessages syncResults
             conversationsSynced].
        rewrite app_nil_r. split_and!; try done. lia.
      * split_and!; try done. lia.
      * split_and!; try done. lia.
  - intros conv b Hearly b'. subst b'.
    destruct (fetched_batch_bulk w chats conv) as [[chat msgs]|] eqn:Hb.
    + destruct Hearly as [|Hl]; [done|].
      rewrite (turn_reached _ _ _ _ _ _ Hb). unfold after_turn. cbv zeta.
      rewrite Hl. unfold with_machine, advance.
      cbn [machine store messages totalNewMessages syncResults
           conversationsSynced].
      rewrite app_nil_r, Nat.add_0_r. split_and!; try done.
      by destruct (store (machine b)).
    + rewrite (turn_unreached _ _ _ _ Hb). unfold after_early_turn.
      destruct (target_chat chats conv) as [[chat|]|]; try done.
      unfold with_machine, advance.
      cbn [machine store messages totalNewMessages syncResults
           conversationsSynced].
      rewrite app_nil_r, Nat.add_0_r. split_and!; try done.
      by destruct (store (machine b)).
Qed.

(** ** At most one row per external identifier *)

Lemma stored_ids_key st cid mid :
  mid ∈ stored_ids st cid ↔ (cid, mid) ∈ row_key <$> messages st.
Proof.
  unfold stored_ids, rows_of_conversation, row_key.
  rewrite !list_elem_of_fmap. split.
  - intros (r & -> & [<- Hr]%list_elem_of_filter). by exists r.
  - intros (r & [= -> ->] & Hr). exists r. split; [done|].
    by apply list_elem_of_filter.
Qed.




Lemma rows_to_save_NoDup cid uid ex msgs :
  NoDup (Msg.id_serialized <$> msgs) →
  NoDup (MessageRow.message_id <$> rows_to_save cid uid ex msgs).
Proof.
  intros Hnd. eapply sublist_NoDup; [exact Hnd|].
  etrans; [apply omap_ids_sublist|].
  apply fmap_sublist, unseen_sublist.
Qed.

Lemma rows_saved_NoDup w rows :
  NoDup (MessageRow.message_id <$> rows) →
  NoDup (MessageRow.message_id <$> rows_saved w rows).
Proof.
  intros Hnd. eapply sublist_NoDup; [exact Hnd|].
  apply fmap_sublist, rows_saved_sublist.
Qed.

Lemma rows_to_save_fresh w st cid uid msgs r :
  message_ids_fault w cid = NoFault →
  r ∈ rows_to_save cid uid (seen_ids w st cid) msgs →
  MessageRow.conversation_id r = cid
  ∧ MessageRow.message_id r ∉ stored_ids st cid.
Proof.
  intros Hl (Hcid & Hnew & _)%rows_to_save_spec. split; [done|].
  unfold seen_ids in Hnew. rewrite Hl in Hnew.
  by rewrite elem_of_list_to_set in Hnew.
Qed.

Lemma save_call_in (rows : list MessageRow.t) before after row :
  Forall (λ e, is_save e = false) before →
  Forall (λ e, is_save e = false) after →
  SaveMessage row ∈ (before ++ (SaveMessage <$> rows)) ++ after →
  row ∈ rows.
Proof.
  intros Hb Ha. rewrite !elem_of_app. intros [[H|H]|H].
  - rewrite Forall_forall in Hb. by apply Hb in H.
  - apply list_elem_of_fmap in H as (r & [= ->] & Hr). done.
  - rewrite Forall_forall in Ha. by apply Ha in H.
Qed.

(** [H] says that a call of [saveMessage] is among calls that are all of
    another kind. *)
Ltac not_a_save_call H :=
  match type of H with
  | _ ∈ ?calls =>
      let Hno := fresh "Hno" in
      assert (Hno : Forall (λ e, is_save e = false) calls)
        by (by repeat constructor);
      rewrite Forall_forall in Hno; by apply Hno in H
  end.

(** What a single-conversation pass saves. *)
Lemma sync_one_saves w s cid :
  message_ids_fault w cid ≠ ReturnsError →
  let s' := snd (sync_one w cid s) in
  ∃ saved,
    messages (store s') = messages (store s) ++ saved
    ∧ (∀ row, SaveMessage row ∈ calls_since s s' →
         MessageRow.conversation_id row = cid
         ∧ MessageRow.message_id row ∉ stored_ids (store s) cid)
    ∧ (∀ r, r ∈ saved →
         MessageRow.conversation_id r = cid
         ∧ MessageRow.message_id r ∉ stored_ids (store s) cid)
    ∧ (distinct_ids w → NoDup (MessageRow.message_id <$> saved)).
Proof.
  intros Hl. cbv zeta.
  destruct (fetched_batch w s cid) as [[[conv chat] msgs]|] eqn:Hb.
  - destruct (decide (message_ids_fault w cid = Throws)) as [Ht|Ht].
    + rewrite (sync_one_run _ _ _ _ _ _ Hb). cbv zeta. rewrite Ht.
      cbn [snd]. exists []. rewrite calls_since_advance.
      unfold advance. cbn [store messages]. split_and!; try done.
      * intros row Hrow.
        not_a_save_call Hrow.
      * intros r []%elem_of_nil.
      * intros _. constructor.
    + assert (Hok : message_ids_fault w cid = NoFault)
        by (destruct (message_ids_fault w cid); done).
      destruct (sync_one_calls _ _ _ _ _ _ Hb Ht) as [Hcalls Hstore].
      cbv zeta in Hcalls, Hstore.
      set (rows := rows_to_save cid (Conversation.user_id conv)
                     (seen_ids w (store s) cid) msgs) in *.
      exists (rows_saved w rows). split_and!.
      * by rewrite Hstore, messages_touch_store.
      * intros row Hrow. rewrite Hcalls in Hrow.
        apply save_call_in in Hrow;
          [|by repeat constructor|apply touch_calls_no_save].
        by eapply rows_to_save_fresh.
      * intros r Hr. eapply rows_to_save_fresh; [done|].
        eapply elem_of_sublist; [exact Hr|apply rows_saved_sublist].
      * intros Hd. apply rows_saved_NoDup, rows_to_save_NoDup.
        apply fetched_batch_inv in Hb as (_ & _ & _ & chats & _ & _ & Hm).
        by eapply Hd.
  - destruct (sync_one_early _ _ _ Hb) as (calls & -> & Hcalls).
    exists []. rewrite calls_since_advance. unfold advance.
    cbn [store messages]. split_and!; try done.
    + intros row Hrow. rewrite Forall_forall in Hcalls.
      by apply Hcalls in Hrow.
    + intros r []%elem_of_nil.
    + intros _. constructor.
Qed.



Lemma sync_all_early w s :
  bulk_inputs w s = None →
  ∃ calls, snd (sync_all w s) = advance s [] calls
           ∧ Forall (λ e, is_store_write e = false) calls.
Proof.
  unfold bulk_inputs, sync_all, syncAllConversationsHistory, try_catch,
    syncAllConversationsHistory_try.
  destruct (client_connected w); cbn [negb].
  2:{ intros _. exists []. by rewrite advance_nil. }
  unfold bind at 1, zoom at 1, select_conversations_page, bind at 1, emit,
    modify, gets.
  cbn [machine store trace].
  destruct (page_fault w); cbn [error data ret throw snd machine].
  2,3: unfold ret, throw; stops_after s [SelectConversationsPage].
  unfold bind at 1, zoom at 1, getChats, bind at 1, emit, modify, await.
  cbn [machine store trace].
  destruct (chats_answer w); [done|].
  stops_after s [SelectConversationsPage; GetChats].
Qed.




(** ** Running a pass twice *)

Lemma length_unseen_duplicates ex msgs :
  (length (unseen ex msgs) + length (duplicates ex msgs) = length msgs)%nat.
Proof.
  induction msgs as [|m msgs IH]; [done|].
  destruct (decide (Msg.id_serialized m ∈ ex)).
  - rewrite unseen_cons_in, duplicates_cons_in by done. cbn [length]. lia.
  - rewrite unseen_cons_notin, duplicates_cons_notin by done. cbn [length]. lia.
Qed.


Lemma length_omap_le {A B} (f : A → option B) (l : list A) :
  (length (omap f l) ≤ length l)%nat.
Proof.
  induction l as [|x l IH]; [done|]. cbn [omap list_omap].
  destruct (f x); cbn [length]; lia.
Qed.



Lemma target_chat_same_phone chats conv conv' :
  Conversation.phone_number conv' = Conversation.phone_number conv →
  target_chat chats conv' = target_chat chats conv.
Proof. unfold target_chat. by intros ->. Qed.





(** ** The properties at work on the example session *)




Lemma C3_witness :
  fetched_batch Demo.world Demo.with_a "c1"
  = Some (Demo.alice, Demo.alice_chat, Demo.batch)
  ∧ last (calls_since Demo.with_a (snd (sync_one Demo.world "c1" Demo.with_a)))
    = Some (UpdateLastMessageAt "c1" "1970-01-01T00:03:20.000Z")
  ∧ Conversation.last_message_at
      <$> filter (λ c, Conversation.id c = "c1")
                 (conversations
                    (store (snd (sync_one Demo.world "c1" Demo.with_a))))
    = [Some "1970-01-01T00:03:20.000Z"].
Proof.
  assert (Hb : fetched_batch Demo.world Demo.with_a "c1"
               = Some (Demo.alice, Demo.alice_chat, Demo.batch))
    by (vm_compute; reflexivity).
  split; [exact Hb|].
  assert (Hl : message_ids_fault Demo.world "c1" ≠ Throws) by compute_done.
  pose proof (proj1 (C3_last_message_at_is_batch_maximum Demo.world)
                Demo.with_a "c1" Demo.alice Demo.alice_chat Demo.batch Hb Hl)
    as H.
  cbv zeta in H. cbn [latest_message Demo.batch] in H.
  destruct H as (_ & _ & H).
  assert (Hiso : Js.toISOString
                   (Msg.timestamp
                      (Js.reduce later (Demo.msg "a" 100)
                                 [Demo.msg "b" 200; Demo.msg "c" 150]) * 1000)
                 = Some "1970-01-01T00:03:20.000Z")
    by (vm_compute; reflexivity).
  rewrite Hiso in H. destruct H as (Hlast & H).
  change (update_fault Demo.world "c1") with NoFault in H.
  destruct H as (_ & Hcolumn & _). by split.
Defined.



(** C3, as stated, fails.  First, the batch is not empty and the store
    answers the timestamp update with an error object: the pass answers
    200 and [last_message_at] is not set.  Second, the batch holds a
    timestamp that [Date] cannot represent, which is its maximum: the
    conversion raises, the pass answers with a server error after saving
    message "a", no update is issued and [last_message_at] is not set. *)
Lemma C3_counterexample :
  fetched_batch (Demo.with_update ReturnsError Demo.world) Demo.fresh "c1"
  = Some (Demo.alice, Demo.alice_chat, Demo.batch)
  ∧ fst (sync_one (Demo.with_update ReturnsError Demo.world) "c1" Demo.fresh)
    = SyncResult "c1" 3 3 0
  ∧ last (calls_since Demo.fresh
            (snd (sync_one (Demo.with_update ReturnsError Demo.world) "c1"
                           Demo.fresh)))
    = Some (UpdateLastMessageAt "c1" "1970-01-01T00:03:20.000Z")
  ∧ Conversation.last_message_at
      <$> conversations
            (store (snd (sync_one (Demo.with_update ReturnsError Demo.world)
                                  "c1" Demo.fresh)))
    = [None]
  ∧ fetched_batch (Demo.with_batch Demo.batch_out_of_range Demo.world)
                  Demo.fresh "c1"
    = Some (Demo.alice, Demo.alice_chat, Demo.batch_out_of_range)
  ∧ fst (sync_one (Demo.with_batch Demo.batch_out_of_range Demo.world) "c1"
                  Demo.fresh)
    = ServerError Js.RangeError
  ∧ calls_since Demo.fresh
      (snd (sync_one (Demo.with_batch Demo.batch_out_of_range Demo.world)
                     "c1" Demo.fresh))
    = [SelectConversation "c1"; GetChats;
       FetchMessages "33612345678@c.us" 999999; SelectMessageIds "c1";
       SaveMessage (Demo.row "a" "1970-01-01T00:01:40.000Z")]
  ∧ Conversation.last_message_at
      <$> conversations
            (store (snd (sync_one
                           (Demo.with_batch Demo.batch_out_of_range Demo.world)
                           "c1" Demo.fresh)))
    = [None].
Proof. vm_compute. done. Qed.

Lemma C4_witness :
  fetched_batch Demo.world Demo.with_a "c1"
  = Some (Demo.alice, Demo.alice_chat, Demo.batch)
  ∧ calls_since Demo.with_a (snd (sync_one Demo.world "c1" Demo.with_a))
    = [SelectConversation "c1"; GetChats;
       FetchMessages "33612345678@c.us" 999999; SelectMessageIds "c1";
       SaveMessage (Demo.row "b" "1970-01-01T00:03:20.000Z");
       SaveMessage (Demo.row "c" "1970-01-01T00:02:30.000Z");
       UpdateLastMessageAt "c1" "1970-01-01T00:03:20.000Z"].
Proof.
  assert (Hb : fetched_batch Demo.world Demo.with_a "c1"
               = Some (Demo.alice, Demo.alice_chat, Demo.batch))
    by (vm_compute; reflexivity).
  split; [exact Hb|].
  assert (Hl : message_ids_fault Demo.world "c1" ≠ Throws) by compute_done.
  destruct (C4_saved_in_session_order_then_touched Demo.world Demo.with_a
              "c1" Demo.alice Demo.alice_chat Demo.batch Hb Hl)
    as (_ & _ & _ & Hcalls & _).
  rewrite Hcalls. vm_compute. reflexivity.
Defined.



Lemma C6_witness :
  bulk_inputs Demo.world Demo.with_a
  = Some ([Demo.alice], [Chat.mk "4915112345678@c.us"; Demo.alice_chat])
  ∧ ∃ total synced results,
      fst (sync_all Demo.world Demo.with_a)
      = BulkSyncResult total synced 1 results
      ∧ synced = length results
      ∧ (sum_list (entry_newMessages <$> results) ≤ total)%nat.
Proof.
  assert (Hin : bulk_inputs Demo.world Demo.with_a
                = Some ([Demo.alice],
                        [Chat.mk "4915112345678@c.us"; Demo.alice_chat]))
    by (vm_compute; reflexivity).
  split; [exact Hin|].
  destruct (C6_bulk_results_and_total Demo.world) as (_ & _ & Hall).
  destruct (Hall Demo.with_a _ _ Hin)
    as (total & synced & results & Hr & Hs & _ & _ & Hsum & _).
  exists total, synced, results. by split_and!.
Defined.

(** C6, as stated, fails: the only conversation of the page is processed
    (its messages are fetched, its timestamp is updated), all three
    messages are already stored, and [syncResults] stays empty. *)
Lemma C6_counterexample :
  fst (sync_all Demo.world (snd (sync_one Demo.world "c1" Demo.fresh)))
  = BulkSyncResult 0 0 1 []
  ∧ calls_since (snd (sync_one Demo.world "c1" Demo.fresh))
      (snd (sync_all Demo.world (snd (sync_one Demo.world "c1" Demo.fresh))))
    = [SelectConversationsPage; GetChats;
       FetchMessages "33612345678@c.us" 100; SelectMessageIds "c1";
       UpdateLastMessageAt "c1" "1970-01-01T00:03:20.000Z"].
Proof. vm_compute. done. Qed.

Lemma C7_witness :
  fst (sync_one_of_all_try Demo.world
         [Chat.mk "4915112345678@c.us"; Demo.alice_chat]
         (Conversation.mk "c3" None None None None None)
         (mkBulk Demo.five_tracked 0 0 []))
  = Thrown Js.TypeError
  ∧ sync_one_of_all Demo.world
      [Chat.mk "4915112345678@c.us"; Demo.alice_chat]
      (Conversation.mk "c3" None None None None None)
      (mkBulk Demo.five_tracked 0 0 [])
    = (Returned tt, mkBulk Demo.five_tracked 0 0 []).
Proof.
  assert (Ht : fst (sync_one_of_all_try Demo.world
                      [Chat.mk "4915112345678@c.us"; Demo.alice_chat]
                      (Conversation.mk "c3" None None None None None)
                      (mkBulk Demo.five_tracked 0 0 []))
               = Thrown Js.TypeError) by (vm_compute; reflexivity).
  split; [exact Ht|].
  destruct (C7_bulk_failure_is_contained Demo.world
              [Chat.mk "4915112345678@c.us"; Demo.alice_chat])
    as (_ & Hfail & _).
  destruct (Hfail _ _ _ Ht) as (Hret & _).
  rewrite Hret. vm_compute. reflexivity.
Defined.

(** C7, as stated, fails: the messaging session hands over a message
    whose timestamp [Date] cannot represent.  Message "a" is saved and
    counted, then the timestamp update of the conversation raises; the
    conversation gets no entry, yet the grand total counts its message.
    The same happens when the update call itself rejects. *)
Lemma C7_counterexample :
  fst (sync_one_of_all_try (Demo.with_batch Demo.batch_out_of_range Demo.world)
         [Demo.alice_chat] Demo.alice (mkBulk Demo.fresh 0 0 []))
  = Thrown Js.RangeError
  ∧ fst (sync_all (Demo.with_batch Demo.batch_out_of_range Demo.world)
                  Demo.fresh)
    = BulkSyncResult 1 0 1 []
  ∧ fst (sync_one_of_all_try (Demo.with_update Throws Demo.world)
           [Demo.alice_chat] Demo.alice (mkBulk Demo.fresh 0 0 []))
    = Thrown Js.Rejected
  ∧ fst (sync_all (Demo.with_update Throws Demo.world) Demo.fresh)
    = BulkSyncResult 3 0 1 [].
Proof. vm_compute. done. Qed.

Lemma C8_witness :
  ("nope" ∉ Conversation.id <$> conversations (store Demo.fresh))
  ∧ fst (sync_one Demo.world "nope" Demo.fresh) = NotFound
  ∧ store (snd (sync_one Demo.world "nope" Demo.fresh)) = store Demo.fresh.
Proof.
  assert (Habs : "nope" ∉ Conversation.id <$> conversations (store Demo.fresh))
    by compute_done.
  split; [exact Habs|].
  destruct (C8_absent_conversation_not_found Demo.world "nope" Demo.fresh Habs)
    as (Hstore & _ & Hresp).
  split; [apply Hresp; [reflexivity | compute_done] | exact Hstore].
Defined.

Lemma C9_witness :
  Js.find (same_number "33612345678")
          [Chat.mk "4915112345678@c.us"; Demo.alice_chat]
  = Some Demo.alice_chat
  ∧ Js.replace "@c.us" "" "33612345678@c.us" = "33612345678"
  ∧ ∃ rest, calls_since Demo.fresh (snd (sync_one Demo.world "c1" Demo.fresh))
            = [SelectConversation "c1"; GetChats;
               FetchMessages "33612345678@c.us" 999999] ++ rest.
Proof.
  split; [vm_compute; reflexivity|].
  pose proof (C9_chat_matched_by_number Demo.world "c1" Demo.fresh Demo.alice
                [Chat.mk "4915112345678@c.us"; Demo.alice_chat] "33612345678"
                eq_refl eq_refl eq_refl eq_refl eq_refl) as [Hcore Hfind].
  split.
  - apply (Hcore "33612345678"). vm_compute; reflexivity.
  - change (Js.find (same_number "33612345678")
              [Chat.mk "4915112345678@c.us"; Demo.alice_chat])
      with (Some Demo.alice_chat) in Hfind.
    destruct Hfind as (_ & _ & Hcalls). exact Hcalls.
Defined.

Lemma C10_witness :
  target_chat [Chat.mk "4915112345678@c.us"; Demo.alice_chat]
              (Conversation.mk "c5" (Some "12025550100") None None None None)
  = Returned None
  ∧ ∃ total synced results,
      fst (sync_all Demo.world Demo.five_tracked)
      = BulkSyncResult total synced 5 results.
Proof.
  split; [vm_compute; reflexivity|].
  destruct (C10_bulk_skips_unmatched_conversation Demo.world Demo.five_tracked
              Demo.five [Chat.mk "4915112345678@c.us"; Demo.alice_chat]
              (Conversation.mk "c5" (Some "12025550100") None None None None))
    as (_ & _ & (total & synced & results & Hr & _) & _).
  - vm_compute; reflexivity.
  - unfold Demo.five. by repeat constructor.
  - vm_compute; reflexivity.
  - exists total, synced, results. exact Hr.
Defined.

(** ** How a single-conversation pass can end *)

Ltac ends_after s :=
  intros _; unfold ret, throw, advance; cbn [fst snd trace store];
  rewrite ?app_nil_r, <- ?app_assoc; by destruct s as [[] ?].

Lemma sync_one_early_run w s cid :
  fetched_batch w s cid = None →
  sync_one w cid s
  = (early_response w s cid, advance s [] (early_calls w s cid)).
Proof.
  unfold fetched_batch, early_response, early_calls, sync_one,
    syncConversationHistory, try_catch, syncConversationHistory_try.
  destruct (client_connected w); cbn [negb].
  2:{ intros _. unfold ret. by rewrite advance_nil. }
  unfold bind at 1, select_conversation, bind at 1, emit, modify, gets.
  cbn [store trace].
  destruct (conversation_fault w cid).
  2,3: ends_after s.
  destruct (filter _ _) as [|c [|? ?]]; cbn [single data error].
  1,3: ends_after s.
  unfold bind at 1, getChats, bind at 1, emit, modify, await.
  destruct (chats_answer w) as [chats|].
  2: ends_after s.
  unfold bind at 1, find_target_chat, await.
  destruct (target_chat chats c) as [[t|]|].
  2,3: ends_after s.
  unfold bind at 1, fetchMessages, bind at 1, emit, modify, await.
  cbn [store trace].
  destruct (messages_answer w _ _); [done|].
  ends_after s.
Qed.

Lemma early_calls_write_nothing w s cid :
  Forall (λ e, is_store_write e = false) (early_calls w s cid).
Proof.
  unfold early_calls.
  destruct (client_connected w); [|constructor].
  destruct (conversation_fault w cid); try by repeat constructor.
  destruct (filter _ _) as [|c [|? ?]]; try by repeat constructor.
  destruct (chats_answer w) as [chats|]; [|by repeat constructor].
  destruct (target_chat chats c) as [[t|]|]; by repeat constructor.
Qed.

Lemma store_advance_nil s calls : store (advance s [] calls) = store s.
Proof. unfold advance. cbn [store]. rewrite app_nil_r. by destruct (store s). Qed.

Lemma sync_one_reached_response w s cid conv chat msgs :
  fetched_batch w s cid = Some (conv, chat, msgs) →
  match fst (sync_one w cid s) with
  | SyncResult _ _ _ _ | ServerError _ => True
  | _ => False
  end.
Proof.
  intros Hb. rewrite (sync_one_run _ _ _ _ _ _ Hb). cbv zeta.
  destruct (message_ids_fault w cid); cbn [fst]; try done.
  all: by destruct (touch_outcome w cid msgs).
Qed.

Lemma early_response_not_result w s cid total new skipped :
  early_response w s cid ≠ SyncResult cid total new skipped.
Proof.
  unfold early_response.
  destruct (client_connected w); [|done].
  destruct (conversation_fault w cid); try done.
  destruct (filter _ _) as [|c [|? ?]]; try done.
  destruct (chats_answer w) as [chats|]; [|done].
  destruct (target_chat chats c) as [[t|]|]; try done.
  by destruct (messages_answer w _ _).
Qed.

(** X1. Single-conversation sync answers SessionUnavailable exactly when
    the client is not connected, and then it issued no call at all; when
    it answers NotFound it issued only the conversation query; when it
    answers ChatNotFound it issued only that query and the chat listing.
    None of the three changed the store. *)
Theorem sync_one_refusals_touch_nothing w s cid :
  (fst (sync_one w cid s) = SessionUnavailable ↔ client_connected w = false)
  ∧ match fst (sync_one w cid s) with
    | SessionUnavailable => snd (sync_one w cid s) = s
    | NotFound =>
        calls_since s (snd (sync_one w cid s)) = [SelectConversation cid]
        ∧ store (snd (sync_one w cid s)) = store s
    | ChatNotFound =>
        calls_since s (snd (sync_one w cid s))
        = [SelectConversation cid; GetChats]
        ∧ store (snd (sync_one w cid s)) = store s
    | _ => True
    end.
Proof.
  destruct (fetched_batch w s cid) as [[[conv chat] msgs]|] eqn:Hb.
  - pose proof (sync_one_reached_response _ _ _ _ _ _ Hb) as Hr.
    apply fetched_batch_inv in Hb as (Hc & _).
    destruct (fst (sync_one w cid s)); try done.
    all: split; [split; [done | congruence] | done].
  - rewrite (sync_one_early_run _ _ _ Hb). cbn [fst snd].
    rewrite calls_since_advance, store_advance_nil.
    unfold early_response, early_calls.
    destruct (client_connected w); [|by rewrite advance_nil].
    destruct (conversation_fault w cid);
      try (split; [split; done | done]).
    destruct (filter _ _) as [|c [|? ?]];
      try (split; [split; done | done]).
    destruct (chats_answer w) as [chats|];
      [|split; [split; done | done]].
    destruct (target_chat chats c) as [[t|]|];
      try (split; [split; done | done]).
    destruct (messages_answer w _ _); split; try done; split; done.
Qed.

(** ** Counting in a single-conversation pass *)

Lemma sync_one_result_reached w s cid c total new skipped :
  fst (sync_one w cid s) = SyncResult c total new skipped →
  ∃ conv chat msgs,
    fetched_batch w s cid = Some (conv, chat, msgs)
    ∧ message_ids_fault w cid ≠ Throws
    ∧ touch_outcome w cid msgs = Returned tt
    ∧ c = cid ∧ total = length msgs
    ∧ new = length (rows_saved w (rows_to_save cid (Conversation.user_id conv)
                                    (seen_ids w (store s) cid) msgs))
    ∧ skipped = length (duplicates (seen_ids w (store s) cid) msgs).
Proof.
  intros Hr.
  destruct (fetched_batch w s cid) as [[[conv chat] msgs]|] eqn:Hb.
  - exists conv, chat, msgs. split; [done|].
    rewrite (sync_one_run _ _ _ _ _ _ Hb) in Hr. cbv zeta in Hr.
    destruct (message_ids_fault w cid); cbn [fst] in Hr; try done.
    all: destruct (touch_outcome w cid msgs) as [[]|]; [|done].
    all: injection Hr as <- <- <- <-; by split_and!.
  - rewrite (sync_one_early_run _ _ _ Hb) in Hr. cbn [fst] in Hr.
    unfold early_response in Hr.
    destruct (client_connected w); [|done].
    destruct (conversation_fault w cid); try done.
    destruct (filter _ _) as [|c0 [|? ?]]; try done.
    destruct (chats_answer w) as [chats|]; [|done].
    destruct (target_chat chats c0) as [[t|]|]; try done.
    by destruct (messages_answer w _ _).
Qed.

(** X2. In the answer of a single-conversation pass, the new and the
    skipped messages together never exceed the fetched ones;
    [newMessagesSaved] is the number of rows the pass added to the store,
    [skippedMessages] the number of fetched messages whose identifier was
    in the set of existing identifiers, and [saveMessage] was called at
    most once for each of the others. *)
Theorem sync_one_counts w s cid c total new skipped :
  fst (sync_one w cid s) = SyncResult c total new skipped →
  let s' := snd (sync_one w cid s) in
  (new + skipped ≤ total)%nat
  ∧ length (messages (store s')) = (length (messages (store s)) + new)%nat
  ∧ (new ≤ length (filter (λ e, is_save e = true) (calls_since s s')))%nat
  ∧ (length (filter (λ e, is_save e = true) (calls_since s s')) + skipped
     ≤ total)%nat.
Proof.
  intros Hr s'.
  destruct (sync_one_result_reached _ _ _ _ _ _ _ Hr)
    as (conv & chat & msgs & Hb & Hl & Ht & -> & -> & -> & ->).
  destruct (sync_one_calls _ _ _ _ _ _ Hb Hl) as [Hcalls Hstore].
  cbv zeta in Hcalls, Hstore. fold s' in Hcalls, Hstore.
  set (ex := seen_ids w (store s) cid) in *.
  set (rows := rows_to_save cid (Conversation.user_id conv) ex msgs) in *.
  pose proof (length_unseen_duplicates ex msgs) as Hsplit.
  pose proof (sublist_length _ _ (rows_saved_sublist w rows)) as Hle1.
  pose proof (length_omap_le (row_to_save cid (Conversation.user_id conv))
                             (unseen ex msgs)) as Hle2.
  fold (rows_to_save cid (Conversation.user_id conv) ex msgs) in Hle2.
  fold rows in Hle2.
  assert (Hsaves : filter (λ e, is_save e = true) (calls_since s s')
                   = SaveMessage <$> rows).
  { rewrite Hcalls, !filter_app.
    assert (H1 : filter (λ e, is_save e = true) (opening_calls cid chat) = [])
      by done.
    assert (H2 : filter (λ e, is_save e = true) (touch_calls cid msgs) = []).
    { unfold touch_calls. destruct (latest_message msgs); [|done].
      by destruct (Js.toISOString _). }
    rewrite H1, H2, app_nil_r. cbn [app].
    clear. induction rows as [|r rows IH]; [done|].
    rewrite fmap_cons, filter_cons_True by done. by rewrite IH. }
  rewrite Hsaves, length_fmap, Hstore, messages_touch_store.
  cbn [messages]. rewrite length_app. lia.
Qed.

(** ** Failures of [saveMessage] *)

Lemma fetched_batch_with_save_answer f w s cid :
  fetched_batch (with_save_answer f w) s cid = fetched_batch w s cid.
Proof. done. Qed.

(** X3. Whether [saveMessage] succeeds, answers [null] or rejects has no
    influence on how a single-conversation pass goes on: the calls it
    issues, among them every call of [saveMessage] and the timestamp
    update, and the status of its answer are the same for any behaviour
    of [saveMessage]. *)
Theorem save_failures_are_absorbed f w s cid :
  calls_since s (snd (sync_one (with_save_answer f w) cid s))
  = calls_since s (snd (sync_one w cid s))
  ∧ status (fst (sync_one (with_save_answer f w) cid s))
    = status (fst (sync_one w cid s))
  ∧ conversations (store (snd (sync_one (with_save_answer f w) cid s)))
    = conversations (store (snd (sync_one w cid s))).
Proof.
  destruct (fetched_batch w s cid) as [[[conv chat] msgs]|] eqn:Hb.
  - pose proof Hb as Hb'. rewrite <- (fetched_batch_with_save_answer f) in Hb'.
    rewrite (sync_one_run _ _ _ _ _ _ Hb), (sync_one_run _ _ _ _ _ _ Hb').
    cbv zeta.
    change (message_ids_fault (with_save_answer f w) cid)
      with (message_ids_fault w cid).
    change (seen_ids (with_save_answer f w) (store s) cid)
      with (seen_ids w (store s) cid).
    change (touch_outcome (with_save_answer f w) cid msgs)
      with (touch_outcome w cid msgs).
    destruct (message_ids_fault w cid); cbn [fst snd];
      rewrite ?advance_advance, ?calls_since_touch; try done.
    all: split_and!; [done| by destruct (touch_outcome w cid msgs) |].
    all: unfold touch, advance; cbn [store]; unfold touch_store;
      change (update_fault (with_save_answer f w) cid)
        with (update_fault w cid);
      destruct (touch_calls cid msgs) as [|[] [|? ?]]; try done;
      by destruct (update_fault w cid).
  - pose proof Hb as Hb'. rewrite <- (fetched_batch_with_save_answer f) in Hb'.
    by rewrite (sync_one_early_run _ _ _ Hb), (sync_one_early_run _ _ _ Hb').
Qed.

(** ** What a pass saves *)

Lemma rows_to_save_copy cid uid ex msgs row :
  row ∈ rows_to_save cid uid ex msgs →
  ∃ msg iso,
    msg ∈ msgs
    ∧ (Msg.id_serialized msg ∉ ex)
    ∧ Js.toISOString (Msg.timestamp msg * 1000) = Some iso
    ∧ row = MessageRow.mk cid (Msg.body msg) (Msg.fromMe msg)
                          (Msg.id_serialized msg) iso uid.
Proof.
  unfold rows_to_save, unseen.
  intros (m & [Hm Hin]%list_elem_of_filter & Hr)%list_elem_of_omap.
  unfold row_to_save in Hr.
  destruct (Js.toISOString (Msg.timestamp m * 1000)) as [iso|] eqn:Hiso;
    [|done].
  injection Hr as <-. exists m, iso. by split_and!.
Qed.

(** X4. Every row that a single-conversation pass hands to
    [saveMessage], and so every row it adds to the store, copies one
    fetched message: its external identifier, body and direction flag,
    the ISO form of its timestamp, the identifier of the conversation and
    the user of the conversation row. *)
Theorem saved_rows_copy_fetched_messages w s cid conv chat msgs :
  fetched_batch w s cid = Some (conv, chat, msgs) →
  let s' := snd (sync_one w cid s) in
  (∀ row, SaveMessage row ∈ calls_since s s' →
     ∃ msg iso,
       msg ∈ msgs
       ∧ Js.toISOString (Msg.timestamp msg * 1000) = Some iso
       ∧ row = MessageRow.mk cid (Msg.body msg) (Msg.fromMe msg)
                 (Msg.id_serialized msg) iso (Conversation.user_id conv))
  ∧ ∃ added,
      messages (store s') = messages (store s) ++ added
      ∧ ∀ row, row ∈ added → SaveMessage row ∈ calls_since s s'.
Proof.
  intros Hb s'. subst s'.
  destruct (decide (message_ids_fault w cid = Throws)) as [Ht|Ht].
  - rewrite (sync_one_run _ _ _ _ _ _ Hb). cbv zeta. rewrite Ht. cbn [snd].
    rewrite calls_since_advance. split.
    + intros row Hrow. not_a_save_call Hrow.
    + exists []. unfold advance. cbn [store messages]. split; [done|].
      intros row []%elem_of_nil.
  - destruct (sync_one_calls _ _ _ _ _ _ Hb Ht) as [Hcalls Hstore].
    cbv zeta in Hcalls, Hstore.
    set (rows := rows_to_save cid (Conversation.user_id conv)
                   (seen_ids w (store s) cid) msgs) in *.
    split.
    + intros row Hrow. rewrite Hcalls in Hrow.
      apply save_call_in in Hrow;
        [|by repeat constructor|apply touch_calls_no_save].
      apply rows_to_save_copy in Hrow as (msg & iso & Hm & _ & Hiso & ->).
      by exists msg, iso.
    + exists (rows_saved w rows). split.
      * by rewrite Hstore, messages_touch_store.
      * intros row Hrow. rewrite Hcalls.
        apply elem_of_app. left. apply elem_of_app. right.
        apply list_elem_of_fmap_2.
        eapply elem_of_sublist; [exact Hrow|apply rows_saved_sublist].
Qed.

(** ** What a pass leaves in place *)

Lemma same_but_date_refl c : same_but_date c c.
Proof. by repeat split. Qed.

Lemma same_but_date_trans c1 c2 c3 :
  same_but_date c1 c2 → same_but_date c2 c3 → same_but_date c1 c3.
Proof.
  unfold same_but_date. intros (?&?&?&?&?) (?&?&?&?&?).
  split_and!; congruence.
Qed.

Lemma kept_but_dates_refl cid cs : kept_but_dates cid cs cs.
Proof.
  apply Forall2_same_length_lookup_2; [done|].
  intros i c c' H1 H2. assert (c' = c) as -> by congruence.
  split; [apply same_but_date_refl | done].
Qed.

Lemma kept_but_dates_set cid iso st :
  kept_but_dates cid (conversations st)
                 (conversations (set_last_message_at cid iso st)).
Proof.
  unfold kept_but_dates, set_last_message_at. cbn [conversations].
  induction (conversations st) as [|c cs IH]; [constructor|].
  rewrite fmap_cons. constructor; [|exact IH].
  destruct (decide (Conversation.id c = cid)) as [Hc|Hc].
  - split; [by repeat split | done].
  - split; [apply same_but_date_refl | done].
Qed.

Lemma kept_but_dates_touch w cid msgs st :
  kept_but_dates cid (conversations st)
                 (conversations (touch_store w cid msgs st)).
Proof.
  unfold touch_store.
  destruct (touch_calls cid msgs) as [|[] [|? ?]];
    try apply kept_but_dates_refl.
  destruct (update_fault w cid); try apply kept_but_dates_refl.
  apply kept_but_dates_set.
Qed.

Lemma sync_one_keeps w s cid :
  let s' := snd (sync_one w cid s) in
  messages (store s) `prefix_of` messages (store s')
  ∧ kept_but_dates cid (conversations (store s)) (conversations (store s')).
Proof.
  cbv zeta.
  destruct (fetched_batch w s cid) as [[[conv chat] msgs]|] eqn:Hb.
  - destruct (decide (message_ids_fault w cid = Throws)) as [Ht|Ht].
    + rewrite (sync_one_run _ _ _ _ _ _ Hb). cbv zeta. rewrite Ht.
      cbn [snd]. rewrite store_advance_nil.
      split; [done | apply kept_but_dates_refl].
    + destruct (sync_one_calls _ _ _ _ _ _ Hb Ht) as [_ ->]. split.
      * rewrite messages_touch_store. cbn [messages]. by apply prefix_app_r.
      * apply (kept_but_dates_touch w cid msgs
                 (mkStore (conversations (store s)) _)).
  - rewrite (sync_one_early_run _ _ _ Hb). cbn [snd].
    rewrite store_advance_nil. split; [done | apply kept_but_dates_refl].
Qed.

Lemma keeps_dates_only cid before after :
  kept_but_dates cid before after → Forall2 same_but_date before after.
Proof.
  unfold kept_but_dates. intros H. eapply Forall2_impl; [exact H|].
  by intros c c' [? _].
Qed.

Lemma Forall2_same_but_date_refl l : Forall2 same_but_date l l.
Proof. apply (keeps_dates_only ""), kept_but_dates_refl. Qed.

Lemma Forall2_same_but_date_trans l1 l2 l3 :
  Forall2 same_but_date l1 l2 → Forall2 same_but_date l2 l3 →
  Forall2 same_but_date l1 l3.
Proof.
  intros H12. revert l3. induction H12; intros l3 H23; inv H23;
    constructor; eauto using same_but_date_trans.
Qed.

Lemma turn_keeps w chats conv b :
  Forall2 same_but_date (conversations (store (machine b)))
          (conversations (store (machine (turn w chats conv b)))).
Proof.
  destruct (fetched_batch_bulk w chats conv) as [[chat msgs]|] eqn:Hb.
  - destruct (decide (message_ids_fault w (Conversation.id conv) = Throws))
      as [Ht|Ht].
    + rewrite (turn_reached _ _ _ _ _ _ Hb). unfold after_turn. cbv zeta.
      rewrite Ht. unfold with_machine. cbn [machine].
      rewrite store_advance_nil.
      apply Forall2_same_but_date_refl.
    + destruct (turn_calls _ _ _ _ _ b Hb Ht) as (_ & -> & _).
      eapply keeps_dates_only.
      apply (kept_but_dates_touch w (Conversation.id conv) msgs
               (mkStore (conversations (store (machine b))) _)).
  - rewrite (turn_unreached _ _ _ _ Hb). unfold after_early_turn.
    destruct (target_chat chats conv) as [[chat|]|];
      unfold with_machine; cbn [machine]; rewrite ?store_advance_nil;
      apply Forall2_same_but_date_refl.
Qed.

Lemma turns_keep w chats page b :
  Forall2 same_but_date (conversations (store (machine b)))
          (conversations (store (machine (turns w chats page b)))).
Proof.
  revert b. induction page as [|conv page IH]; intros b.
  - apply Forall2_same_but_date_refl.
  - rewrite turns_cons. eapply Forall2_same_but_date_trans;
      [apply turn_keeps | apply IH].
Qed.

(** X5. Neither handler ever removes or rewrites a message row, adds or
    removes a conversation row, or changes a column of a conversation
    other than [last_message_at]: the stored messages are a prefix of
    those stored afterwards and the conversation rows stay in place.  A
    single-conversation pass moreover leaves the rows of all other
    conversations exactly as they were. *)
Theorem sync_only_appends_messages_and_dates w s :
  (∀ cid,
     let s' := snd (sync_one w cid s) in
     messages (store s) `prefix_of` messages (store s')
     ∧ Forall2 same_but_date (conversations (store s)) (conversations (store s'))
     ∧ ∀ i c, conversations (store s) !! i = Some c →
              Conversation.id c ≠ cid →
              conversations (store s') !! i = Some c)
  ∧ (let s' := snd (sync_all w s) in
     messages (store s) `prefix_of` messages (store s')
     ∧ Forall2 same_but_date (conversations (store s))
                             (conversations (store s'))).
Proof.
  split.
  - intros cid s'. destruct (sync_one_keeps w s cid) as [Hm Hc].
    fold s' in Hm, Hc. split_and!; [done | by eapply keeps_dates_only |].
    intros i c Hi Hne.
    destruct (Forall2_lookup_l _ _ _ _ _ Hc Hi) as (c' & Hi' & _ & Hsame).
    by rewrite Hi', (Hsame Hne).
  - cbv zeta.
    destruct (bulk_inputs w s) as [[page chats]|] eqn:Hin.
    + rewrite (sync_all_run _ _ _ _ Hin). cbv zeta. cbn [snd].
      set (b0 := mkBulk (advance s [] [SelectConversationsPage; GetChats])
                        0 0 []).
      destruct (turns_effect w chats page b0) as (saved & ? & ? & Hm & _).
      cbv zeta in Hm. pose proof (turns_keep w chats page b0) as Hc.
      subst b0. cbn [machine] in Hm, Hc. rewrite store_advance_nil in Hm, Hc.
      split; [rewrite Hm; by apply prefix_app_r | done].
    + destruct (sync_all_early _ _ Hin) as (calls & -> & _).
      rewrite store_advance_nil.
      split; [done | apply Forall2_same_but_date_refl].
Qed.

(** ** The two handlers on one conversation *)

Lemma fetched_batch_id w s cid conv chat msgs :
  fetched_batch w s cid = Some (conv, chat, msgs) → Conversation.id conv = cid.
Proof.
  intros (_ & _ & Hrow & _)%fetched_batch_inv.
  assert (Hin : conv ∈ filter (λ c, Conversation.id c = cid)
                              (conversations (store s)))
    by (rewrite Hrow; by left).
  by apply list_elem_of_filter in Hin as [? _].
Qed.

(** X6. The bulk loop does to a conversation what single-conversation
    sync does to it: from the same store and with the same fetched batch,
    one turn of the loop leaves the same store as the single pass, and
    adds to [totalNewMessages] what the single pass reports as
    [newMessagesSaved]. *)
Theorem bulk_turn_agrees_with_single_sync w s b chats conv chat chat' msgs :
  fetched_batch w s (Conversation.id conv) = Some (conv, chat, msgs) →
  fetched_batch_bulk w chats conv = Some (chat', msgs) →
  store (machine b) = store s →
  store (machine (turn w chats conv b))
  = store (snd (sync_one w (Conversation.id conv) s))
  ∧ ∀ total new skipped,
      fst (sync_one w (Conversation.id conv) s)
      = SyncResult (Conversation.id conv) total new skipped →
      totalNewMessages (turn w chats conv b) = (totalNewMessages b + new)%nat.
Proof.
  intros Hb Hbb Hst.
  destruct (decide (message_ids_fault w (Conversation.id conv) = Throws))
    as [Ht|Ht].
  - rewrite (turn_reached _ _ _ _ _ _ Hbb), (sync_one_run _ _ _ _ _ _ Hb).
    unfold after_turn. cbv zeta. rewrite Ht. unfold with_machine.
    cbn [machine fst snd]. rewrite !store_advance_nil. split; [done|].
    intros total new skipped [=].
  - destruct (turn_calls _ _ _ _ _ b Hbb Ht) as (_ & Hstore & Htotal).
    destruct (sync_one_calls _ _ _ _ _ _ Hb Ht) as [_ Hstore1].
    cbv zeta in Hstore, Htotal, Hstore1.
    rewrite Hstore, Hstore1, Htotal, Hst. split; [done|].
    intros total new skipped Hr.
    destruct (sync_one_result_reached _ _ _ _ _ _ _ Hr)
      as (conv0 & chat0 & msgs0 & Hb0 & _ & _ & _ & _ & -> & _).
    rewrite Hb in Hb0. by injection Hb0 as <- <- <-.
Qed.

(** ** Running a pass again after failed saves *)

Lemma rows_saved_answer w rows r :
  r ∈ rows_saved w rows →
  save_answer w (MessageRow.conversation_id r) (MessageRow.message_id r)
  = SaveReturnsRow.
Proof. unfold rows_saved. by intros [? _]%list_elem_of_filter. Qed.

Lemma touch_store_row_kept w cid msgs st conv :
  filter (λ c, Conversation.id c = cid) (conversations st) = [conv] →
  ∃ conv',
    filter (λ c, Conversation.id c = cid)
           (conversations (touch_store w cid msgs st)) = [conv']
    ∧ same_but_date conv conv'.
Proof.
  intros Hrow. unfold touch_store.
  destruct (touch_calls cid msgs) as [|[] [|? ?]];
    eauto using same_but_date_refl.
  destruct (update_fault w cid); eauto using same_but_date_refl.
  rewrite filter_set_last_message_at, Hrow. eexists. split; [done|].
  by repeat split.
Qed.

(** X7. A message that a pass could not save is offered to [saveMessage]
    again by the next pass: if its identifier was not stored, its
    timestamp converts and [saveMessage] did not report a saved row for
    it, then a following pass that fetches the same batch and whose store
    queries answer calls [saveMessage] with the same row. *)
Theorem failed_save_is_retried w1 w2 cid s0 conv chat msgs m iso :
  fetched_batch w1 s0 cid = Some (conv, chat, msgs) →
  m ∈ msgs →
  (Msg.id_serialized m ∉ stored_ids (store s0) cid) →
  Js.toISOString (Msg.timestamp m * 1000) = Some iso →
  save_answer w1 cid (Msg.id_serialized m) ≠ SaveReturnsRow →
  client_connected w2 = true →
  chats_answer w2 = chats_answer w1 →
  messages_answer w2 (Chat.id_serialized chat) 999999 = Returned msgs →
  conversation_fault w2 cid = NoFault →
  message_ids_fault w2 cid = NoFault →
  let s1 := snd (sync_one w1 cid s0) in
  (Msg.id_serialized m ∉ stored_ids (store s1) cid)
  ∧ SaveMessage (row_of cid (Conversation.user_id conv) m iso)
      ∈ calls_since s1 (snd (sync_one w2 cid s1)).
Proof.
  intros Hb Hm Hnew Hiso Hfail Hc2 Hchats2 Hm2 Hf2 Hl2 s1.
  assert (Hstored : (Msg.id_serialized m ∉ stored_ids (store s1) cid)
                    ∧ ∃ conv', filter (λ c, Conversation.id c = cid)
                                      (conversations (store s1)) = [conv']
                               ∧ same_but_date conv conv').
  { subst s1. pose proof Hb as Hb'.
    apply fetched_batch_inv in Hb' as (_ & _ & Hrow & _).
    destruct (decide (message_ids_fault w1 cid = Throws)) as [Ht|Ht].
    - rewrite (sync_one_run _ _ _ _ _ _ Hb). cbv zeta. rewrite Ht.
      cbn [snd]. rewrite store_advance_nil.
      split; [done | eauto using same_but_date_refl].
    - destruct (sync_one_calls _ _ _ _ _ _ Hb Ht) as [_ ->]. split.
      + rewrite stored_ids_key, messages_touch_store. cbn [messages].
        rewrite fmap_app, elem_of_app. intros [Hin|Hin].
        * by apply Hnew, stored_ids_key.
        * apply list_elem_of_fmap in Hin as (r & Hk & Hr).
          apply rows_saved_answer in Hr. unfold row_key in Hk.
          injection Hk as Hk1 Hk2. rewrite <- Hk1, <- Hk2 in Hr. done.
      + apply (touch_store_row_kept w1 cid msgs
                 (mkStore (conversations (store s0)) _) conv Hrow). }
  destruct Hstored as (Hstored & conv' & Hrow' & Hsame).
  split; [done|].
  pose proof Hb as Hb'.
  apply fetched_batch_inv in Hb' as (_ & _ & _ & chats & Hchats1 & Ht & _).
  destruct Hsame as (_ & Hphone & _ & _ & Huser).
  assert (Hb2 : fetched_batch w2 s1 cid = Some (conv', chat, msgs)).
  { unfold fetched_batch.
    rewrite Hc2, Hf2, Hrow', Hchats2, Hchats1.
    by rewrite (target_chat_same_phone _ _ _ Hphone), Ht, Hm2. }
  assert (Hl2' : message_ids_fault w2 cid ≠ Throws) by congruence.
  destruct (sync_one_calls _ _ _ _ _ _ Hb2 Hl2') as [-> _].
  apply elem_of_app. left. apply elem_of_app. right.
  apply list_elem_of_fmap_2. unfold rows_to_save.
  apply list_elem_of_omap. exists m. split.
  - unfold unseen. apply list_elem_of_filter. split; [|done].
    unfold seen_ids. rewrite Hl2. by rewrite elem_of_list_to_set.
  - unfold row_to_save. rewrite Hiso, Huser. done.
Qed.

(** ** How a bulk pass can end, and what it costs *)

Lemma sync_all_early_run w s :
  bulk_inputs w s = None →
  sync_all w s = (bulk_early_response w, advance s [] (bulk_early_calls w)).
Proof.
  unfold bulk_inputs, bulk_early_response, bulk_early_calls, sync_all,
    syncAllConversationsHistory, try_catch, syncAllConversationsHistory_try.
  destruct (client_connected w); cbn [negb].
  2:{ intros _. unfold ret. cbn [machine]. by rewrite advance_nil. }
  unfold bind at 1, zoom at 1, select_conversations_page, bind at 1, emit,
    modify, gets.
  cbn [machine store trace].
  destruct (page_fault w); cbn [error data ret throw snd machine].
  2,3: intros _; unfold ret, throw, advance; cbn [machine trace store];
       rewrite app_nil_r; by destruct s as [[] ?].
  unfold bind at 1, zoom at 1, getChats, bind at 1, emit, modify, await.
  cbn [machine store trace].
  destruct (chats_answer w); [done|].
  intros _. unfold advance. cbn [machine trace store].
  rewrite app_nil_r, <- app_assoc. by destruct s as [[] ?].
Qed.

(** X8. Bulk sync answers 200 with its totals exactly when the client is
    connected, the page of conversations is answered and the chats are
    listed; nothing that happens inside the loop changes that.  In every
    other case (503 for a client that is not connected, 500 for a page
    that is not answered or a chat listing that rejects) no conversation
    was processed: no message was fetched and the store is as before. *)
Theorem sync_all_answers_200_or_touches_nothing w s :
  (status (fst (sync_all w s)) = 200 ↔ is_Some (bulk_inputs w s))
  ∧ (fst (sync_all w s) = SessionUnavailable ↔ client_connected w = false)
  ∧ (fst (sync_all w s) = DatabaseError
     ↔ client_connected w = true ∧ page_fault w = ReturnsError)
  ∧ (status (fst (sync_all w s)) ≠ 200 →
     store (snd (sync_all w s)) = store s
     ∧ Forall (λ e, is_fetch e = false ∧ is_store_write e = false)
              (calls_since s (snd (sync_all w s)))).
Proof.
  assert (Hsome : ∀ x : list Conversation.t * list Chat.t,
            200 = 200 ↔ is_Some (Some x)) by (intros x; split; eauto).
  assert (Hnone : ∀ n, n ≠ 200 →
            n = 200 ↔ is_Some (@None (list Conversation.t * list Chat.t))).
  { intros n Hn. split; [done | by intros [? ?]]. }
  destruct (bulk_inputs w s) as [[page chats]|] eqn:Hin.
  - rewrite (sync_all_run _ _ _ _ Hin). cbv zeta. cbn [fst snd status].
    unfold bulk_inputs in Hin.
    destruct (client_connected w); [|done].
    destruct (page_fault w); try done.
    split_and!; [apply Hsome | split; done | | done].
    split; [done | by intros [_ ?]].
  - rewrite (sync_all_early_run _ _ Hin). cbn [fst snd].
    rewrite store_advance_nil, calls_since_advance.
    unfold bulk_inputs in Hin.
    unfold bulk_early_response, bulk_early_calls.
    destruct (client_connected w).
    + destruct (page_fault w); cbn [status].
      * destruct (chats_answer w); [done|]. cbn [status].
        split_and!; [by apply Hnone | split; done | | ].
        -- split; [done | by intros [_ ?]].
        -- intros _. split; [done | by repeat constructor].
      * split_and!; [by apply Hnone | split; done | split; done | ].
        intros _. split; [done | by repeat constructor].
      * split_and!; [by apply Hnone | split; done | | ].
        -- split; [done | by intros [_ ?]].
        -- intros _. split; [done | by repeat constructor].
    + cbn [status]. split_and!; [by apply Hnone | split; done | | ].
      * split; [done | by intros [? _]].
      * intros _. split; [done | constructor].
Qed.

Lemma filter_fetch_saves (rows : list MessageRow.t) :
  filter (λ e, is_fetch e = true) (SaveMessage <$> rows) = [].
Proof.
  induction rows as [|r rows IH]; [done|].
  rewrite fmap_cons, filter_cons_False; done.
Qed.

Lemma Forall_turn_call_saves (rows : list MessageRow.t) :
  Forall (λ e, is_turn_call e = true) (SaveMessage <$> rows).
Proof. induction rows; by constructor. Qed.

Lemma touch_calls_turn_calls cid msgs :
  Forall (λ e, is_turn_call e = true) (touch_calls cid msgs)
  ∧ filter (λ e, is_fetch e = true) (touch_calls cid msgs) = [].
Proof.
  unfold touch_calls. destruct (latest_message msgs); [|done].
  destruct (Js.toISOString _); [|done]. split; [by repeat constructor|done].
Qed.

Lemma filter_fetch_opening cid chat :
  filter (λ e, is_fetch e = true) (opening_calls_bulk cid chat)
  = [FetchMessages (Chat.id_serialized chat) 100].
Proof.
  unfold opening_calls_bulk.
  rewrite filter_cons_True by done. by rewrite filter_cons_False by done.
Qed.

Lemma turn_calls_shape w chats conv b :
  ∃ calls,
    trace (machine (turn w chats conv b)) = trace (machine b) ++ calls
    ∧ Forall (λ e, is_turn_call e = true) calls
    ∧ (length (filter (λ e, is_fetch e = true) calls) ≤ 1)%nat.
Proof.
  destruct (fetched_batch_bulk w chats conv) as [[chat msgs]|] eqn:Hb.
  - destruct (decide (message_ids_fault w (Conversation.id conv) = Throws))
      as [Ht|Ht].
    + rewrite (turn_reached _ _ _ _ _ _ Hb). unfold after_turn. cbv zeta.
      rewrite Ht. unfold with_machine, advance. cbn [machine trace].
      eexists. split; [done|]. split; [by repeat constructor|].
      by rewrite filter_fetch_opening.
    + destruct (turn_calls _ _ _ _ _ b Hb Ht) as (Hcalls & _ & _).
      cbv zeta in Hcalls.
      destruct (turn_effect w chats conv b) as (? & calls & _ & Htrace & _).
      cbv zeta in Htrace. exists calls. split; [done|].
      unfold calls_since in Hcalls. rewrite Htrace in Hcalls.
      rewrite drop_app_length in Hcalls. subst calls.
      destruct (touch_calls_turn_calls (Conversation.id conv) msgs)
        as [Ht1 Ht2].
      split.
      * repeat apply Forall_app_2; [by repeat constructor | | done].
        apply Forall_turn_call_saves.
      * rewrite !filter_app, filter_fetch_saves, Ht2, !app_nil_r.
        by rewrite filter_fetch_opening.
  - rewrite (turn_unreached _ _ _ _ Hb). unfold after_early_turn.
    destruct (target_chat chats conv) as [[chat|]|].
    + unfold with_machine, advance. cbn [machine trace].
      eexists. split; [done|]. split; [by repeat constructor|].
      by rewrite filter_cons_True by done.
    + exists []. rewrite app_nil_r. split_and!; [done|constructor|cbn; lia].
    + exists []. rewrite app_nil_r. split_and!; [done|constructor|cbn; lia].
Qed.

Lemma turns_calls_shape w chats page b :
  ∃ calls,
    trace (machine (turns w chats page b)) = trace (machine b) ++ calls
    ∧ Forall (λ e, is_turn_call e = true) calls
    ∧ (length (filter (λ e, is_fetch e = true) calls) ≤ length page)%nat.
Proof.
  revert b. induction page as [|conv page IH]; intros b.
  - exists []. rewrite app_nil_r. split_and!; [done|constructor|cbn; lia].
  - rewrite turns_cons.
    destruct (turn_calls_shape w chats conv b) as (calls1 & Ht1 & Hf1 & Hn1).
    destruct (IH (turn w chats conv b)) as (calls2 & Ht2 & Hf2 & Hn2).
    exists (calls1 ++ calls2). rewrite Ht2, Ht1, <- app_assoc.
    split_and!; [done | by apply Forall_app_2 |].
    rewrite filter_app, length_app. cbn [length]. lia.
Qed.

Lemma length_insert_desc c sorted :
  length (insert_desc c sorted) = S (length sorted).
Proof.
  induction sorted as [|d rest IH]; [done|]. cbn [insert_desc].
  destruct (later_or_equal d c); cbn [length]; by rewrite ?IH.
Qed.

Lemma length_order_desc cs : length (order_desc cs) = length cs.
Proof.
  unfold order_desc.
  assert (H : ∀ acc, length (fold_left (λ sorted c, insert_desc c sorted) cs acc)
                     = (length acc + length cs)%nat).
  { induction cs as [|c cs IH]; intros acc; cbn [fold_left length]; [lia|].
    rewrite IH, length_insert_desc. lia. }
  by rewrite H.
Qed.

(** X9. A bulk pass checks at most 200 conversations, all of them when
    the store holds no more.  It asks the store for the page once and the
    session for the chat list once, then fetches at most once per
    conversation of the page, never more than 100 messages at a time. *)
Theorem sync_all_reads_are_bounded w s page chats :
  bulk_inputs w s = Some (page, chats) →
  length page = (length (conversations (store s)) `min` 200)%nat
  ∧ ∃ rest,
      calls_since s (snd (sync_all w s))
      = SelectConversationsPage :: GetChats :: rest
      ∧ Forall (λ e, is_turn_call e = true) rest
      ∧ (length (filter (λ e, is_fetch e = true) rest) ≤ length page)%nat.
Proof.
  intros Hin. split.
  - unfold bulk_inputs in Hin.
    destruct (client_connected w); [|done].
    destruct (page_fault w); try done.
    destruct (chats_answer w); [|done].
    injection Hin as <- _. by rewrite length_take, length_order_desc, Nat.min_comm.
  - rewrite (sync_all_run _ _ _ _ Hin). cbv zeta. cbn [snd].
    destruct (turns_calls_shape w chats page
      (mkBulk (advance s [] [SelectConversationsPage; GetChats]) 0 0 []))
      as (rest & Ht & Hf & Hn).
    exists rest. split; [|done].
    unfold calls_since. rewrite Ht. unfold advance. cbn [machine trace].
    by rewrite <- app_assoc, drop_app_length.
Qed.

(** ** Contacted vehicles *)

Example match_number_plain :
  Contacted.match_number "33612345678@c.us" = Some "33612345678".
Proof. reflexivity. Qed.

Example match_number_group :
  Contacted.match_number "120363021234567890@g.us" = None.
Proof. reflexivity. Qed.

Example match_number_inner :
  Contacted.match_number "12a34@c.us" = Some "34".
Proof. reflexivity. Qed.

Example contacted_numbers_dedup :
  Contacted.contacted_numbers
    [Chat.mk "33612345678@c.us"; Chat.mk "1203@g.us"; Chat.mk "4915@c.us";
     Chat.mk "33612345678@c.us"]
  = ["33612345678"; "4915"].
Proof. reflexivity. Qed.

Example formatted_numbers_french :
  Contacted.formatted_numbers "33612345678"
  = ["33612345678"; "+33612345678"; "0612345678"].
Proof. reflexivity. Qed.

Section ContactedNumbers.

Import Contacted.

Lemma span_digits_spec s ds rest :
  span_digits s = (ds, rest) →
  s = ds +:+ rest ∧ numeric ds = true
  ∧ match rest with
    | EmptyString => True
    | String c _ => is_digit c = false
    end.
Proof.
  revert ds rest. induction s as [|c s IH]; intros ds rest.
  - intros [= <- <-]. done.
  - cbn [span_digits]. destruct (is_digit c) eqn:Hc.
    + destruct (span_digits s) as [ds' rest'] eqn:Hs.
      intros [= <- <-]. destruct (IH _ _ eq_refl) as (-> & Hn & Hr).
      split_and!; [done | cbn [numeric]; by rewrite Hc, Hn | done].
    + intros [= <- <-]. split_and!; [done | done | done].
Qed.

Lemma prefix_app_same a b c :
  String.prefix (a +:+ b) (a +:+ c) = String.prefix b c.
Proof.
  induction a as [|x a IH]; [done|].
  change (String x a +:+ b) with (String x (a +:+ b)).
  change (String x a +:+ c) with (String x (a +:+ c)).
  cbn [String.prefix]. by destruct (ascii_dec x x).
Qed.

Lemma occurs_prefix needle hay :
  String.prefix needle hay = true → occurs needle hay = true.
Proof. intros H. destruct hay; cbn [occurs]; by rewrite H. Qed.

Lemma occurs_tail needle c hay :
  occurs needle hay = true → occurs needle (String c hay) = true.
Proof. intros H. cbn [occurs]. rewrite H. apply orb_true_r. Qed.

Lemma match_here_sound s n :
  match_here s = Some n →
  numeric n = true ∧ n ≠ "" ∧ String.prefix (n +:+ "@c.us") s = true.
Proof.
  unfold match_here. destruct (span_digits s) as [ds rest] eqn:Hs.
  destruct (span_digits_spec _ _ _ Hs) as (-> & Hn & _).
  destruct ds as [|c ds]; [done|].
  destruct (String.prefix "@c.us" rest) eqn:Hp; [|done].
  intros [= <-]. split_and!; [done | done |].
  by rewrite prefix_app_same.
Qed.

Lemma match_number_sound s n :
  match_number s = Some n →
  numeric n = true ∧ n ≠ "" ∧ occurs (n +:+ "@c.us") s = true.
Proof.
  induction s as [|c s IH]; cbn [match_number].
  - destruct (match_here "") eqn:Hh; [|done].
    intros [= ->]. destruct (match_here_sound _ _ Hh) as (? & ? & ?).
    split_and!; [done..|]. by apply occurs_prefix.
  - destruct (match_here (String c s)) eqn:Hh.
    + intros [= ->]. destruct (match_here_sound _ _ Hh) as (? & ? & ?).
      split_and!; [done..|]. by apply occurs_prefix.
    + intros H. destruct (IH H) as (? & ? & ?).
      split_and!; [done..|]. by apply occurs_tail.
Qed.

Lemma span_digits_core core rest :
  numeric core = true →
  match rest with
  | EmptyString => True
  | String c _ => is_digit c = false
  end →
  span_digits (core +:+ rest) = (core, rest).
Proof.
  intros Hn Hr. induction core as [|c core IH].
  - destruct rest as [|c rest]; [done|].
    change ("" +:+ String c rest) with (String c rest).
    cbn [span_digits]. by rewrite Hr.
  - cbn [numeric] in Hn. apply andb_prop in Hn as [Hc Hn].
    change (String c core +:+ rest) with (String c (core +:+ rest)).
    cbn [span_digits]. by rewrite Hc, (IH Hn).
Qed.

Lemma match_number_core core :
  numeric core = true → core ≠ "" →
  match_number (core +:+ "@c.us") = Some core.
Proof.
  intros Hn Hne.
  assert (Hh : match_here (core +:+ "@c.us") = Some core).
  { unfold match_here. rewrite (span_digits_core core "@c.us" Hn) by done.
    destruct core; done. }
  destruct core as [|c core]; [done|].
  change (String c core +:+ "@c.us") with (String c (core +:+ "@c.us")) in *.
  cbn [match_number]. by rewrite Hh.
Qed.

Lemma occurs_app_r a needle hay :
  occurs (a +:+ needle) hay = true → occurs needle hay = true.
Proof.
  induction hay as [|c hay IH].
  - cbn [occurs]. rewrite !orb_false_r. destruct a; [done|].
    cbn [String.prefix]. done.
  - cbn [occurs]. intros [Hp|Ht]%orb_prop.
    + clear IH. revert c hay Hp. induction a as [|x a IHa]; intros c hay Hp.
      * change ("" +:+ needle) with needle in Hp. by rewrite Hp.
      * change (String x a +:+ needle) with (String x (a +:+ needle)) in Hp.
        cbn [String.prefix] in Hp. destruct (ascii_dec x c); [|done].
        destruct hay as [|c' hay].
        -- destruct a; [|done].
           change ("" +:+ needle) with needle in Hp.
           destruct needle; [|done]. done.
        -- specialize (IHa c' hay Hp).
           cbn [occurs] in IHa. apply orb_prop in IHa as [H|H].
           ++ apply orb_true_intro. right. cbn [occurs]. by rewrite H.
           ++ apply orb_true_intro. right. cbn [occurs]. rewrite H.
              apply orb_true_r.
    + rewrite (IH Ht). apply orb_true_r.
Qed.

Lemma match_number_none s :
  occurs "@c.us" s = false → match_number s = None.
Proof.
  intros Hno. destruct (match_number s) as [n|] eqn:Hm; [|done].
  destruct (match_number_sound _ _ Hm) as (_ & _ & Hocc).
  apply occurs_app_r in Hocc. congruence.
Qed.

End ContactedNumbers.

Section ContactedVehicles.

Import Contacted.

Lemma ilike_marked n v : ilike_contains n (marked v) = ilike_contains n v.
Proof. done. Qed.

Lemma marked_marked v : marked (marked v) = marked v.
Proof. done. Qed.

Lemma vehicles_run_requests fault requests st :
  vehicles (run_requests fault requests st)
  = (λ v, if reached_by fault requests v then marked v else v)
      <$> vehicles st.
Proof.
  unfold run_requests. revert st.
  induction requests as [|n requests IH]; intros st.
  - cbn [fold_left reached_by existsb]. by rewrite list_fmap_id.
  - cbn [fold_left]. rewrite IH. unfold update_request at 1.
    cbn [vehicles]. unfold reached_by. cbn [existsb]. unfold carried_out at 2.
    destruct (fault n).
    + unfold mark_contacted. rewrite <- list_fmap_compose.
      apply list_fmap_ext. intros _ v _. cbn [compose andb].
      destruct (ilike_contains n v) eqn:Hn.
      * cbn [orb]. rewrite marked_marked.
        by destruct (existsb _ _).
      * cbn [orb]. done.
    + apply list_fmap_ext. by intros _ v _.
    + apply list_fmap_ext. by intros _ v _.
Qed.

Lemma calls_run_requests fault requests st :
  calls (run_requests fault requests st)
  = calls st ++ (UpdateVehicles <$> requests).
Proof.
  unfold run_requests. revert st.
  induction requests as [|n requests IH]; intros st.
  - cbn. by rewrite app_nil_r.
  - cbn [fold_left]. rewrite IH. cbn [update_request calls fmap list_fmap].
    by rewrite <- app_assoc.
Qed.

Lemma reached_by_perm fault requests requests' v :
  requests ≡ₚ requests' →
  reached_by fault requests v = reached_by fault requests' v.
Proof.
  intros Hp. unfold reached_by. apply eq_true_iff_eq.
  rewrite !existsb_exists. split; intros (n & Hin & Hn); exists n;
    (split; [|done]); apply list_elem_of_In; apply list_elem_of_In in Hin.
  - by rewrite <- Hp.
  - by rewrite Hp.
Qed.

(** X13. The update requests run concurrently; the rows they leave do
    not depend on the order in which the store carries them out. *)
Theorem update_requests_commute fault requests requests' st :
  requests ≡ₚ requests' →
  vehicles (run_requests fault requests st)
  = vehicles (run_requests fault requests' st).
Proof.
  intros Hp. rewrite !vehicles_run_requests.
  apply list_fmap_ext. intros _ v _. by rewrite (reached_by_perm _ _ _ _ Hp).
Qed.

Lemma occurs_plus n p : occurs ("+" +:+ n) p = true → occurs n p = true.
Proof. apply (occurs_app_r "+"). Qed.

Lemma reached_by_formatted numbers v :
  reached_by (λ _, NoFault) (numbers ≫= formatted_numbers) v
  = holds_number numbers v.
Proof.
  unfold reached_by, holds_number, carried_out.
  induction numbers as [|n numbers IH]; [done|].
  cbn [mbind list_bind formatted_numbers app existsb andb].
  change (existsb ?f (numbers ≫= formatted_numbers)) with
    (existsb f (numbers ≫= formatted_numbers)) in IH.
  rewrite <- IH.
  assert (Hplus : ilike_contains ("+" +:+ n) v = true →
                  ilike_contains n v = true).
  { unfold ilike_contains. destruct (phone v); [apply occurs_plus | done]. }
  destruct (ilike_contains n v); [done|].
  destruct (ilike_contains ("+" +:+ n) v); [by discriminate Hplus|].
  done.
Qed.

End ContactedVehicles.

Section ContactedHandler.

Import Contacted.

Lemma add_spec number numbers :
  NoDup numbers →
  NoDup (add number numbers)
  ∧ ∀ n, n ∈ add number numbers ↔ n ∈ numbers ∨ n = number.
Proof.
  intros Hnd. unfold add. destruct (decide (number ∈ numbers)) as [Hin|Hin].
  - split; [done|]. intros n. split; [by left|]. by intros [?| ->].
  - split.
    + apply NoDup_app. split_and!; [done | | apply NoDup_singleton].
      intros n Hn [->|[]%elem_of_nil]%elem_of_cons. done.
    + intros n. rewrite elem_of_app, list_elem_of_singleton. done.
Qed.

Lemma contacted_numbers_from acc chats :
  NoDup acc →
  let numbers :=
    fold_left (λ numbers chat,
                 match match_number (Chat.id_serialized chat) with
                 | Some phoneNumber => add phoneNumber numbers
                 | None => numbers
                 end) chats acc in
  NoDup numbers
  ∧ ∀ n, n ∈ numbers
         ↔ n ∈ acc
           ∨ ∃ chat, chat ∈ chats
                     ∧ match_number (Chat.id_serialized chat) = Some n.
Proof.
  revert acc. induction chats as [|chat chats IH]; intros acc Hnd.
  - cbn [fold_left]. split; [done|]. intros n. split; [by left|].
    intros [?|(chat & []%elem_of_nil & _)]. done.
  - cbn [fold_left].
    destruct (match_number (Chat.id_serialized chat)) as [number|] eqn:Hm.
    + destruct (add_spec number acc Hnd) as [Hnd' Hin'].
      destruct (IH _ Hnd') as [Hnd'' Hin'']. split; [done|].
      intros n. rewrite Hin'', Hin'. split.
      * intros [[?| ->]|(c & Hc & Hn)]; [by left | right | right].
        -- exists chat. split; [apply list_elem_of_here | done].
        -- exists c. split; [by apply list_elem_of_further | done].
      * intros [?|(c & [->|Hc]%elem_of_cons & Hn)].
        -- by left; left.
        -- left; right. congruence.
        -- right. by exists c.
    + destruct (IH _ Hnd) as [Hnd'' Hin'']. split; [done|].
      intros n. rewrite Hin''. split.
      * intros [?|(c & Hc & Hn)]; [by left | right].
        exists c. split; [by apply list_elem_of_further | done].
      * intros [?|(c & [->|Hc]%elem_of_cons & Hn)].
        -- by left.
        -- congruence.
        -- right. by exists c.
Qed.

(** X10. The numbers reported as contacted are exactly the numbers that
    the pattern finds in the identifier of some chat; each is reported
    once, is not empty and consists of digits. *)
Theorem contacted_numbers_are_chat_numbers chats :
  NoDup (contacted_numbers chats)
  ∧ (∀ n, n ∈ contacted_numbers chats
          ↔ ∃ chat, chat ∈ chats
                    ∧ match_number (Chat.id_serialized chat) = Some n)
  ∧ Forall (λ n, numeric n = true ∧ n ≠ ""
                 ∧ ∃ chat, chat ∈ chats
                           ∧ occurs (n +:+ "@c.us")
                                    (Chat.id_serialized chat) = true)
           (contacted_numbers chats).
Proof.
  destruct (contacted_numbers_from [] chats (NoDup_nil_2)) as [Hnd Hin].
  fold (contacted_numbers chats) in Hnd, Hin.
  assert (Hin' : ∀ n, n ∈ contacted_numbers chats
                      ↔ ∃ chat, chat ∈ chats
                          ∧ match_number (Chat.id_serialized chat) = Some n).
  { intros n. rewrite Hin. split; [|by right].
    intros [[]%elem_of_nil|?]. done. }
  split_and!; [done | done |].
  apply Forall_forall. intros n (chat & Hc & Hm)%Hin'.
  destruct (match_number_sound _ _ Hm) as (? & ? & ?).
  split_and!; [done..|]. by exists chat.
Qed.

(** X11. For a chat whose identifier is a non-empty run of digits
    followed by ["@c.us"], the number marked as contacted is that run,
    and it is the number by which the sync handlers match the chat to a
    conversation. *)
Theorem contacted_number_is_the_sync_number chat core phone_number :
  numeric core = true → core ≠ "" →
  Chat.id_serialized chat = core +:+ "@c.us" →
  match_number (Chat.id_serialized chat) = Some core
  ∧ (same_number phone_number chat = true
     ↔ Js.replace "@c.us" "" phone_number = core).
Proof.
  intros Hn Hne Hid. rewrite Hid. split; [by apply match_number_core|].
  unfold same_number. rewrite Hid.
  destruct (replace_numeric core Hn) as [-> _].
  rewrite String.eqb_eq. split; by intros ->.
Qed.

Lemma contacted_number_is_the_sync_number_witness :
  match_number (Chat.id_serialized Demo.alice_chat) = Some "33612345678"
  ∧ (same_number "33612345678" Demo.alice_chat = true
     ↔ Js.replace "@c.us" "" "33612345678" = "33612345678").
Proof.
  apply (contacted_number_is_the_sync_number
           Demo.alice_chat "33612345678" "33612345678");
    [reflexivity | discriminate | reflexivity].
Defined.

(** X12. A chat identifier without ["@c.us"], such as the one of a
    group, contributes no number; an extracted number is a non-empty run
    of digits that stands before ["@c.us"] in the identifier. *)
Theorem extracted_number_precedes_suffix chatId :
  match match_number chatId with
  | Some n => numeric n = true ∧ n ≠ ""
              ∧ occurs (n +:+ "@c.us") chatId = true
  | None => True
  end
  ∧ (occurs "@c.us" chatId = false → match_number chatId = None).
Proof.
  split; [|apply match_number_none].
  destruct (match_number chatId) as [n|] eqn:Hm; [|done].
  by apply match_number_sound.
Qed.

Lemma updateContactedVehicles_run w fault st chats :
  client_connected w = true → chats_answer w = Returned chats →
  updateContactedVehicles w fault st
  = (if decide (Exists (λ n, fault n = Throws)
                       (contacted_numbers chats ≫= formatted_numbers))
     then Failed Js.Rejected
     else Updated (length (contacted_numbers chats))
                  (contacted_numbers chats),
     run_requests fault (contacted_numbers chats ≫= formatted_numbers)
       (mkState (vehicles st) (calls st ++ [ListChats]))).
Proof.
  intros Hc Hchats. unfold updateContactedVehicles. rewrite Hc, Hchats.
  cbn [negb]. by destruct (decide _).
Qed.

Lemma update_calls_app cs cs' :
  update_calls (cs ++ cs') = update_calls cs ++ update_calls cs'.
Proof. apply omap_app. Qed.

Lemma update_calls_requests requests :
  update_calls (UpdateVehicles <$> requests) = requests.
Proof.
  induction requests as [|n requests IH]; [done|].
  rewrite fmap_cons. unfold update_calls in *. cbn [omap list_omap].
  by rewrite IH.
Qed.

Lemma length_formatted numbers :
  length (numbers ≫= formatted_numbers) = (3 * length numbers)%nat.
Proof.
  induction numbers as [|n numbers IH]; [done|].
  rewrite bind_cons, length_app, IH. cbn [formatted_numbers length]. lia.
Qed.

(** X14. When the session is connected and the store carries out every
    request, the handler answers with the numbers of the chats, sends
    three requests per number after listing the chats, and leaves the
    vehicle table as it was except that the rows whose phone column
    holds one of the numbers, as extracted or in the French format, are
    marked as contacted.  The request with the ["+"] prefix reaches no
    further row. *)
Theorem contacted_vehicles_are_marked w st chats :
  client_connected w = true → chats_answer w = Returned chats →
  let numbers := contacted_numbers chats in
  let '(answer, st') := updateContactedVehicles w (λ _, NoFault) st in
  answer = Updated (length numbers) numbers
  ∧ vehicles st'
    = (λ v, if holds_number numbers v then marked v else v) <$> vehicles st
  ∧ calls st'
    = calls st ++ ListChats
        :: (UpdateVehicles <$> (numbers ≫= formatted_numbers))
  ∧ length (update_calls (calls st'))
    = (length (update_calls (calls st)) + 3 * length numbers)%nat.
Proof.
  intros Hc Hchats numbers.
  rewrite (updateContactedVehicles_run _ _ _ _ Hc Hchats).
  fold numbers. destruct (decide _) as [He|_].
  { apply Exists_exists in He as (? & _ & ?). done. }
  rewrite vehicles_run_requests, calls_run_requests. cbn [vehicles calls].
  split_and!.
  - done.
  - apply list_fmap_ext. intros _ v _. by rewrite reached_by_formatted.
  - by rewrite <- app_assoc.
  - rewrite !update_calls_app, update_calls_requests, !length_app.
    change (update_calls [ListChats]) with (@nil string).
    cbn [length]. rewrite length_formatted. lia.
Qed.

End ContactedHandler.

Section ContactedFaults.

Import Contacted.

Lemma contacted_vehicles_are_marked_witness :
  let numbers := contacted_numbers demo_chats in
  let '(answer, st') :=
    updateContactedVehicles demo_world (λ _, NoFault)
                            (mkState demo_vehicles []) in
  answer = Updated (length numbers) numbers
  ∧ vehicles st'
    = (λ v, if holds_number numbers v then marked v else v)
        <$> vehicles (mkState demo_vehicles [])
  ∧ calls st'
    = calls (mkState demo_vehicles []) ++ ListChats
        :: (UpdateVehicles <$> (numbers ≫= formatted_numbers))
  ∧ length (update_calls (calls st'))
    = (length (update_calls (calls (mkState demo_vehicles [])))
       + 3 * length numbers)%nat.
Proof.
  apply (contacted_vehicles_are_marked demo_world (mkState demo_vehicles [])
           demo_chats); reflexivity.
Defined.

Example demo_vehicles_after :
  vehicles (snd (updateContactedVehicles demo_world (λ _, NoFault)
                   (mkState demo_vehicles [])))
  = [mkVehicle "v1" "Renault" "Clio" (Some "06 12 34 56 78") None;
     mkVehicle "v2" "Peugeot" "208" (Some "0612345678") (Some "contacted");
     mkVehicle "v3" "Audi" "A3" (Some "+4915112345") (Some "contacted");
     mkVehicle "v4" "Fiat" "500" None (Some "new");
     mkVehicle "v5" "Seat" "Ibiza" (Some "0033612345678") (Some "contacted")].
Proof. reflexivity. Qed.

(** X15. Whatever the session and the store do, the handler leaves
    every row of the vehicle table in place and changes at most the
    contact status of rows that have a phone number, which it sets to
    contacted; it never clears a status.  A disconnected session is
    answered without any call. *)
Theorem contact_status_is_only_ever_set w fault st :
  let '(answer, st') := updateContactedVehicles w fault st in
  Forall2 (λ v v', v' = v ∨ (v' = marked v ∧ is_Some (phone v)))
          (vehicles st) (vehicles st')
  ∧ (answer = Disconnected ↔ client_connected w = false)
  ∧ (answer = Disconnected → st' = st).
Proof.
  unfold updateContactedVehicles.
  destruct (client_connected w) eqn:Hc; cbn [negb].
  - destruct (chats_answer w) as [chats|e].
    + set (requests := contacted_numbers chats ≫= formatted_numbers).
      assert (Hv : Forall2 (λ v v', v' = v ∨ (v' = marked v ∧ is_Some (phone v)))
                     (vehicles st)
                     (vehicles (run_requests fault requests
                        (mkState (vehicles st) (calls st ++ [ListChats]))))).
      { rewrite vehicles_run_requests. cbn [vehicles].
        apply Forall2_fmap_r, Forall_Forall2_diag, Forall_forall.
        intros v _. unfold compose.
        destruct (reached_by fault requests v) eqn:Hr; [|by left].
        right. split; [done|].
        unfold reached_by in Hr. apply existsb_exists in Hr as (n & _ & Hn).
        apply andb_prop in Hn as [_ Hn]. unfold ilike_contains in Hn.
        by destruct (phone v). }
      destruct (decide _); (split_and!; [exact Hv | done | done]).
    + split_and!; [|done|done]. cbn [vehicles].
      apply Forall_Forall2_diag, Forall_forall. by left.
  - split_and!; [|done|done].
    apply Forall_Forall2_diag, Forall_forall. by left.
Qed.

(** X16. With a connected session that lists its chats, every request
    is sent and each one that the store carries out marks its rows, also
    when another request is rejected.  The handler answers with a server
    error exactly when some request is rejected; a request that the
    store answers with an error is not reported. *)
Theorem update_errors_are_not_reported w fault st chats :
  client_connected w = true → chats_answer w = Returned chats →
  let numbers := contacted_numbers chats in
  let requests := numbers ≫= formatted_numbers in
  let '(answer, st') := updateContactedVehicles w fault st in
  (answer = Failed Js.Rejected ↔ ∃ n, n ∈ requests ∧ fault n = Throws)
  ∧ (answer = Updated (length numbers) numbers
     ↔ ∀ n, n ∈ requests → fault n ≠ Throws)
  ∧ vehicles st'
    = (λ v, if reached_by fault requests v then marked v else v)
        <$> vehicles st
  ∧ calls st' = calls st ++ ListChats :: (UpdateVehicles <$> requests).
Proof.
  intros Hc Hchats numbers requests.
  rewrite (updateContactedVehicles_run _ _ _ _ Hc Hchats).
  fold numbers. fold requests.
  rewrite vehicles_run_requests, calls_run_requests. cbn [vehicles calls].
  rewrite <- app_assoc.
  destruct (decide _) as [He|He]; rewrite Exists_exists in He.
  - split_and!; [done | | done | done].
    split; [done|]. intros Hno. destruct He as (n & Hin & Hn).
    by destruct (Hno n Hin).
  - split_and!; [| | done | done].
    + split; [done|]. intros ?. by destruct He.
    + split; [|done]. intros _ n Hin Hn. apply He. by exists n.
Qed.

Lemma update_errors_are_not_reported_witness :
  let fault := λ n, if String.eqb n "33612345678" then ReturnsError
                    else NoFault in
  let numbers := contacted_numbers demo_chats in
  let requests := numbers ≫= formatted_numbers in
  let '(answer, st') :=
    updateContactedVehicles demo_world fault (mkState demo_vehicles []) in
  (answer = Failed Js.Rejected ↔ ∃ n, n ∈ requests ∧ fault n = Throws)
  ∧ (answer = Updated (length numbers) numbers
     ↔ ∀ n, n ∈ requests → fault n ≠ Throws)
  ∧ vehicles st'
    = (λ v, if reached_by fault requests v then marked v else v)
        <$> vehicles (mkState demo_vehicles [])
  ∧ calls st'
    = calls (mkState demo_vehicles [])
      ++ ListChats :: (UpdateVehicles <$> requests).
Proof.
  intros fault.
  apply (update_errors_are_not_reported demo_world fault
           (mkState demo_vehicles []) demo_chats); reflexivity.
Defined.

Lemma update_requests_commute_witness :
  vehicles (run_requests (λ _, NoFault) ["0612345678"; "4915112345"]
              (mkState demo_vehicles []))
  = vehicles (run_requests (λ _, NoFault) ["4915112345"; "0612345678"]
                (mkState demo_vehicles [])).
Proof.
  apply (update_requests_commute (λ _, NoFault)
           ["0612345678"; "4915112345"] ["4915112345"; "0612345678"]
           (mkState demo_vehicles [])).
  apply perm_swap.
Defined.

End ContactedFaults.

(** ** Sending a message *)

Section SendMessage.

Import Send.

Context (sv : Services) (w : World).

Example sendMessage_demo :
  sendMessage demo_services Demo.world demo_request demo_desk
  = (Sent "out1" "c1",
     mkDesk
       (mkStore
          [Conversation.mk "c1" (Some "33612345678") None None (Some "u1")
                           (Some "2024-05-01T10:00:01.000Z")]
          [MessageRow.mk "c1" "hello" true "out1" "2024-05-01T10:00:00.000Z"
                         (Some "u1")])
       [FindOrCreateConversation "33612345678" None None;
        SendWhatsAppMessage "33612345678" "hello" None None;
        StoreCall (SaveMessage
                     (MessageRow.mk "c1" "hello" true "out1"
                                    "2024-05-01T10:00:00.000Z" (Some "u1")));
        StoreCall (UpdateLastMessageAt "c1" "2024-05-01T10:00:01.000Z");
        EmitNewMessage
          (mkPayload "out1" "33612345678" "hello" true "Unnamed Chat" "c1"
                     "c1" None)]).
Proof. reflexivity. Qed.

Lemma steps_since_app d st' calls :
  steps_since d (mkDesk st' (steps d ++ calls)) = calls.
Proof. unfold steps_since. cbn [steps]. by rewrite drop_app_length. Qed.

Lemma sendMessage_invalid req d :
  truthy (number req) = false ∨ truthy (message req) = false →
  sendMessage sv w req d = (BadRequest, d).
Proof.
  intros H. unfold sendMessage, sendMessage_try.
  by destruct H as [-> | ->]; rewrite ?orb_true_r.
Qed.

Lemma after_save_run conversation number message messageId user d o d' :
  after_save sv w conversation number message messageId user d = (o, d') →
  messages (desk_store d') = messages (desk_store d)
  ∧ (conversations (desk_store d') = conversations (desk_store d)
     ∨ desk_store d'
       = set_last_message_at (Conversation.id conversation) (touched_at sv)
                             (desk_store d))
  ∧ ∃ calls,
      steps d'
      = steps d
        ++ StoreCall (UpdateLastMessageAt (Conversation.id conversation)
                                          (touched_at sv)) :: calls
      ∧ Forall (λ st, is_send st = false ∧ is_store_call st = false) calls
      ∧ match o with
        | Returned _ =>
            ∃ vehicle before,
              calls = before
                        ++ [EmitNewMessage
                              (formatted_message conversation number message
                                                 messageId vehicle)]
              ∧ Forall (λ st, is_emit st = false) before
        | Thrown _ => Forall (λ st, is_emit st = false) calls
        end.
Proof.
  unfold after_save, bind, store_call, update_last_message_at, bind, emit,
    updateVehicleContactStatus, select_vehicle, log, bind, modify, ret, throw,
    await.
  cbn [store trace desk_store steps].
  destruct (update_fault w (Conversation.id conversation)) eqn:Hu;
    cbn [store trace desk_store steps app fmap list_fmap].
  all: destruct (Conversation.vehicle_id conversation) as [vid|];
    [destruct (truthy (Some vid));
       [destruct (status_rejects sv vid);
          [|destruct (vehicle_answer sv vid) as [vehicle|e]] |] |].
  all: cbn [desk_store steps]; intros [= <- <-]; cbn [desk_store steps messages
    conversations set_last_message_at].
  all: split; [done|]; split; [by (left + right)|].
  all: rewrite <- ?app_assoc; cbn [app]; eexists; split; [reflexivity|].
  all: split; [by repeat constructor|].
  all: try by repeat constructor.
  all: try by (eexists _, []; split; [reflexivity|by repeat constructor]).
  all: try by (eexists _, [_]; split; [reflexivity|by repeat constructor]).
  all: try by (eexists _, [_; _]; split; [reflexivity|by repeat constructor]).
Qed.

Lemma sendMessage_valid req d :
  truthy (number req) = true → truthy (message req) = true →
  sendMessage sv w req d
  = match resolved sv req d with
    | Thrown e => (Failed e, found sv req d)
    | Returned None => (CouldNotCreate, found sv req d)
    | Returned (Some conversation) =>
        let d2 := proceed (found sv req d) [] [send_step req] in
        match send_answer sv (default "" (number req))
                          (default "" (message req)) with
        | Thrown e => (Failed e, d2)
        | Returned None => (Failed Js.TypeError, d2)
        | Returned (Some messageId) =>
            let row := outgoing_row req conversation messageId (saved_at sv) in
            match save_answer w (Conversation.id conversation) messageId with
            | SaveThrows =>
                (Failed Js.Rejected, proceed d2 [] [StoreCall (SaveMessage row)])
            | SaveReturnsNull =>
                (Sent messageId (Conversation.id conversation),
                 proceed d2 [] [StoreCall (SaveMessage row)])
            | SaveReturnsRow =>
                match after_save sv w conversation (default "" (number req))
                        (default "" (message req)) messageId
                        (or_else (userId req) (Conversation.user_id conversation))
                        (proceed d2 [row] [StoreCall (SaveMessage row)]) with
                | (Returned _, d4) =>
                    (Sent messageId (Conversation.id conversation), d4)
                | (Thrown e, d4) => (Failed e, d4)
                end
            end
        end
    end.
Proof.
  intros Hn Hm. unfold sendMessage, sendMessage_try. rewrite Hn, Hm.
  cbn [negb orb]. unfold resolved, found, proceed.
  unfold bind at 1, findOrCreateConversation, bind at 1, log, modify.
  cbn [desk_store steps].
  destruct (resolve sv _ _ _ _) as [[[conversation|]|e] conversations'];
    cbn [fst snd]; [|done..].
  unfold bind at 1, sendWhatsAppMessage, bind at 1, log, modify, await.
  cbn [desk_store steps conversations messages].
  rewrite app_nil_r.
  destruct (send_answer sv _ _) as [[messageId|]|e]; [|done..].
  unfold bind at 1, ret. unfold bind at 1, store_call, saveMessage.
  unfold bind at 1, emit, modify. cbn [store trace desk_store steps].
  unfold outgoing_row.
  destruct (save_answer w _ _); cbn [store trace desk_store steps app fmap
    list_fmap]; unfold throw, ret, bind, modify; cbn [store trace insert_message
    conversations messages fmap list_fmap app]. 
  all: rewrite ?app_nil_r.
  - unfold insert_message, send_step. cbn [conversations messages].
    by destruct (after_save _ _ _ _ _ _ _ _) as [[[]|e] d4].
  - done.
  - done.
Qed.

End SendMessage.

Section SendMessageProperties.

Import Send.

Context (sv : Services) (w : World).

Lemma truthy_cases (v : option string) : truthy v = true ∨ truthy v = false.
Proof. destruct (truthy v); auto. Qed.

Lemma steps_since_proceed d d0 rows calls :
  steps d0 = steps d ++ calls →
  ∀ more, steps_since d (proceed d0 rows more) = calls ++ more.
Proof.
  intros H more. unfold steps_since, proceed. cbn [steps]. rewrite H.
  by rewrite <- app_assoc, drop_app_length.
Qed.

Lemma steps_found req d :
  steps (found sv req d)
  = steps d ++ [FindOrCreateConversation (default "" (number req))
                                         (vehicleId req) (userId req)].
Proof. done. Qed.

Lemma proceed_proceed d rows calls rows' calls' :
  proceed (proceed d rows calls) rows' calls'
  = proceed d (rows ++ rows') (calls ++ calls').
Proof. unfold proceed. cbn [desk_store steps conversations messages].
  by rewrite <- !app_assoc. Qed.

Lemma sendMessage_course req d :
  truthy (number req) = true → truthy (message req) = true →
  Course sv w req d (fst (sendMessage sv w req d)) (snd (sendMessage sv w req d)).
Proof.
  intros Hn Hm. rewrite (sendMessage_valid sv w req d Hn Hm).
  destruct (resolved sv req d) as [[conversation|]|e] eqn:Hr.
  2,3: by apply NoConversation; rewrite Hr.
  cbv zeta.
  destruct (send_answer sv _ _) as [[messageId|]|e] eqn:Hs.
  2,3: by eapply NotSent; [exact Hr | rewrite Hs].
  destruct (save_answer w _ _) eqn:Hsave.
  - rewrite proceed_proceed. cbn [app].
    destruct (after_save _ _ _ _ _ _ _ _) as [o d4] eqn:Ha.
    pose proof (Stored sv w req d conversation messageId o d4 Hr Hs Hsave Ha) as HC.
    by destruct o as [[]|e].
  - rewrite proceed_proceed. cbn [app fst snd].
    eapply NotStored; [exact Hr | exact Hs | by rewrite Hsave].
  - rewrite proceed_proceed. cbn [app fst snd].
    eapply NotStored; [exact Hr | exact Hs | by rewrite Hsave].
Qed.

End SendMessageProperties.

(** Evaluates a filter over an explicit list of steps. *)
Ltac filter_steps :=
  repeat first [ rewrite filter_cons_True by reflexivity
               | rewrite filter_cons_False by (cbn; congruence) ];
  rewrite ?filter_nil.

Section SendMessageTheorems.

Import Send.

Context (sv : Services) (w : World).

(** X17. A request without a number or without a message is answered
    with 400 and nothing else happens: no conversation is looked up or
    created, nothing is sent, the store is not called.  No other request
    is answered with 400. *)
Theorem invalid_request_is_refused_without_effect req d :
  (fst (sendMessage sv w req d) = BadRequest
   ↔ truthy (number req) = false ∨ truthy (message req) = false)
  ∧ (fst (sendMessage sv w req d) = BadRequest
     → snd (sendMessage sv w req d) = d).
Proof.
  destruct (truthy_cases (number req)) as [Hn|Hn];
    [destruct (truthy_cases (message req)) as [Hm|Hm]|].
  - assert (Hno : fst (sendMessage sv w req d) ≠ BadRequest).
    { destruct (sendMessage_course sv w req d Hn Hm)
        as [answer H|conversation answer _ H|conversation messageId answer _ _ H
            |conversation messageId o d' _ _ _ _].
      - destruct (resolved sv req d) as [[?|]|?]; [done|by subst..].
      - destruct (send_answer sv _ _) as [[?|]|?]; [done|by subst..].
      - destruct (save_answer w _ _); [done|by subst..].
      - by destruct o. }
    split; [|done]. split; [done|]. intros [?|?]; congruence.
  - rewrite (sendMessage_invalid sv w req d) by auto. split; [|done].
    split; auto.
  - rewrite (sendMessage_invalid sv w req d) by auto. split; [|done].
    split; auto.
Qed.

Lemma steps_since_found req d :
  steps_since d (found sv req d)
  = [FindOrCreateConversation (default "" (number req)) (vehicleId req)
                              (userId req)].
Proof. unfold steps_since, found. cbn [steps]. by rewrite drop_app_length. Qed.

Lemma after_save_steps conversation number message messageId user d0 o d' d
    calls0 :
  after_save sv w conversation number message messageId user d0 = (o, d') →
  steps d0 = steps d ++ calls0 →
  ∃ calls,
    steps_since d d'
    = calls0 ++ StoreCall (UpdateLastMessageAt (Conversation.id conversation)
                                               (touched_at sv)) :: calls
    ∧ steps d'
      = steps d0 ++ StoreCall (UpdateLastMessageAt (Conversation.id conversation)
                                                   (touched_at sv)) :: calls
    ∧ Forall (λ st, is_send st = false ∧ is_store_call st = false) calls
    ∧ match o with
      | Returned _ =>
          ∃ vehicle before,
            calls = before
                      ++ [EmitNewMessage
                            (formatted_message conversation number message
                                               messageId vehicle)]
            ∧ Forall (λ st, is_emit st = false) before
      | Thrown _ => Forall (λ st, is_emit st = false) calls
      end.
Proof.
  intros Ha H0. destruct (after_save_run sv w _ _ _ _ _ _ _ _ Ha)
    as (_ & _ & calls & Hsteps & Hcalls & Ho).
  exists calls. split; [|done].
  unfold steps_since. rewrite Hsteps, H0, <- app_assoc.
  by rewrite drop_app_length.
Qed.

(** X18. The message is handed to the session only for a valid request
    whose conversation was found or created, and at most once.  When no
    conversation comes back, the handler answers that it could not
    create one after that single call, and the messages are as before. *)
Theorem nothing_is_sent_without_a_conversation req d :
  let answer := fst (sendMessage sv w req d) in
  let d' := snd (sendMessage sv w req d) in
  (send_step req ∈ steps_since d d'
   ↔ truthy (number req) = true ∧ truthy (message req) = true
     ∧ ∃ conversation, resolved sv req d = Returned (Some conversation))
  ∧ (length (filter (λ st, is_send st = true) (steps_since d d')) ≤ 1)%nat
  ∧ (answer = CouldNotCreate
     ↔ truthy (number req) = true ∧ truthy (message req) = true
       ∧ resolved sv req d = Returned None)
  ∧ (answer = CouldNotCreate
     → steps_since d d'
       = [FindOrCreateConversation (default "" (number req)) (vehicleId req)
                                   (userId req)]
       ∧ messages (desk_store d') = messages (desk_store d)).
Proof.
  cbv zeta.
  assert (Hinvalid :
    truthy (number req) = false ∨ truthy (message req) = false →
    sendMessage sv w req d = (BadRequest, d)) by apply sendMessage_invalid.
  destruct (truthy_cases (number req)) as [Hn|Hn];
    [destruct (truthy_cases (message req)) as [Hm|Hm]|].
  2,3: rewrite Hinvalid by auto; cbn [fst snd]; unfold steps_since;
       rewrite drop_all; split_and!;
       [ split; [by intros ?%elem_of_nil | intros (? & ? & _); congruence]
       | rewrite filter_nil; cbn [length]; lia
       | split; [done | intros (? & ? & _); congruence]
       | done ].
  destruct (sendMessage_course sv w req d Hn Hm)
    as [answer H|conversation answer Hr H|conversation messageId answer Hr Hs H
        |conversation messageId o d' Hr Hs Hsave Ha].
  - rewrite steps_since_found.
    split_and!.
    + split.
      * by intros [=]%list_elem_of_singleton.
      * intros (_ & _ & c & Hc). by rewrite Hc in H.
    + filter_steps. cbn [length]. lia.
    + destruct (resolved sv req d) as [[?|]|?]; [done|subst..].
      * done.
      * split; [done|]. by intros (_ & _ & ?).
    + done.
  - rewrite (steps_since_proceed _ _ _ _ (steps_found sv req d)).
    cbn [app]. split_and!.
    + split; [by eauto|]. intros _. apply elem_of_cons. right.
      apply list_elem_of_here.
    + filter_steps. cbn [length]. lia.
    + rewrite Hr. destruct (send_answer sv _ _) as [[?|]|?]; [done|subst..].
      all: split; [done|]; by intros (_ & _ & ?).
    + destruct (send_answer sv _ _) as [[?|]|?]; [done|by subst..].
  - rewrite (steps_since_proceed _ _ _ _ (steps_found sv req d)).
    cbn [app]. split_and!.
    + split; [by eauto|]. intros _. apply elem_of_cons. right.
      apply list_elem_of_here.
    + filter_steps. cbn [length]. lia.
    + rewrite Hr. destruct (save_answer w _ _); [done|subst..].
      all: split; [done|]; by intros (_ & _ & ?).
    + destruct (save_answer w _ _); [done|by subst..].
  - destruct (after_save_steps _ _ _ _ _ _ _ _ d
                [FindOrCreateConversation (default "" (number req))
                   (vehicleId req) (userId req); send_step req;
                 StoreCall (SaveMessage (outgoing_row req conversation
                                           messageId (saved_at sv)))] Ha)
      as (calls & Hsteps & _ & Hcalls & _).
    { unfold proceed, found. cbn [steps]. by rewrite <- app_assoc. }
    rewrite Hsteps. cbn [app]. split_and!.
    + split; [by eauto|]. intros _. apply elem_of_cons. right.
      apply list_elem_of_here.
    + filter_steps.
      assert (Hnone : filter (λ st, is_send st = true) calls = []).
      { clear -Hcalls. induction Hcalls as [|st calls [Hst _] _ IH]; [done|].
        rewrite filter_cons_False by congruence. done. }
      rewrite Hnone. cbn. lia.
    + rewrite Hr. split; [by destruct o|]. by intros (_ & _ & ?).
    + by destruct o.
Qed.

End SendMessageTheorems.

Section SendMessageOutcomes.

Import Send.

Context (sv : Services) (w : World).

Lemma after_save_store conversation number message messageId user d0 o d' :
  after_save sv w conversation number message messageId user d0 = (o, d') →
  messages (desk_store d') = messages (desk_store d0).
Proof. intros Ha. by destruct (after_save_run sv w _ _ _ _ _ _ _ _ Ha). Qed.

(** X19. A request answered with success was valid, its conversation
    was found or created, and the message was handed to the session
    before the store was asked to save one outgoing row carrying the
    identifier of the sent message, the body, the clock reading and the
    user of the request or else of the conversation.  The answer names
    that identifier and that conversation.  The messages of the store
    grow by that row or, when the store declines it, not at all. *)
Theorem accepted_message_was_sent_then_offered_to_the_store req d messageId
    conversationId d' :
  sendMessage sv w req d = (Sent messageId conversationId, d') →
  ∃ conversation,
    truthy (number req) = true ∧ truthy (message req) = true
    ∧ resolved sv req d = Returned (Some conversation)
    ∧ Conversation.id conversation = conversationId
    ∧ send_answer sv (default "" (number req)) (default "" (message req))
      = Returned (Some messageId)
    ∧ let row := outgoing_row req conversation messageId (saved_at sv) in
      (∃ rest,
         steps_since d d'
         = FindOrCreateConversation (default "" (number req)) (vehicleId req)
                                    (userId req)
             :: send_step req :: StoreCall (SaveMessage row) :: rest
         ∧ Forall (λ st, is_send st = false
                         ∧ ∀ r, st ≠ StoreCall (SaveMessage r)) rest)
      ∧ (messages (desk_store d') = messages (desk_store d) ++ [row]
         ∨ (messages (desk_store d') = messages (desk_store d)
            ∧ save_answer w conversationId messageId = SaveReturnsNull)).
Proof.
  intros Hrun.
  destruct (truthy_cases (number req)) as [Hn|Hn];
    [destruct (truthy_cases (message req)) as [Hm|Hm]|].
  2,3: by rewrite (sendMessage_invalid sv w req d) in Hrun by auto.
  pose proof (sendMessage_course sv w req d Hn Hm) as HC.
  rewrite Hrun in HC. cbn [fst snd] in HC.
  inversion HC as [answer H|conversation answer Hr H
                   |conversation mid answer Hr Hs H
                   |conversation mid o d4 Hr Hs Hsave Ha]; subst.
  - by destruct (resolved sv req d) as [[?|]|?].
  - by destruct (send_answer sv _ _) as [[?|]|?].
  - destruct (save_answer w _ _) eqn:Hsave; [done| |done].
    injection H as -> ->.
    exists conversation. cbv zeta. split_and!; [done..| |].
    + exists []. split; [|done].
      by rewrite (steps_since_proceed _ _ _ _ (steps_found sv req d)).
    + right. split; [|done]. unfold proceed, found.
      cbn [desk_store messages]. by rewrite app_nil_r.
  - destruct o as [[]|e]; [|done].
    injection H as Hmid Hcid. subst mid conversationId.
    exists conversation. cbv zeta. split_and!; [done..| |].
    + destruct (after_save_steps sv w _ _ _ _ _ _ _ _ d
                  [FindOrCreateConversation (default "" (number req))
                     (vehicleId req) (userId req); send_step req;
                   StoreCall (SaveMessage (outgoing_row req conversation
                                             messageId (saved_at sv)))] Ha)
        as (calls & Hsteps & _ & Hcalls & _).
      { unfold proceed, found. cbn [steps]. by rewrite <- app_assoc. }
      eexists. split; [exact Hsteps|].
      constructor; [by split|].
      eapply Forall_impl; [exact Hcalls|].
      intros st [Hst Hst']. split; [done|]. intros r ->. done.
    + left. rewrite (after_save_store _ _ _ _ _ _ _ _ Ha).
      unfold proceed, found. by cbn [desk_store messages].
Qed.

(** X20. An event is emitted only for a message that was sent and that
    the store has saved: the answer is then a success, the emission is
    the last thing the handler does, it happens once, and the event
    names the sent identifier, the number, the body and the
    conversation of the saved row. *)
Theorem new_message_is_emitted_only_for_a_stored_row req d payload :
  let answer := fst (sendMessage sv w req d) in
  let d' := snd (sendMessage sv w req d) in
  EmitNewMessage payload ∈ steps_since d d' →
  ∃ conversation messageId,
    answer = Sent messageId (Conversation.id conversation)
    ∧ outgoing_row req conversation messageId (saved_at sv)
      ∈ messages (desk_store d')
    ∧ last (steps d') = Some (EmitNewMessage payload)
    ∧ length (filter (λ st, is_emit st = true) (steps_since d d')) = 1%nat
    ∧ payload_message_id payload = messageId
    ∧ Some (payload_to payload) = number req
    ∧ Some (payload_body payload) = message req
    ∧ payload_isFromMe payload = true
    ∧ payload_conversation_id payload = Conversation.id conversation.
Proof.
  cbv zeta. intros Hemit.
  destruct (truthy_cases (number req)) as [Hn|Hn];
    [destruct (truthy_cases (message req)) as [Hm|Hm]|].
  2,3: rewrite (sendMessage_invalid sv w req d) in Hemit by auto;
       unfold steps_since in Hemit; cbn [snd] in Hemit;
       rewrite drop_all in Hemit; by apply elem_of_nil in Hemit.
  destruct (sendMessage_course sv w req d Hn Hm)
    as [answer H|conversation answer Hr H|conversation messageId answer Hr Hs H
        |conversation messageId o d' Hr Hs Hsave Ha].
  - rewrite steps_since_found in Hemit.
    by apply list_elem_of_singleton in Hemit.
  - rewrite (steps_since_proceed _ _ _ _ (steps_found sv req d)) in Hemit.
    cbn [app] in Hemit. unfold send_step in Hemit.
    by repeat (apply elem_of_cons in Hemit as [Hemit|Hemit];
               [discriminate Hemit|]); apply elem_of_nil in Hemit.
  - rewrite (steps_since_proceed _ _ _ _ (steps_found sv req d)) in Hemit.
    cbn [app] in Hemit. unfold send_step in Hemit.
    by repeat (apply elem_of_cons in Hemit as [Hemit|Hemit];
               [discriminate Hemit|]); apply elem_of_nil in Hemit.
  - pose proof (after_save_store _ _ _ _ _ _ _ _ Ha) as Hmsgs.
    destruct (after_save_steps sv w _ _ _ _ _ _ _ _ d
                [FindOrCreateConversation (default "" (number req))
                   (vehicleId req) (userId req); send_step req;
                 StoreCall (SaveMessage (outgoing_row req conversation
                                           messageId (saved_at sv)))] Ha)
      as (calls' & Hsteps & Hfull & Hcalls & Ho).
    { unfold proceed, found. cbn [steps]. by rewrite <- app_assoc. }
    rewrite Hsteps in Hemit |- *. cbn [app] in Hemit |- *.
    unfold send_step in Hemit.
    do 4 (apply elem_of_cons in Hemit as [Hemit|Hemit];
          [discriminate Hemit|]).
    destruct o as [[]|e].
    + destruct Ho as (vehicle & before & -> & Hbefore).
      apply elem_of_app in Hemit as [Hemit|Hemit].
      { rewrite Forall_forall in Hbefore. by apply Hbefore in Hemit. }
      apply list_elem_of_singleton in Hemit as [= ->].
      exists conversation, messageId. split_and!.
      * done.
      * rewrite Hmsgs. unfold proceed. cbn [desk_store messages].
        apply elem_of_app. right. apply list_elem_of_here.
      * rewrite Hfull, app_comm_cons, app_assoc. apply last_snoc.
      * unfold send_step. filter_steps.
        rewrite filter_app, filter_cons_True, filter_nil by reflexivity.
        assert (Hnone : filter (λ st, is_emit st = true) before = []).
        { clear -Hbefore.
          induction Hbefore as [|st before Hst _ IH]; [done|].
          rewrite filter_cons_False by congruence. done. }
        by rewrite Hnone.
      * reflexivity.
      * cbn [formatted_message payload_to].
        destruct (number req); [reflexivity|]. by cbn in Hn.
      * cbn [formatted_message payload_body].
        destruct (message req); [reflexivity|]. by cbn in Hm.
      * reflexivity.
      * reflexivity.
    + rewrite Forall_forall in Ho. by apply Ho in Hemit.
Qed.

End SendMessageOutcomes.

Section SendMessageAndSync.

Import Send.

Context (sv : Services) (w : World).

(** X21. When the message has been sent and the store then declines or
    fails to save it, the handler stops there: the row is not in the
    store, the conversation date is not updated, no vehicle call is made
    and no event is emitted.  If the store resolved to nothing the
    client is still told that the message was sent; if it rejected, the
    client gets a server error although the message has gone out. *)
Theorem unsaved_message_leaves_no_trace req d conversation messageId :
  truthy (number req) = true → truthy (message req) = true →
  resolved sv req d = Returned (Some conversation) →
  send_answer sv (default "" (number req)) (default "" (message req))
  = Returned (Some messageId) →
  save_answer w (Conversation.id conversation) messageId ≠ SaveReturnsRow →
  let answer := fst (sendMessage sv w req d) in
  let d' := snd (sendMessage sv w req d) in
  steps_since d d'
  = [FindOrCreateConversation (default "" (number req)) (vehicleId req)
                              (userId req);
     send_step req;
     StoreCall (SaveMessage (outgoing_row req conversation messageId
                                          (saved_at sv)))]
  ∧ messages (desk_store d') = messages (desk_store d)
  ∧ conversations (desk_store d') = conversations (desk_store (found sv req d))
  ∧ answer
    = match save_answer w (Conversation.id conversation) messageId with
      | SaveThrows => Failed Js.Rejected
      | _ => Sent messageId (Conversation.id conversation)
      end.
Proof.
  intros Hn Hm Hr Hs Hsave. cbv zeta.
  rewrite (sendMessage_valid sv w req d Hn Hm), Hr. cbv zeta. rewrite Hs.
  destruct (save_answer w _ _); [done|..]; cbn [fst snd];
    rewrite proceed_proceed;
    rewrite (steps_since_proceed _ _ _ _ (steps_found sv req d));
    unfold proceed, found; cbn [desk_store messages conversations app];
    by rewrite app_nil_r.
Qed.

Lemma stored_save_call req d row :
  StoreCall (SaveMessage row)
    ∈ steps_since d (snd (sendMessage sv w req d)) →
  save_answer w (MessageRow.conversation_id row) (MessageRow.message_id row)
  = SaveReturnsRow →
  messages (desk_store (snd (sendMessage sv w req d)))
  = messages (desk_store d) ++ [row]
  ∧ MessageRow.is_from_me row = true.
Proof.
  intros Hin Hsave.
  destruct (truthy_cases (number req)) as [Hn|Hn];
    [destruct (truthy_cases (message req)) as [Hm|Hm]|].
  2,3: rewrite (sendMessage_invalid sv w req d) in Hin by auto;
       unfold steps_since in Hin; cbn [snd] in Hin;
       rewrite drop_all in Hin; by apply elem_of_nil in Hin.
  destruct (sendMessage_course sv w req d Hn Hm)
    as [answer H|conversation answer Hr H|conversation messageId answer Hr Hs H
        |conversation messageId o d' Hr Hs Hsave' Ha].
  - rewrite steps_since_found in Hin.
    by apply list_elem_of_singleton in Hin.
  - rewrite (steps_since_proceed _ _ _ _ (steps_found sv req d)) in Hin.
    cbn [app] in Hin. unfold send_step in Hin.
    by repeat (apply elem_of_cons in Hin as [Hin|Hin];
               [discriminate Hin|]); apply elem_of_nil in Hin.
  - rewrite (steps_since_proceed _ _ _ _ (steps_found sv req d)) in Hin.
    cbn [app] in Hin. unfold send_step in Hin.
    do 2 (apply elem_of_cons in Hin as [Hin|Hin]; [discriminate Hin|]).
    apply list_elem_of_singleton in Hin as [= ->].
    cbn [outgoing_row MessageRow.conversation_id MessageRow.message_id]
      in Hsave.
    by rewrite Hsave in H.
  - destruct (after_save_steps sv w _ _ _ _ _ _ _ _ d
                [FindOrCreateConversation (default "" (number req))
                   (vehicleId req) (userId req); send_step req;
                 StoreCall (SaveMessage (outgoing_row req conversation
                                           messageId (saved_at sv)))] Ha)
      as (calls & Hsteps & _ & Hcalls & _).
    { unfold proceed, found. cbn [steps]. by rewrite <- app_assoc. }
    rewrite Hsteps in Hin. cbn [app] in Hin. unfold send_step in Hin.
    do 2 (apply elem_of_cons in Hin as [Hin|Hin]; [discriminate Hin|]).
    apply elem_of_cons in Hin as [Hin|Hin].
    + injection Hin as ->.
      rewrite (after_save_store _ _ _ _ _ _ _ _ _ _ Ha).
      unfold proceed, found. by cbn [desk_store messages].
    + apply elem_of_cons in Hin as [Hin|Hin]; [discriminate Hin|].
      rewrite Forall_forall in Hcalls. by destruct (Hcalls _ Hin) as [_ ?].
Qed.

(** X22. A row that [sendMessage] has stored is known to a later sync of
    its conversation, whatever the session then returns: unless the
    identifier lookup of that pass answers with an error, the pass does
    not ask the store to save a message with the identifier of the sent
    one. *)
Theorem sent_message_is_not_saved_again_by_sync req d row w' :
  let d' := snd (sendMessage sv w req d) in
  let cid := MessageRow.conversation_id row in
  StoreCall (SaveMessage row) ∈ steps_since d d' →
  save_answer w cid (MessageRow.message_id row) = SaveReturnsRow →
  message_ids_fault w' cid ≠ ReturnsError →
  row ∈ messages (desk_store d')
  ∧ MessageRow.is_from_me row = true
  ∧ ∀ row', SaveMessage row'
              ∈ calls_since (machine_of d')
                            (snd (sync_one w' cid (machine_of d'))) →
            MessageRow.message_id row' ≠ MessageRow.message_id row.
Proof.
  cbv zeta. intros Hin Hsave Hl.
  destruct (stored_save_call req d row Hin Hsave) as [Hmsgs Hme].
  split_and!; [|done|].
  - rewrite Hmsgs. apply elem_of_app. right. apply list_elem_of_here.
  - intros row' Hrow' Heq.
    destruct (sync_one_saves w' (machine_of (snd (sendMessage sv w req d)))
                (MessageRow.conversation_id row) Hl)
      as (saved & _ & Hcalls & _).
    destruct (Hcalls row' Hrow') as [_ Hnew]. apply Hnew.
    rewrite Heq. unfold stored_ids, rows_of_conversation, machine_of.
    cbn [store]. rewrite Hmsgs.
    apply list_elem_of_fmap_2, list_elem_of_filter. split; [done|].
    apply elem_of_app. right. apply list_elem_of_here.
Qed.

End SendMessageAndSync.

(** ** The theorems at work on the examples *)

Lemma sync_one_counts_witness :
  let s' := snd (sync_one Demo.world "c1" Demo.with_a) in
  (2 + 1 ≤ 3)%nat
  ∧ length (messages (store s'))
    = (length (messages (store Demo.with_a)) + 2)%nat
  ∧ (2 ≤ length (filter (λ e, is_save e = true)
                        (calls_since Demo.with_a s')))%nat
  ∧ (length (filter (λ e, is_save e = true) (calls_since Demo.with_a s')) + 1
     ≤ 3)%nat.
Proof.
  apply (sync_one_counts Demo.world Demo.with_a "c1" "c1" 3 2 1).
  reflexivity.
Defined.

Lemma saved_rows_copy_fetched_messages_witness :
  let s' := snd (sync_one Demo.world "c1" Demo.fresh) in
  (∀ row, SaveMessage row ∈ calls_since Demo.fresh s' →
     ∃ msg iso,
       msg ∈ Demo.batch
       ∧ Js.toISOString (Msg.timestamp msg * 1000) = Some iso
       ∧ row = MessageRow.mk "c1" (Msg.body msg) (Msg.fromMe msg)
                 (Msg.id_serialized msg) iso (Conversation.user_id Demo.alice))
  ∧ ∃ added,
      messages (store s') = messages (store Demo.fresh) ++ added
      ∧ ∀ row, row ∈ added → SaveMessage row ∈ calls_since Demo.fresh s'.
Proof.
  apply (saved_rows_copy_fetched_messages Demo.world Demo.fresh "c1"
           Demo.alice Demo.alice_chat Demo.batch).
  reflexivity.
Defined.

Lemma bulk_turn_agrees_with_single_sync_witness :
  let chats := [Chat.mk "4915112345678@c.us"; Demo.alice_chat] in
  let b := mkBulk Demo.fresh 0 0 [] in
  store (machine (turn Demo.world chats Demo.alice b))
  = store (snd (sync_one Demo.world (Conversation.id Demo.alice) Demo.fresh))
  ∧ ∀ total new skipped,
      fst (sync_one Demo.world (Conversation.id Demo.alice) Demo.fresh)
      = SyncResult (Conversation.id Demo.alice) total new skipped →
      totalNewMessages (turn Demo.world chats Demo.alice b)
      = (totalNewMessages b + new)%nat.
Proof.
  apply (bulk_turn_agrees_with_single_sync Demo.world Demo.fresh
           (mkBulk Demo.fresh 0 0 [])
           [Chat.mk "4915112345678@c.us"; Demo.alice_chat]
           Demo.alice Demo.alice_chat Demo.alice_chat Demo.batch);
    reflexivity.
Defined.

Lemma failed_save_is_retried_witness :
  let w1 := with_save_answer (λ _ _, SaveReturnsNull) Demo.world in
  let s1 := snd (sync_one w1 "c1" Demo.fresh) in
  (Msg.id_serialized (Demo.msg "a" 100) ∉ stored_ids (store s1) "c1")
  ∧ SaveMessage (row_of "c1" (Conversation.user_id Demo.alice)
                        (Demo.msg "a" 100) "1970-01-01T00:01:40.000Z")
      ∈ calls_since s1 (snd (sync_one Demo.world "c1" s1)).
Proof.
  apply (failed_save_is_retried
           (with_save_answer (λ _ _, SaveReturnsNull) Demo.world) Demo.world
           "c1" Demo.fresh Demo.alice Demo.alice_chat Demo.batch
           (Demo.msg "a" 100) "1970-01-01T00:01:40.000Z").
  - reflexivity.
  - apply list_elem_of_here.
  - apply not_elem_of_nil.
  - reflexivity.
  - discriminate.
  - reflexivity.
  - reflexivity.
  - reflexivity.
  - reflexivity.
  - reflexivity.
Defined.

Lemma sync_all_reads_are_bounded_witness :
  length Demo.five
  = (length (conversations (store Demo.five_tracked)) `min` 200)%nat
  ∧ ∃ rest,
      calls_since Demo.five_tracked (snd (sync_all Demo.world Demo.five_tracked))
      = SelectConversationsPage :: GetChats :: rest
      ∧ Forall (λ e, is_turn_call e = true) rest
      ∧ (length (filter (λ e, is_fetch e = true) rest)
         ≤ length Demo.five)%nat.
Proof.
  apply (sync_all_reads_are_bounded Demo.world Demo.five_tracked Demo.five
           [Chat.mk "4915112345678@c.us"; Demo.alice_chat]).
  reflexivity.
Defined.

Section SendMessageWitnesses.

Import Send.

Lemma accepted_message_was_sent_then_offered_to_the_store_witness :
  let d' := snd (sendMessage demo_services Demo.world demo_request demo_desk) in
  ∃ conversation,
    truthy (number demo_request) = true
    ∧ truthy (message demo_request) = true
    ∧ resolved demo_services demo_request demo_desk
      = Returned (Some conversation)
    ∧ Conversation.id conversation = "c1"
    ∧ send_answer demo_services (default "" (number demo_request))
                  (default "" (message demo_request))
      = Returned (Some "out1")
    ∧ let row := outgoing_row demo_request conversation "out1"
                              (saved_at demo_services) in
      (∃ rest,
         steps_since demo_desk d'
         = FindOrCreateConversation (default "" (number demo_request))
                                    (vehicleId demo_request)
                                    (userId demo_request)
             :: send_step demo_request :: StoreCall (SaveMessage row) :: rest
         ∧ Forall (λ st, is_send st = false
                         ∧ ∀ r, st ≠ StoreCall (SaveMessage r)) rest)
      ∧ (messages (desk_store d') = messages (desk_store demo_desk) ++ [row]
         ∨ (messages (desk_store d') = messages (desk_store demo_desk)
            ∧ save_answer Demo.world "c1" "out1" = SaveReturnsNull)).
Proof.
  apply (accepted_message_was_sent_then_offered_to_the_store
           demo_services Demo.world demo_request demo_desk "out1" "c1").
  reflexivity.
Defined.

Lemma new_message_is_emitted_only_for_a_stored_row_witness :
  let payload := mkPayload "out1" "33612345678" "hello" true "Unnamed Chat"
                           "c1" "c1" None in
  let answer :=
    fst (sendMessage demo_services Demo.world demo_request demo_desk) in
  let d' := snd (sendMessage demo_services Demo.world demo_request demo_desk) in
  ∃ conversation messageId,
    answer = Sent messageId (Conversation.id conversation)
    ∧ outgoing_row demo_request conversation messageId
                   (saved_at demo_services)
      ∈ messages (desk_store d')
    ∧ last (steps d') = Some (EmitNewMessage payload)
    ∧ length (filter (λ st, is_emit st = true) (steps_since demo_desk d'))
      = 1%nat
    ∧ payload_message_id payload = messageId
    ∧ Some (payload_to payload) = number demo_request
    ∧ Some (payload_body payload) = message demo_request
    ∧ payload_isFromMe payload = true
    ∧ payload_conversation_id payload = Conversation.id conversation.
Proof.
  apply (new_message_is_emitted_only_for_a_stored_row
           demo_services Demo.world demo_request demo_desk
           (mkPayload "out1" "33612345678" "hello" true "Unnamed Chat"
                      "c1" "c1" None)).
  do 4 apply list_elem_of_further. apply list_elem_of_here.
Defined.

Lemma unsaved_message_leaves_no_trace_witness :
  let w := with_save_answer (λ _ _, SaveThrows) Demo.world in
  let answer := fst (sendMessage demo_services w demo_request demo_desk) in
  let d' := snd (sendMessage demo_services w demo_request demo_desk) in
  steps_since demo_desk d'
  = [FindOrCreateConversation (default "" (number demo_request))
                              (vehicleId demo_request) (userId demo_request);
     send_step demo_request;
     StoreCall (SaveMessage (outgoing_row demo_request Demo.alice "out1"
                                          (saved_at demo_services)))]
  ∧ messages (desk_store d') = messages (desk_store demo_desk)
  ∧ conversations (desk_store d')
    = conversations (desk_store (found demo_services demo_request demo_desk))
  ∧ answer
    = match save_answer w (Conversation.id Demo.alice) "out1" with
      | SaveThrows => Failed Js.Rejected
      | _ => Sent "out1" (Conversation.id Demo.alice)
      end.
Proof.
  apply (unsaved_message_leaves_no_trace demo_services
           (with_save_answer (λ _ _, SaveThrows) Demo.world)
           demo_request demo_desk Demo.alice "out1");
    [reflexivity | reflexivity | reflexivity | reflexivity | discriminate].
Defined.

Lemma sent_message_is_not_saved_again_by_sync_witness :
  let row := MessageRow.mk "c1" "hello" true "out1" "2024-05-01T10:00:00.000Z"
                           (Some "u1") in
  let d' := snd (sendMessage demo_services Demo.world demo_request demo_desk) in
  row ∈ messages (desk_store d')
  ∧ MessageRow.is_from_me row = true
  ∧ ∀ row', SaveMessage row'
              ∈ calls_since (machine_of d')
                            (snd (sync_one Demo.world "c1" (machine_of d'))) →
            MessageRow.message_id row' ≠ MessageRow.message_id row.
Proof.
  apply (sent_message_is_not_saved_again_by_sync demo_services Demo.world
           demo_request demo_desk
           (MessageRow.mk "c1" "hello" true "out1" "2024-05-01T10:00:00.000Z"
                          (Some "u1"))
           Demo.world).
  - do 2 apply list_elem_of_further. apply list_elem_of_here.
  - reflexivity.
  - discriminate.
Defined.

End SendMessageWitnesses.

(** ** Sorting *)

Section ArrSort.

Context {A : Type} (before : A → A → bool).

Lemma insert_perm x xs : Arr.insert before x xs ≡ₚ x :: xs.
Proof.
  induction xs as [|y xs IH]; [done|]. cbn [Arr.insert].
  destruct (before x y); [done|]. rewrite IH. apply perm_swap.
Qed.

Lemma sort_snoc xs x :
  Arr.sort before (xs ++ [x]) = Arr.insert before x (Arr.sort before xs).
Proof. unfold Arr.sort. by rewrite fold_left_app. Qed.

Lemma sort_perm xs : Arr.sort before xs ≡ₚ xs.
Proof.
  induction xs as [|x xs IH] using rev_ind; [done|].
  rewrite sort_snoc, insert_perm, IH. by rewrite Permutation_app_comm.
Qed.

Lemma filter_insert_other (P : A → Prop) `{∀ a, Decision (P a)} x xs :
  ¬ P x → filter P (Arr.insert before x xs) = filter P xs.
Proof.
  intros Hx. induction xs as [|y xs IH]; cbn [Arr.insert].
  - by rewrite filter_cons_False.
  - destruct (before x y).
    + by rewrite filter_cons_False.
    + destruct (decide (P y)).
      * rewrite !filter_cons_True by done. by rewrite IH.
      * rewrite !filter_cons_False by done. by rewrite IH.
Qed.

Context (Hbefore : Arr.consistent before).

Lemma insert_ordered x xs :
  Arr.ordered before xs → Arr.ordered before (Arr.insert before x xs).
Proof.
  unfold Arr.ordered. induction 1 as [|y xs Hxs IH Hy]; cbn [Arr.insert].
  - by repeat constructor.
  - destruct (before x y) eqn:Hxy.
    + constructor; [by constructor|]. constructor.
      * by apply (Arr.before_asym before Hbefore).
      * eapply Forall_impl; [exact Hy|]. intros z Hz. cbn beta in *.
        destruct (before z x) eqn:Hzx; [|done].
        by rewrite (Arr.before_trans before Hbefore z x y Hzx Hxy) in Hz.
    + constructor; [exact IH|].
      rewrite (insert_perm x xs). by constructor.
Qed.

Lemma sort_ordered xs : Arr.ordered before (Arr.sort before xs).
Proof.
  induction xs as [|x xs IH] using rev_ind; [constructor|].
  rewrite sort_snoc. by apply insert_ordered.
Qed.

(** Where an element goes in an ordered list: after the elements it
    does not have to come before. *)
Lemma insert_split x xs :
  Arr.ordered before xs →
  ∃ front back,
    xs = front ++ back
    ∧ Arr.insert before x xs = front ++ x :: back
    ∧ Forall (λ y, before x y = false) front
    ∧ Forall (λ y, before x y = true) back.
Proof.
  unfold Arr.ordered. induction 1 as [|y xs Hxs IH Hy]; cbn [Arr.insert].
  - by exists [], [].
  - destruct (before x y) eqn:Hxy.
    + exists [], (y :: xs). split_and!; [done | done | constructor |].
      constructor; [done|].
      eapply Forall_impl; [exact Hy|]. intros z Hz. cbn beta in *.
      destruct (Arr.before_apart before Hbefore x y z Hxy) as [?|Hzy];
        [done | congruence].
    + destruct IH as (front & back & -> & -> & Hfront & Hback).
      exists (y :: front), back. split_and!; [done | done | | done].
      by constructor.
Qed.

Lemma insert_last x xs :
  Forall (λ y, before x y = false) xs → Arr.insert before x xs = xs ++ [x].
Proof.
  induction 1 as [|y xs Hy _ IH]; [done|]. cbn [Arr.insert].
  by rewrite Hy, IH.
Qed.

Lemma sort_of_ordered xs : Arr.ordered before xs → Arr.sort before xs = xs.
Proof.
  induction xs as [|x xs IH] using rev_ind; [done|].
  unfold Arr.ordered. intros Hxs. rewrite sort_snoc.
  apply StronglySorted_app in Hxs as (Hlx & Hl & _).
  rewrite (IH Hl). apply insert_last. apply Forall_forall. intros y Hy.
  apply (Hlx y x Hy). apply list_elem_of_here.
Qed.

(** Elements among which none has to come before another keep their
    order of arrival. *)
Lemma sort_stable (P : A → Prop) `{∀ a, Decision (P a)} xs :
  (∀ a b, P a → P b → before a b = false) →
  filter P (Arr.sort before xs) = filter P xs.
Proof.
  intros Hclass. induction xs as [|x xs IH] using rev_ind; [done|].
  rewrite sort_snoc, filter_app, <- IH.
  destruct (decide (P x)) as [Hx|Hx].
  2:{ rewrite (filter_insert_other P x _ Hx). rewrite filter_cons_False by done.
      by rewrite filter_nil, app_nil_r. }
  rewrite filter_cons_True, filter_nil by done.
  destruct (insert_split x _ (sort_ordered xs))
    as (front & back & -> & -> & Hfront & Hback).
  rewrite !filter_app, filter_cons_True by done.
  assert (Hnone : filter P back = []).
  { clear -Hback Hclass Hx. induction Hback as [|y back Hy _ IH]; [done|].
    rewrite filter_cons_False; [done|].
    intros HPy. by rewrite (Hclass x y Hx HPy) in Hy. }
  by rewrite Hnone, app_nil_r.
Qed.

End ArrSort.

(** ** The message list of the selected conversation *)

Lemma Z_ltb_consistent : Arr.consistent Z.ltb.
Proof.
  split.
  - intros a b H. apply Z.ltb_lt in H. apply Z.ltb_ge. lia.
  - intros a b c H1 H2. apply Z.ltb_lt in H1, H2. apply Z.ltb_lt. lia.
  - intros a b c H. apply Z.ltb_lt in H.
    destruct (decide (a < c)) as [?|?]; [left|right]; apply Z.ltb_lt; lia.
Qed.

Section IncomingMessages.

Import Hook.

Context {Number : Type} (less : Number → Number → bool).

Lemma earlier_consistent :
  Arr.consistent less → Arr.consistent (earlier less).
Proof.
  intros [Hasym Htrans Hapart]. split; unfold earlier.
  - intros a b. apply Hasym.
  - intros a b c. apply Htrans.
  - intros a b c. apply Hapart.
Qed.

Lemma not_duplicate (message : AppMessage Number) prev :
  existsb (duplicate_of message) prev = false →
  (id message ∉ id <$> prev)
  ∧ ∀ x, truthy (message_id message) = true → message_id message = Some x →
         x ∉ message_ids prev.
Proof.
  intros Hno.
  assert (Hall : ∀ m, m ∈ prev → duplicate_of message m = false).
  { intros m Hm. destruct (duplicate_of message m) eqn:Hd; [|done].
    assert (existsb (duplicate_of message) prev = true); [|congruence].
    apply existsb_exists. exists m. by rewrite <- list_elem_of_In. }
  split.
  - intros (m & Hid & Hm)%list_elem_of_fmap. specialize (Hall m Hm).
    unfold duplicate_of in Hall. apply orb_false_elim in Hall as [Hne _].
    apply String.eqb_neq in Hne. congruence.
  - intros x Ht Hx (m & Hm & Hmid)%list_elem_of_omap.
    specialize (Hall m Hm). unfold duplicate_of in Hall.
    apply orb_false_elim in Hall as [_ Hne].
    destruct (truthy (message_id m)) eqn:Htm; [|done].
    cbn [andb] in Hne. unfold same in Hne.
    apply bool_decide_eq_false in Hne. congruence.
Qed.

Lemma message_ids_snoc (prev : list (AppMessage Number)) message :
  message_ids (prev ++ [message])
  = message_ids prev
    ++ match message_id message with
       | Some x => if truthy (message_id message) then [x] else []
       | None => []
       end.
Proof.
  unfold message_ids. rewrite omap_app. f_equal. cbn [omap list_omap].
  destruct (message_id message) as [x|]; [|done].
  by destruct (truthy (Some x)).
Qed.

Lemma add_message_distinct (message : AppMessage Number) prev :
  distinct prev → distinct (add_message less message prev).
Proof.
  intros [Hids Hmids]. unfold add_message.
  destruct (existsb (duplicate_of message) prev) eqn:Hdup; [done|].
  destruct (not_duplicate _ _ Hdup) as [Hid Hmid].
  unfold distinct, message_ids.
  rewrite (sort_perm (earlier less) (prev ++ [message])).
  fold (message_ids (prev ++ [message])). split.
  - rewrite fmap_app. apply NoDup_app. split_and!; [done | |].
    + intros x Hx [->|[]%elem_of_nil]%elem_of_cons. done.
    + apply NoDup_singleton.
  - rewrite message_ids_snoc.
    destruct (message_id message) as [x|] eqn:Hx;
      [destruct (truthy (Some x)) eqn:Ht|]; rewrite ?app_nil_r; try done.
    apply NoDup_app. split_and!; [done | | apply NoDup_singleton].
    intros y Hy [->|[]%elem_of_nil]%elem_of_cons.
    by apply (Hmid x eq_refl eq_refl).
Qed.

(** X23. The update that [addIncomingMessage] applies to the message
    list keeps it free of duplicates and in the order of the timestamps:
    if no two messages share an [id] or a [message_id] and no message
    has to come before an earlier one, the same holds afterwards. *)
Theorem incoming_message_keeps_the_list_distinct_and_ordered selected message
    prev :
  Arr.consistent less →
  distinct prev → Arr.ordered (earlier less) prev →
  let next := addIncomingMessage less selected message prev in
  distinct next ∧ Arr.ordered (earlier less) next.
Proof.
  intros Hless Hd Ho. cbv zeta. unfold addIncomingMessage.
  destruct selected as [selected_id|]; [|done].
  destruct (same _ _); [|done]. split.
  - by apply add_message_distinct.
  - unfold add_message. destruct (existsb _ _); [done|].
    apply sort_ordered. by apply earlier_consistent.
Qed.

(** X24. A message that is added to an ordered list goes after every
    message that is not later than it and before every later one, so
    messages with the same timestamp stay in their order of arrival; the
    other messages keep their places. *)
Theorem incoming_message_goes_after_the_messages_not_later selected_id message
    prev :
  Arr.consistent less →
  Arr.ordered (earlier less) prev →
  conversation_id message = Some selected_id →
  existsb (duplicate_of message) prev = false →
  ∃ front back,
    prev = front ++ back
    ∧ addIncomingMessage less (Some selected_id) message prev
      = front ++ message :: back
    ∧ Forall (λ m, less (timestamp message) (timestamp m) = false) front
    ∧ Forall (λ m, less (timestamp message) (timestamp m) = true) back.
Proof.
  intros Hless Ho Hc Hdup. unfold addIncomingMessage, add_message.
  rewrite Hc. unfold same. rewrite bool_decide_eq_true_2 by done.
  rewrite Hdup, sort_snoc.
  rewrite (sort_of_ordered (earlier less) prev Ho).
  apply (insert_split _ (earlier_consistent Hless) message prev Ho).
Qed.

(** X25. A message is added at most once: a message of another
    conversation, a message that arrives while no conversation is
    selected and a message whose [id] or [message_id] is in the list
    leave the list as it is, and only those do; any other message joins
    the list, which keeps all its messages; delivering the same message
    again changes nothing. *)
Theorem incoming_message_is_added_at_most_once selected message prev :
  let next := addIncomingMessage less selected message prev in
  addIncomingMessage less selected message next = next
  ∧ (next = prev ∨ next ≡ₚ message :: prev)
  ∧ (next = prev
     ↔ selected = None ∨ conversation_id message ≠ selected
       ∨ existsb (duplicate_of message) prev = true).
Proof.
  cbv zeta. unfold addIncomingMessage.
  destruct selected as [selected_id|].
  2:{ split_and!; [done | by left | split; [by left | done]]. }
  unfold same.
  destruct (decide (conversation_id message = Some selected_id)) as [Hc|Hc].
  2:{ rewrite !bool_decide_eq_false_2 by done.
      split_and!; [done | by left | split; [by right; left | done]]. }
  rewrite !bool_decide_eq_true_2 by done. unfold add_message.
  destruct (existsb (duplicate_of message) prev) eqn:Hdup.
  { rewrite Hdup. split_and!; [done | by left | split; [by right; right | done]]. }
  assert (Hperm : Arr.sort (earlier less) (prev ++ [message])
                  ≡ₚ message :: prev).
  { rewrite sort_perm. apply (Permutation_app_comm prev [message]). }
  split_and!.
  - assert (Hin : existsb (duplicate_of message)
                    (Arr.sort (earlier less) (prev ++ [message])) = true).
    { apply existsb_exists. exists message. split.
      - apply list_elem_of_In. rewrite Hperm. apply list_elem_of_here.
      - unfold duplicate_of. by rewrite String.eqb_refl. }
    by rewrite Hin.
  - by right.
  - split.
    + intros Heq. apply Permutation_length in Hperm.
      rewrite Heq in Hperm. cbn [length] in Hperm. lia.
    + intros [?|[?|?]]; congruence.
Qed.

End IncomingMessages.

Lemma incoming_message_keeps_the_list_distinct_and_ordered_witness :
  let message := Hook.mkAppMessage "m5" (Some "w5") (Some "c1") 200 "five" in
  let next :=
    Hook.addIncomingMessage Z.ltb (Some "c1") message Hook.demo_messages in
  Hook.distinct next ∧ Arr.ordered (Hook.earlier Z.ltb) next.
Proof.
  apply (incoming_message_keeps_the_list_distinct_and_ordered Z.ltb
           (Some "c1")
           (Hook.mkAppMessage "m5" (Some "w5") (Some "c1") 200 "five")
           Hook.demo_messages Z_ltb_consistent).
  - split; apply (bool_decide_unpack _); reflexivity.
  - repeat constructor.
Defined.

Example incoming_message_demo :
  Hook.id <$> Hook.addIncomingMessage Z.ltb (Some "c1")
                (Hook.mkAppMessage "m5" (Some "w5") (Some "c1") 200 "five")
                Hook.demo_messages
  = ["m1"; "m2"; "m3"; "m5"; "m4"].
Proof. reflexivity. Qed.

Lemma incoming_message_goes_after_the_messages_not_later_witness :
  let message := Hook.mkAppMessage "m5" (Some "w5") (Some "c1") 200 "five" in
  ∃ front back,
    Hook.demo_messages = front ++ back
    ∧ Hook.addIncomingMessage Z.ltb (Some "c1") message Hook.demo_messages
      = front ++ message :: back
    ∧ Forall (λ m, Z.ltb (Hook.timestamp message) (Hook.timestamp m) = false)
             front
    ∧ Forall (λ m, Z.ltb (Hook.timestamp message) (Hook.timestamp m) = true)
             back.
Proof.
  apply (incoming_message_goes_after_the_messages_not_later Z.ltb "c1"
           (Hook.mkAppMessage "m5" (Some "w5") (Some "c1") 200 "five")
           Hook.demo_messages Z_ltb_consistent).
  - repeat constructor.
  - reflexivity.
  - reflexivity.
Defined.

(** ** Reading the chats of the session *)

Section RetrievalRuns.

Import Retrieval.

Context (w : World) (dir : Directory).

Lemma take_min {A} (n : nat) (l : list A) :
  take (n `min` length l) l = take n l.
Proof.
  destruct (decide (n ≤ length l)%nat) as [Hle|Hgt].
  - by rewrite Nat.min_l.
  - rewrite Nat.min_r by lia. rewrite !take_ge by lia. done.
Qed.

Lemma read_chat_run limit chat b :
  read_chat w dir limit chat b
  = (match contact_answer dir (Chat.id_serialized chat) with
     | Returned c =>
         match messages_answer w (Chat.id_serialized chat) limit with
         | Returned msgs => Returned (c, msgs)
         | Thrown e => Thrown e
         end
     | Thrown e => Thrown e
     end,
     mkBoard (vehicles b) (calls b ++ read_calls dir limit chat)).
Proof.
  unfold read_chat, read_calls, bind, log, modify, await, ret.
  cbn [vehicles calls].
  destruct (contact_answer dir _) as [c|e]; [|done].
  rewrite <- app_assoc. cbn [app].
  by destruct (messages_answer w _ _).
Qed.

Lemma recent_turn_run chat acc b :
  recent_turn w dir chat acc b
  = (Returned
       match readable w dir 30 chat with
       | Some (c, msgs) =>
           (fst acc ++ format_messages dir chat c msgs,
            if negb (isGroup c)
            then snd acc ++ [format_conversation dir chat c (isGroup c) msgs]
            else snd acc)
       | None => acc
       end,
     mkBoard (vehicles b) (calls b ++ read_calls dir 30 chat)).
Proof.
  unfold recent_turn, try_catch, bind at 1. rewrite read_chat_run.
  unfold readable, ret.
  destruct (contact_answer dir _) as [c|e]; [|done].
  by destruct (messages_answer w _ _).
Qed.

Lemma recent_loop_run chats acc b :
  recent_loop w dir chats acc b
  = (Returned (fst acc ++ recent_messages w dir chats,
               snd acc ++ recent_conversations w dir chats),
     mkBoard (vehicles b) (calls b ++ (chats ≫= read_calls dir 30))).
Proof.
  revert acc b. induction chats as [|chat chats IH]; intros acc b.
  - cbn [recent_loop]. unfold ret, recent_messages, recent_conversations.
    cbn. rewrite !app_nil_r. by destruct acc, b.
  - cbn [recent_loop]. unfold bind at 1. rewrite recent_turn_run, IH.
    cbn [vehicles calls]. rewrite bind_cons, <- app_assoc.
    f_equal. f_equal.
    unfold recent_messages, recent_conversations. cbn [omap list_omap].
    destruct (readable w dir 30 chat) as [[c msgs]|]; cbn [mbind option_bind];
      [|done].
    cbn [fst snd]. destruct (isGroup c); cbn [negb mjoin list_join];
      rewrite <- ?app_assoc; done.
Qed.

Lemma all_turn_run chat acc b :
  all_turn w dir chat acc b
  = (Returned
       match readable w dir 999999 chat with
       | Some (c, msgs) =>
           acc ++ [format_conversation dir chat c
                     (chat_isGroup dir (Chat.id_serialized chat)) msgs]
       | None => acc
       end,
     mkBoard (vehicles b) (calls b ++ read_calls dir 999999 chat)).
Proof.
  unfold all_turn, try_catch, bind at 1. rewrite read_chat_run.
  unfold readable, ret.
  destruct (contact_answer dir _) as [c|e]; [|done].
  by destruct (messages_answer w _ _).
Qed.

Lemma all_loop_run chats acc b :
  all_loop w dir chats acc b
  = (Returned (acc ++ all_conversations w dir chats),
     mkBoard (vehicles b) (calls b ++ (chats ≫= read_calls dir 999999))).
Proof.
  revert acc b. induction chats as [|chat chats IH]; intros acc b.
  - cbn [all_loop]. unfold ret, all_conversations.
    cbn. rewrite !app_nil_r. by destruct b.
  - cbn [all_loop]. unfold bind at 1. rewrite all_turn_run, IH.
    cbn [vehicles calls]. rewrite bind_cons, <- app_assoc.
    f_equal. f_equal.
    unfold all_conversations. cbn [omap list_omap].
    destruct (readable w dir 999999 chat) as [[c msgs]|];
      cbn [mbind option_bind]; [|done].
    by rewrite <- app_assoc.
Qed.

Lemma save_loop_run conversations b :
  save_loop dir conversations b
  = (match save_failure dir conversations with
     | Some e => Thrown e
     | None => Returned tt
     end,
     mkBoard (vehicles b) (calls b ++ save_calls dir conversations)).
Proof.
  revert b. induction conversations as [|c conversations IH]; intros b.
  - cbn. rewrite app_nil_r. by destruct b.
  - cbn [save_loop save_failure save_calls].
    destruct (negb (info_isGroup (contact c))).
    + unfold bind at 1. unfold bind at 1, log, modify.
      unfold bind at 1, await.
      destruct (saved_answer dir (chatId c)) as [r|e]; cbn [vehicles calls].
      * unfold ret at 1. rewrite IH. cbn [vehicles calls].
        by rewrite <- app_assoc.
      * done.
    + unfold bind at 1, ret at 1. by rewrite IH.
Qed.

Lemma getRecentMessages_run chats b :
  client_connected w = true → chats_answer w = Returned chats →
  getRecentMessages w dir b
  = (match save_failure dir (recent_conversations w dir (take 100 chats)) with
     | Some e => Failed e
     | None => Recent (Arr.sort later (recent_messages w dir (take 100 chats)))
     end,
     mkBoard (vehicles b)
       (calls b ++ Session GetChats
          :: (take 100 chats ≫= read_calls dir 30)
          ++ save_calls dir (recent_conversations w dir (take 100 chats)))).
Proof.
  intros Hc Hchats. unfold getRecentMessages, getRecentMessages_try.
  rewrite Hc. cbn [negb]. unfold bind at 1, log, modify.
  unfold bind at 1, await. rewrite Hchats.
  unfold bind at 1. rewrite recent_loop_run, take_min.
  cbn [fst snd vehicles calls app]. unfold bind at 1.
  rewrite save_loop_run. cbn [vehicles calls].
  rewrite <- !app_assoc. cbn [app].
  by destruct (save_failure dir _).
Qed.

End RetrievalRuns.

Section RetrievalUpdates.

Import Retrieval.

Context (w : World) (dir : Directory).

Lemma vehicles_after_app requests requests' vs :
  vehicles_after dir (requests ++ requests') vs
  = vehicles_after dir requests' (vehicles_after dir requests vs).
Proof.
  unfold vehicles_after, Contacted.run_requests. rewrite fold_left_app.
  generalize (fold_left (λ st n, Contacted.update_request (vehicles_fault dir) n st)
                requests (Contacted.mkState vs [])).
  intros st. generalize (@nil Contacted.Call).
  revert st. induction requests' as [|n requests' IH]; intros st cs; [done|].
  cbn [fold_left]. rewrite (IH _ (cs ++ [Contacted.UpdateVehicles n])).
  symmetry.
  rewrite (IH _ (Contacted.calls st ++ [Contacted.UpdateVehicles n])).
  done.
Qed.

Lemma update_formats_run formats b :
  update_formats dir formats b
  = (if decide (Exists (λ n, vehicles_fault dir n = Throws) formats)
     then Thrown Js.Rejected else Returned tt,
     mkBoard (vehicles_after dir (attempted dir formats) (vehicles b))
             (calls b ++ (UpdateVehicles <$> attempted dir formats))).
Proof.
  revert b. induction formats as [|n formats IH]; intros b.
  - cbn. rewrite app_nil_r. destruct b.
    rewrite decide_False; [done|]. by intros ?%Exists_nil.
  - cbn [update_formats attempted]. unfold bind at 1, update_vehicles.
    unfold bind at 1, log, modify. cbn [vehicles calls].
    destruct (vehicles_fault dir n) eqn:Hn.
    + rewrite IH. cbn [vehicles calls].
      rewrite fmap_cons, <- app_assoc. cbn [app].
      change (n :: attempted dir formats)
        with ([n] ++ attempted dir formats).
      rewrite vehicles_after_app.
      assert (Hone : vehicles_after dir [n] (vehicles b)
                     = Contacted.mark_contacted n (vehicles b)).
      { unfold vehicles_after, Contacted.run_requests. cbn.
        unfold Contacted.update_request. cbn. by rewrite Hn. }
      rewrite Hone. f_equal.
      destruct (decide (Exists _ formats)) as [He|He].
      * rewrite decide_True; [done|]. by apply Exists_cons_tl.
      * rewrite decide_False; [done|].
        intros [?|?]%Exists_cons; [congruence|done].
    + unfold ret at 1. rewrite IH. cbn [vehicles calls].
      rewrite fmap_cons, <- app_assoc. cbn [app].
      change (n :: attempted dir formats)
        with ([n] ++ attempted dir formats).
      rewrite vehicles_after_app.
      assert (Hone : vehicles_after dir [n] (vehicles b) = vehicles b).
      { unfold vehicles_after, Contacted.run_requests. cbn.
        unfold Contacted.update_request. cbn. by rewrite Hn. }
      rewrite Hone. f_equal.
      destruct (decide (Exists _ formats)) as [He|He].
      * rewrite decide_True; [done|]. by apply Exists_cons_tl.
      * rewrite decide_False; [done|].
        intros [?|?]%Exists_cons; [congruence|done].
    + unfold throw. rewrite decide_True by (by apply Exists_cons_hd).
      f_equal. f_equal.
      unfold vehicles_after, Contacted.run_requests. cbn.
      unfold Contacted.update_request. cbn. by rewrite Hn.
Qed.

Lemma update_loop_run phoneNumbers b :
  update_loop dir phoneNumbers b
  = (Returned tt,
     mkBoard (vehicles_after dir (tried dir phoneNumbers) (vehicles b))
             (calls b ++ (UpdateVehicles <$> tried dir phoneNumbers))).
Proof.
  revert b. induction phoneNumbers as [|phone phoneNumbers IH]; intros b.
  - cbn. rewrite app_nil_r. by destruct b.
  - cbn [update_loop]. unfold bind at 1, try_catch.
    rewrite update_formats_run.
    assert (Hgo : ∀ o : Outcome unit,
      (let (o', s') :=
         match o with
         | Returned a => (Returned a, mkBoard
             (vehicles_after dir
                (attempted dir (Contacted.formatted_numbers phone)) (vehicles b))
             (calls b ++ (UpdateVehicles
                            <$> attempted dir (Contacted.formatted_numbers phone))))
         | Thrown e => ret tt (mkBoard
             (vehicles_after dir
                (attempted dir (Contacted.formatted_numbers phone)) (vehicles b))
             (calls b ++ (UpdateVehicles
                            <$> attempted dir (Contacted.formatted_numbers phone))))
         end in
       match o' with
       | Returned _ => update_loop dir phoneNumbers s'
       | Thrown e => (Thrown e, s')
       end)
      = update_loop dir phoneNumbers (mkBoard
             (vehicles_after dir
                (attempted dir (Contacted.formatted_numbers phone)) (vehicles b))
             (calls b ++ (UpdateVehicles
                            <$> attempted dir (Contacted.formatted_numbers phone))))).
    { by intros [[]|e]. }
    rewrite Hgo, IH. cbn [vehicles calls].
    unfold tried. rewrite bind_cons, fmap_app, <- app_assoc.
    by rewrite vehicles_after_app.
Qed.

Lemma getAllWhatsAppConversations_run chats b :
  client_connected w = true → chats_answer w = Returned chats →
  let conversations := all_conversations w dir chats in
  getAllWhatsAppConversations w dir b
  = (match save_failure dir conversations with
     | Some e => Failed e
     | None =>
         All conversations (length conversations)
             (fold_left (λ sum conv, (sum + messageCount conv)%nat)
                        conversations 0%nat)
             (phone_numbers conversations)
     end,
     mkBoard
       (vehicles_after dir (tried dir (phone_numbers conversations))
                       (vehicles b))
       (calls b ++ Session GetChats
          :: (chats ≫= read_calls dir 999999)
          ++ (UpdateVehicles <$> tried dir (phone_numbers conversations))
          ++ save_calls dir conversations)).
Proof.
  intros Hc Hchats. cbv zeta.
  unfold getAllWhatsAppConversations, getAllWhatsAppConversations_try.
  rewrite Hc. cbn [negb]. unfold bind at 1, log, modify.
  unfold bind at 1, await. rewrite Hchats.
  unfold bind at 1. rewrite all_loop_run.
  cbn [vehicles calls app]. unfold bind at 1.
  rewrite update_loop_run. cbn [vehicles calls]. unfold bind at 1.
  rewrite save_loop_run. cbn [vehicles calls].
  rewrite <- !app_assoc. cbn [app].
  by destruct (save_failure dir _).
Qed.

End RetrievalUpdates.

Section RetrievalTheorems.

Import Retrieval.

Context (w : World) (dir : Directory).

Lemma later_consistent : Arr.consistent later.
Proof.
  split; unfold later.
  - intros a b H%Z.ltb_lt. apply Z.ltb_ge. lia.
  - intros a b c H1%Z.ltb_lt H2%Z.ltb_lt. apply Z.ltb_lt. lia.
  - intros a b c H%Z.ltb_lt.
    destruct (decide (Msg.timestamp (source c) < Msg.timestamp (source a)))
      as [?|?]; [left|right]; apply Z.ltb_lt; lia.
Qed.

Lemma calls_since_run b vs cs :
  calls_since b (mkBoard vs (calls b ++ cs)) = cs.
Proof. unfold calls_since. cbn [calls]. by rewrite drop_app_length. Qed.

Lemma getRecentMessages_disconnected b :
  client_connected w = false → getRecentMessages w dir b = (Disconnected, b).
Proof.
  intros Hc. unfold getRecentMessages, getRecentMessages_try. by rewrite Hc.
Qed.

Lemma getRecentMessages_no_chats e b :
  client_connected w = true → chats_answer w = Thrown e →
  getRecentMessages w dir b
  = (Failed e, mkBoard (vehicles b) (calls b ++ [Session GetChats])).
Proof.
  intros Hc Hchats. unfold getRecentMessages, getRecentMessages_try.
  rewrite Hc. cbn [negb]. unfold bind at 1, log, modify.
  unfold bind at 1, await. by rewrite Hchats.
Qed.

(** X26. The messages that [getRecentMessages] answers with are the
    formatted messages of the chats, among the first hundred, whose
    contact and messages could be read; they come newest first, and
    messages with the same timestamp come in the order in which they
    were read. *)
Theorem recent_messages_are_sorted_newest_first b msgs :
  fst (getRecentMessages w dir b) = Recent msgs →
  ∃ chats,
    chats_answer w = Returned chats
    ∧ msgs ≡ₚ recent_messages w dir (take 100 chats)
    ∧ StronglySorted
        (λ m m', Msg.timestamp (source m') ≤ Msg.timestamp (source m)) msgs
    ∧ ∀ t, filter (λ m, Msg.timestamp (source m) = t) msgs
           = filter (λ m, Msg.timestamp (source m) = t)
                    (recent_messages w dir (take 100 chats)).
Proof.
  destruct (client_connected w) eqn:Hc.
  2:{ by rewrite getRecentMessages_disconnected. }
  destruct (chats_answer w) as [chats|e] eqn:Hchats.
  2:{ by rewrite (getRecentMessages_no_chats e). }
  rewrite (getRecentMessages_run w dir chats b Hc Hchats). cbn [fst].
  destruct (save_failure dir _); [done|]. intros [= <-].
  exists chats. split_and!; [done | apply sort_perm | |].
  - pose proof (sort_ordered later later_consistent
                  (recent_messages w dir (take 100 chats))) as Ho.
    unfold Arr.ordered in Ho.
    induction Ho as [|m ms Hms IH Hm]; constructor; [done|].
    eapply Forall_impl; [exact Hm|]. intros m' H'. cbn beta in H'.
    unfold later in H'. apply Z.ltb_ge in H'. done.
  - intros t. apply (sort_stable later later_consistent).
    intros a a' Ha Ha'. unfold later. apply Z.ltb_ge. lia.
Qed.

Lemma read_calls_are_reads limit chats :
  Forall (λ c, is_read c = true) (chats ≫= read_calls dir limit).
Proof.
  induction chats as [|chat chats IH]; [constructor|].
  rewrite bind_cons. apply Forall_app. split; [|done].
  unfold read_calls. destruct (contact_answer dir _); by repeat constructor.
Qed.

Lemma length_fetches limit chats :
  (length (filter (λ c, is_fetch c = true) (chats ≫= read_calls dir limit))
   ≤ length chats)%nat.
Proof.
  induction chats as [|chat chats IH]; [done|].
  rewrite bind_cons, filter_app, length_app. cbn [length].
  assert (length (filter (λ c, is_fetch c = true) (read_calls dir limit chat))
          ≤ 1)%nat; [|lia].
  unfold read_calls. rewrite filter_cons_False by (cbn; congruence).
  destruct (contact_answer dir _).
  - rewrite filter_cons_True by done. rewrite filter_nil. cbn [length]. lia.
  - rewrite filter_nil. cbn [length]. lia.
Qed.

Lemma save_calls_spec conversations c :
  SaveConversation c ∈ save_calls dir conversations →
  info_isGroup (contact c) = false ∧ c ∈ conversations.
Proof.
  induction conversations as [|c' conversations IH]; cbn [save_calls].
  - by intros ?%elem_of_nil.
  - destruct (info_isGroup (contact c')) eqn:Hg; cbn [negb].
    + intros [? ?]%IH. split; [done|]. by apply list_elem_of_further.
    + intros [[= ->]|Hin]%elem_of_cons.
      * split; [done|]. apply list_elem_of_here.
      * destruct (saved_answer dir _); [|by apply elem_of_nil in Hin].
        destruct (IH Hin). split; [done|]. by apply list_elem_of_further.
Qed.

Lemma save_calls_are_saves conversations :
  Forall (λ c, is_read c = false ∧ is_fetch c = false
               ∧ ∀ n, c ≠ UpdateVehicles n)
         (save_calls dir conversations).
Proof.
  induction conversations as [|c conversations IH]; cbn [save_calls];
    [constructor|].
  destruct (negb _); [|done]. constructor; [done|].
  destruct (saved_answer dir _); [done|constructor].
Qed.

Lemma filter_none {A} (P : A → Prop) `{∀ a, Decision (P a)} (l : list A) :
  Forall (λ a, ¬ P a) l → filter P l = [].
Proof.
  induction 1 as [|a l Ha _ IH]; [done|]. by rewrite filter_cons_False.
Qed.

Lemma filter_all {A} (P : A → Prop) `{∀ a, Decision (P a)} (l : list A) :
  Forall P l → filter P l = l.
Proof.
  induction 1 as [|a l Ha _ IH]; [done|]. rewrite filter_cons_True by done.
  by rewrite IH.
Qed.

Lemma updates_none cs :
  Forall (λ c, ∀ n, c ≠ UpdateVehicles n) cs → updates cs = [].
Proof.
  unfold updates. induction 1 as [|c cs Hc _ IH]; [done|].
  cbn [omap list_omap]. destruct c; try done. by destruct (Hc number0).
Qed.

(** X27. [getRecentMessages] reads the first hundred chats and no
    others, in order: for each it asks for the contact and then, if that
    is answered, for at most thirty messages.  It hands to
    [saveConversationToSupabase] only conversations that it has read and
    whose contact is not a group, and it never touches the vehicle
    table. *)
Theorem recent_messages_read_the_first_hundred_chats b chats :
  client_connected w = true → chats_answer w = Returned chats →
  let b' := snd (getRecentMessages w dir b) in
  filter (λ c, is_read c = true) (calls_since b b')
  = take 100 chats ≫= read_calls dir 30
  ∧ (length (filter (λ c, is_fetch c = true) (calls_since b b'))
     ≤ 100 `min` length chats)%nat
  ∧ (∀ c, SaveConversation c ∈ calls_since b b' →
          info_isGroup (contact c) = false
          ∧ c ∈ recent_conversations w dir (take 100 chats))
  ∧ updates (calls_since b b') = []
  ∧ vehicles b' = vehicles b.
Proof.
  intros Hc Hchats. cbv zeta.
  rewrite (getRecentMessages_run w dir chats b Hc Hchats). cbn [snd].
  rewrite calls_since_run. cbn [vehicles].
  pose proof (save_calls_are_saves
                (recent_conversations w dir (take 100 chats))) as Hsaves.
  split_and!.
  - rewrite filter_cons_False by (cbn; congruence).
    rewrite filter_app, (filter_all _ _ (read_calls_are_reads 30 _)).
    rewrite filter_none; [by rewrite app_nil_r|].
    eapply Forall_impl; [exact Hsaves|]. intros c (Hr & _). congruence.
  - rewrite filter_cons_False by (cbn; congruence).
    rewrite filter_app, length_app.
    rewrite (filter_none (λ c, is_fetch c = true) (save_calls dir _)).
    2:{ eapply Forall_impl; [exact Hsaves|]. intros c (_ & Hf & _).
        congruence. }
    pose proof (length_fetches 30 (take 100 chats)) as Hlen.
    rewrite length_take in Hlen. cbn [length]. lia.
  - intros c [Hin|Hin]%elem_of_cons; [done|].
    apply elem_of_app in Hin as [Hin|Hin].
    + pose proof (read_calls_are_reads 30 (take 100 chats)) as Hreads.
      rewrite Forall_forall in Hreads. by apply Hreads in Hin.
    + by apply save_calls_spec.
  - unfold updates. cbn [omap list_omap]. fold (updates
      ((take 100 chats ≫= read_calls dir 30)
         ++ save_calls dir (recent_conversations w dir (take 100 chats)))).
    apply updates_none, Forall_app. split.
    + eapply Forall_impl; [apply (read_calls_are_reads 30)|].
      intros c Hr n ->. done.
    + eapply Forall_impl; [exact Hsaves|]. by intros c (_ & _ & ?).
  - done.
Qed.

(** X28. A chat whose contact or messages cannot be read never makes
    [getRecentMessages] fail.  The handler answers 503 exactly when the
    session is not connected, and then makes no call; once the chats are
    listed it answers with a server error exactly when
    [saveConversationToSupabase] rejects for one of the conversations it
    has read, and with the messages otherwise. *)
Theorem unreadable_chats_do_not_fail_recent_messages b :
  let answer := fst (getRecentMessages w dir b) in
  (answer = Disconnected ↔ client_connected w = false)
  ∧ (answer = Disconnected → snd (getRecentMessages w dir b) = b)
  ∧ ∀ chats,
      client_connected w = true → chats_answer w = Returned chats →
      let conversations := recent_conversations w dir (take 100 chats) in
      (∀ e, answer = Failed e ↔ save_failure dir conversations = Some e)
      ∧ (answer
         = Recent (Arr.sort later (recent_messages w dir (take 100 chats)))
         ↔ save_failure dir conversations = None).
Proof.
  cbv zeta. destruct (client_connected w) eqn:Hc.
  2:{ rewrite getRecentMessages_disconnected by done. cbn [fst snd].
      split_and!; [done | done |]. intros chats [=]. }
  destruct (chats_answer w) as [chats|e] eqn:Hchats.
  - rewrite (getRecentMessages_run w dir chats b Hc Hchats). cbn [fst snd].
    split_and!.
    + by destruct (save_failure dir _).
    + by destruct (save_failure dir _).
    + intros chats' _ [= <-].
      destruct (save_failure dir _) as [e|].
      * split; [|done]. intros e'. split; by intros [= ->].
      * split; [|done]. intros e'. done.
  - rewrite (getRecentMessages_no_chats e) by done. cbn [fst snd].
    split_and!; [done | done |]. intros chats _ [=].
Qed.

End RetrievalTheorems.

Section AllConversations.

Import Retrieval.

Context (w : World) (dir : Directory).

Lemma getAllWhatsAppConversations_disconnected b :
  client_connected w = false →
  getAllWhatsAppConversations w dir b = (Disconnected, b).
Proof.
  intros Hc.
  unfold getAllWhatsAppConversations, getAllWhatsAppConversations_try.
  by rewrite Hc.
Qed.

Lemma getAllWhatsAppConversations_no_chats e b :
  client_connected w = true → chats_answer w = Thrown e →
  getAllWhatsAppConversations w dir b
  = (Failed e, mkBoard (vehicles b) (calls b ++ [Session GetChats])).
Proof.
  intros Hc Hchats.
  unfold getAllWhatsAppConversations, getAllWhatsAppConversations_try.
  rewrite Hc. cbn [negb]. unfold bind at 1, log, modify.
  unfold bind at 1, await. by rewrite Hchats.
Qed.

Lemma total_messages_from (conversations : list FormattedConversation) start :
  Forall (λ c, messageCount c = length (messages c)) conversations →
  fold_left (λ sum conv, (sum + messageCount conv)%nat) conversations start
  = (start + length (mjoin (messages <$> conversations)))%nat.
Proof.
  intros Hall. revert start.
  induction Hall as [|c conversations Hc _ IH]; intros start.
  - cbn. lia.
  - rewrite fmap_cons. cbn [fold_left mjoin list_join]. rewrite IH, Hc.
    rewrite length_app. symmetry. apply Nat.add_assoc.
Qed.

Lemma all_conversations_counts chats :
  Forall (λ c, messageCount c = length (messages c))
         (all_conversations w dir chats).
Proof.
  apply Forall_forall. intros c (chat & Hchat & Hc)%list_elem_of_omap.
  destruct (readable w dir 999999 chat) as [[ct msgs]|]; [|done].
  cbn in Hc. by injection Hc as <-.
Qed.

Lemma all_conversations_chats chats :
  chatId <$> all_conversations w dir chats
  `sublist_of` Chat.id_serialized <$> chats.
Proof.
  induction chats as [|chat chats IH]; [done|].
  unfold all_conversations. cbn [omap list_omap].
  destruct (readable w dir 999999 chat) as [[ct msgs]|];
    cbn [mbind option_bind fmap list_fmap].
  - by apply sublist_skip.
  - by apply sublist_cons.
Qed.

Lemma phone_numbers_from acc (conversations : list FormattedConversation) :
  NoDup acc →
  let numbers :=
    fold_left (λ numbers conv,
                 match info_number (contact conv) with
                 | Some n =>
                     if negb (info_isGroup (contact conv))
                        && Send.truthy (Some n)
                     then Contacted.add n numbers
                     else numbers
                 | None => numbers
                 end) conversations acc in
  NoDup numbers
  ∧ ∀ x, x ∈ numbers
         ↔ x ∈ acc
           ∨ ∃ c, c ∈ conversations
                  ∧ info_isGroup (contact c) = false
                  ∧ info_number (contact c) = Some x ∧ x ≠ "".
Proof.
  revert acc. induction conversations as [|c conversations IH]; intros acc Hnd.
  - cbn [fold_left]. split; [done|]. intros x. split; [by left|].
    intros [?|(c & []%elem_of_nil & _)]. done.
  - cbn [fold_left].
    assert (Hskip :
      ¬ (∃ x, info_isGroup (contact c) = false
              ∧ info_number (contact c) = Some x ∧ x ≠ "") →
      ∀ x, (x ∈ acc ∨ ∃ c', c' ∈ conversations
                     ∧ info_isGroup (contact c') = false
                     ∧ info_number (contact c') = Some x ∧ x ≠ "")
           ↔ (x ∈ acc ∨ ∃ c', c' ∈ c :: conversations
                     ∧ info_isGroup (contact c') = false
                     ∧ info_number (contact c') = Some x ∧ x ≠ "")).
    { intros Hno x. split.
      - intros [?|(c' & Hc' & H')]; [by left|right].
        exists c'. split; [by apply list_elem_of_further|done].
      - intros [?|(c' & [->|Hc']%elem_of_cons & H')]; [by left| |].
        + destruct Hno. by exists x.
        + right. by exists c'. }
    destruct (info_number (contact c)) as [n|] eqn:Hn.
    2:{ destruct (IH _ Hnd) as [Hnd' Hin']. split; [done|].
        intros x. rewrite Hin'. apply Hskip. by intros (? & _ & [=] & _). }
    destruct (info_isGroup (contact c)) eqn:Hg; cbn [negb andb].
    { destruct (IH _ Hnd) as [Hnd' Hin']. split; [done|].
      intros x. rewrite Hin'. apply Hskip. by intros (? & [=] & _). }
    destruct (Send.truthy (Some n)) eqn:Ht.
    2:{ destruct (IH _ Hnd) as [Hnd' Hin']. split; [done|].
        intros x. rewrite Hin'. apply Hskip.
        intros (x' & _ & [= ->] & Hne). cbn in Ht.
        apply negb_false_iff, String.eqb_eq in Ht. done. }
    destruct (add_spec n acc Hnd) as [Hnd1 Hin1].
    destruct (IH _ Hnd1) as [Hnd' Hin']. split; [done|].
    intros x. rewrite Hin', Hin1. split.
    + intros [[?| ->]|(c' & Hc' & H')]; [by left|right|right].
      * exists c. split_and!; [apply list_elem_of_here|done|done|].
        cbn in Ht. apply negb_true_iff, String.eqb_neq in Ht. done.
      * exists c'. split; [by apply list_elem_of_further|done].
    + intros [?|(c' & [->|Hc']%elem_of_cons & Hg' & Hn' & Hne)].
      * by left; left.
      * left; right. congruence.
      * right. by exists c'.
Qed.

(** X29. The statistics of [getAllWhatsAppConversations] describe the
    conversations it answers with, which are those of the chats that
    could be read, in the order of the chats: [totalConversations] is
    their number, [totalMessages] the number of their messages, and
    [phoneNumbersUpdated] lists, once each, the non-empty contact
    numbers of the conversations that are not groups. *)
Theorem all_conversations_statistics b conversations n total numbers :
  fst (getAllWhatsAppConversations w dir b) = All conversations n total numbers →
  ∃ chats,
    chats_answer w = Returned chats
    ∧ conversations = all_conversations w dir chats
    ∧ chatId <$> conversations `sublist_of` Chat.id_serialized <$> chats
    ∧ n = length conversations
    ∧ total = length (mjoin (messages <$> conversations))
    ∧ NoDup numbers
    ∧ ∀ x, x ∈ numbers
           ↔ ∃ c, c ∈ conversations
                  ∧ info_isGroup (contact c) = false
                  ∧ info_number (contact c) = Some x ∧ x ≠ "".
Proof.
  destruct (client_connected w) eqn:Hc.
  2:{ by rewrite getAllWhatsAppConversations_disconnected. }
  destruct (chats_answer w) as [chats|e] eqn:Hchats.
  2:{ by rewrite (getAllWhatsAppConversations_no_chats e). }
  rewrite (getAllWhatsAppConversations_run w dir chats b Hc Hchats).
  cbn [fst]. destruct (save_failure dir _); [done|]. intros [= <- <- <- <-].
  exists chats.
  destruct (phone_numbers_from [] (all_conversations w dir chats)
              (NoDup_nil_2)) as [Hnd Hin].
  split_and!; [done | done | apply all_conversations_chats | done | | done |].
  - by rewrite (total_messages_from _ _ (all_conversations_counts chats)).
  - intros x. unfold phone_numbers. rewrite Hin. split; [|by right].
    intros [[]%elem_of_nil|?]. done.
Qed.

Lemma attempted_first n formats :
  n ∈ attempted dir (n :: formats).
Proof. cbn [attempted]. apply list_elem_of_here. Qed.

Lemma attempted_all formats :
  (∀ n, vehicles_fault dir n ≠ Throws) → attempted dir formats = formats.
Proof.
  intros Hno. induction formats as [|n formats IH]; [done|].
  cbn [attempted]. rewrite IH. specialize (Hno n).
  by destruct (vehicles_fault dir n).
Qed.

Lemma attempted_prefix formats : attempted dir formats `prefix_of` formats.
Proof.
  induction formats as [|n formats IH]; [done|]. cbn [attempted].
  destruct (vehicles_fault dir n); try by apply prefix_cons.
  apply prefix_cons, prefix_nil.
Qed.

Lemma updates_app cs cs' : updates (cs ++ cs') = updates cs ++ updates cs'.
Proof. apply omap_app. Qed.

Lemma updates_requests requests :
  updates (UpdateVehicles <$> requests) = requests.
Proof.
  induction requests as [|n requests IH]; [done|].
  rewrite fmap_cons. unfold updates in *. cbn [omap list_omap].
  by rewrite IH.
Qed.

Lemma vehicles_after_only_marks requests vs :
  Forall2 (λ v v', v' = v
                   ∨ (v' = Contacted.marked v ∧ is_Some (Contacted.phone v)))
          vs (vehicles_after dir requests vs).
Proof.
  unfold vehicles_after. rewrite vehicles_run_requests.
  cbn [Contacted.vehicles].
  apply Forall2_fmap_r, Forall_Forall2_diag, Forall_forall.
  intros v _. unfold compose.
  destruct (Contacted.reached_by _ requests v) eqn:Hr; [|by left].
  right. split; [done|].
  unfold Contacted.reached_by in Hr.
  apply existsb_exists in Hr as (n & _ & Hn).
  apply andb_prop in Hn as [_ Hn]. unfold Contacted.ilike_contains in Hn.
  by destruct (Contacted.phone v).
Qed.

(** X30. In [getAllWhatsAppConversations] the vehicle updates run one
    after the other: for each phone number its patterns are tried in
    order up to the first that the store rejects, so a rejection skips
    the remaining patterns of that number only, and the raw number of
    every phone number is tried.  The updates only ever set a status to
    contacted, on rows with a phone number, and no failure of an update
    makes the handler fail: it answers with a server error exactly when
    saving a conversation rejects. *)
Theorem rejected_update_skips_only_its_number b chats :
  client_connected w = true → chats_answer w = Returned chats →
  let conversations := all_conversations w dir chats in
  let numbers := phone_numbers conversations in
  let b' := snd (getAllWhatsAppConversations w dir b) in
  updates (calls_since b b')
  = numbers ≫= (λ phone, attempted dir (Contacted.formatted_numbers phone))
  ∧ (∀ phone, attempted dir (Contacted.formatted_numbers phone)
              `prefix_of` Contacted.formatted_numbers phone)
  ∧ (∀ phone, phone ∈ numbers → phone ∈ updates (calls_since b b'))
  ∧ ((∀ n, vehicles_fault dir n ≠ Throws) →
     updates (calls_since b b') = numbers ≫= Contacted.formatted_numbers)
  ∧ Forall2 (λ v v', v' = v
                     ∨ (v' = Contacted.marked v
                        ∧ is_Some (Contacted.phone v)))
            (vehicles b) (vehicles b')
  ∧ (∀ e, fst (getAllWhatsAppConversations w dir b) = Failed e
          ↔ save_failure dir conversations = Some e).
Proof.
  intros Hc Hchats. cbv zeta.
  rewrite (getAllWhatsAppConversations_run w dir chats b Hc Hchats).
  cbv zeta. cbn [fst snd]. rewrite calls_since_run. cbn [vehicles].
  set (conversations := all_conversations w dir chats).
  set (numbers := phone_numbers conversations).
  assert (Hupdates :
    updates (Session GetChats
               :: (chats ≫= read_calls dir 999999)
               ++ (UpdateVehicles <$> tried dir numbers)
               ++ save_calls dir conversations)
    = tried dir numbers).
  { change (Session GetChats :: ?l) with ([Session GetChats] ++ l).
    rewrite !updates_app, updates_requests.
    rewrite (updates_none [Session GetChats]) by (by repeat constructor).
    rewrite (updates_none (chats ≫= _)).
    2:{ eapply Forall_impl; [apply (read_calls_are_reads dir 999999)|].
        intros c Hr n ->. done. }
    rewrite (updates_none (save_calls dir conversations)).
    2:{ eapply Forall_impl; [apply save_calls_are_saves|].
        by intros c (_ & _ & ?). }
    by rewrite app_nil_r. }
  rewrite Hupdates. split_and!.
  - done.
  - intros phone. apply attempted_prefix.
  - intros phone Hin. unfold tried. apply list_elem_of_bind.
    exists phone. split; [|done]. apply attempted_first.
  - intros Hno. unfold tried. clear -Hno.
    induction numbers as [|n numbers IH]; [done|].
    rewrite !bind_cons, IH. by rewrite attempted_all.
  - apply vehicles_after_only_marks.
  - intros e. destruct (save_failure dir conversations) as [e'|].
    + split; by intros [= ->].
    + done.
Qed.

End AllConversations.

Section RetrievalWitnesses.

Import Retrieval.

Example recent_messages_demo :
  (λ m, Msg.id_serialized (source m))
    <$> match fst (getRecentMessages demo_world demo_directory demo_board) with
        | Recent msgs => msgs
        | _ => []
        end
  = ["b"; "c"; "g"; "a"].
Proof. reflexivity. Qed.

Lemma recent_messages_are_sorted_newest_first_witness :
  let msgs :=
    Arr.sort later
      (recent_messages demo_world demo_directory
         [Chat.mk "33612345678@c.us"; Chat.mk "1203630212@g.us";
          Chat.mk "4915112345@c.us"]) in
  ∃ chats,
    chats_answer demo_world = Returned chats
    ∧ msgs ≡ₚ recent_messages demo_world demo_directory (take 100 chats)
    ∧ StronglySorted
        (λ m m', Msg.timestamp (source m') ≤ Msg.timestamp (source m)) msgs
    ∧ ∀ t, filter (λ m, Msg.timestamp (source m) = t) msgs
           = filter (λ m, Msg.timestamp (source m) = t)
                    (recent_messages demo_world demo_directory
                                     (take 100 chats)).
Proof.
  apply (recent_messages_are_sorted_newest_first demo_world demo_directory
           demo_board).
  reflexivity.
Defined.

Lemma recent_messages_read_the_first_hundred_chats_witness :
  let chats := [Chat.mk "33612345678@c.us"; Chat.mk "1203630212@g.us";
                Chat.mk "4915112345@c.us"] in
  let b' := snd (getRecentMessages demo_world demo_directory demo_board) in
  filter (λ c, is_read c = true) (calls_since demo_board b')
  = take 100 chats ≫= read_calls demo_directory 30
  ∧ (length (filter (λ c, is_fetch c = true) (calls_since demo_board b'))
     ≤ 100 `min` length chats)%nat
  ∧ (∀ c, SaveConversation c ∈ calls_since demo_board b' →
          info_isGroup (contact c) = false
          ∧ c ∈ recent_conversations demo_world demo_directory
                  (take 100 chats))
  ∧ updates (calls_since demo_board b') = []
  ∧ vehicles b' = vehicles demo_board.
Proof.
  apply (recent_messages_read_the_first_hundred_chats demo_world
           demo_directory demo_board
           [Chat.mk "33612345678@c.us"; Chat.mk "1203630212@g.us";
            Chat.mk "4915112345@c.us"]); reflexivity.
Defined.

Lemma all_conversations_statistics_witness :
  let conversations :=
    all_conversations demo_world demo_directory
      [Chat.mk "33612345678@c.us"; Chat.mk "1203630212@g.us";
       Chat.mk "4915112345@c.us"] in
  ∃ chats,
    chats_answer demo_world = Returned chats
    ∧ conversations = all_conversations demo_world demo_directory chats
    ∧ chatId <$> conversations `sublist_of` Chat.id_serialized <$> chats
    ∧ 2%nat = length conversations
    ∧ 4%nat = length (mjoin (messages <$> conversations))
    ∧ NoDup ["33612345678"]
    ∧ ∀ x, x ∈ ["33612345678"]
           ↔ ∃ c, c ∈ conversations
                  ∧ info_isGroup (contact c) = false
                  ∧ info_number (contact c) = Some x ∧ x ≠ "".
Proof.
  apply (all_conversations_statistics demo_world demo_directory demo_board
           (all_conversations demo_world demo_directory
              [Chat.mk "33612345678@c.us"; Chat.mk "1203630212@g.us";
               Chat.mk "4915112345@c.us"])
           2 4 ["33612345678"]).
  reflexivity.
Defined.

Lemma rejected_update_skips_only_its_number_witness :
  let dir :=
    mkDirectory (chat_name demo_directory) (chat_isGroup demo_directory)
                (contact_answer demo_directory)
                (λ n, if String.eqb n "+33612345678" then Throws else NoFault)
                (saved_answer demo_directory) in
  let conversations :=
    all_conversations demo_world dir
      [Chat.mk "33612345678@c.us"; Chat.mk "1203630212@g.us";
       Chat.mk "4915112345@c.us"] in
  let numbers := phone_numbers conversations in
  let b' := snd (getAllWhatsAppConversations demo_world dir demo_board) in
  updates (calls_since demo_board b')
  = numbers ≫= (λ phone, attempted dir (Contacted.formatted_numbers phone))
  ∧ (∀ phone, attempted dir (Contacted.formatted_numbers phone)
              `prefix_of` Contacted.formatted_numbers phone)
  ∧ (∀ phone, phone ∈ numbers → phone ∈ updates (calls_since demo_board b'))
  ∧ ((∀ n, vehicles_fault dir n ≠ Throws) →
     updates (calls_since demo_board b')
     = numbers ≫= Contacted.formatted_numbers)
  ∧ Forall2 (λ v v', v' = v
                     ∨ (v' = Contacted.marked v
                        ∧ is_Some (Contacted.phone v)))
            (vehicles demo_board) (vehicles b')
  ∧ (∀ e, fst (getAllWhatsAppConversations demo_world dir demo_board)
          = Failed e
          ↔ save_failure dir conversations = Some e).
Proof.
  intros dir.
  apply (rejected_update_skips_only_its_number demo_world dir demo_board
           [Chat.mk "33612345678@c.us"; Chat.mk "1203630212@g.us";
            Chat.mk "4915112345@c.us"]); reflexivity.
Defined.

Example rejected_update_demo :
  updates
    (calls_since demo_board
       (snd (getAllWhatsAppConversations demo_world
               (mkDirectory (chat_name demo_directory)
                  (chat_isGroup demo_directory)
                  (contact_answer demo_directory)
                  (λ n, if String.eqb n "+33612345678" then Throws
                        else NoFault)
                  (saved_answer demo_directory))
               demo_board)))
  = ["33612345678"; "+33612345678"].
Proof. reflexivity. Qed.

End RetrievalWitnesses.
